(** * PdfPptxVideo: a shallow embedding of the client-side pipeline

    The repository holds two revisions of [App.tsx] and two revisions of
    [services/geminiService.ts]:

    - [AppPdf]  : the PDF-only application (imports [analyzePdfForPpt],
                  [DAILY_LIMIT = 3]);
    - [AppDoc]  : the PDF-and-PowerPoint application (imports
                  [analyzeDocument] and [extractTextFromPptx],
                  [DAILY_LIMIT = 5]);
    - [GeminiBusy]  : the service whose [callWithRetry] starts at 2000 ms;
    - [GeminiQuota] : the service whose [callWithRetry] starts at 3000 ms;
    - [PptxParser]  : [services/pptxParser.ts].

    JavaScript numbers that hold integers are modelled as [Z], [N] or
    [nat], exact (slide numbers stay below 2^53 in any real archive);
    the progress percentage, a quotient that is multiplied and floored,
    is computed in binary64 as the source computes it; times are
    milliseconds; audio samples and durations are exact
    rationals ([Q]: a 16-bit sample over 32768 is exact in a
    [Float32Array]); typed arrays are little-endian; strings are
    [String.string], and case mapping acts on the ASCII letters. *)

From Stdlib Require Import List ZArith Lia Bool Arith PeanoNat.
From Stdlib Require Import Strings.String Strings.Ascii.
From Stdlib Require Import Numbers.DecimalString.
From Stdlib Require Import QArith Lqa.
From Stdlib Require Floats.SpecFloat.
From Stdlib Require Import Sorting.Sorted Sorting.Permutation.
Import ListNotations.

Open Scope string_scope.
Open Scope list_scope.

(** ** JavaScript helpers *)

(** Template interpolation of a non-negative integer. *)
Definition showNat (n : nat) : string :=
  NilZero.string_of_uint (Nat.to_uint n).

(** [s || d] on strings: the empty string is falsy. *)
Definition strOr (s : option string) (d : string) : string :=
  match s with
  | Some (String c r) => String c r
  | _ => d
  end.

(** [s || undefined] on an optional string. *)
Definition strOrUndefined (s : option string) : option string :=
  match s with
  | Some (String c r) => Some (String c r)
  | _ => None
  end.

Definition nonEmpty (s : string) : bool :=
  match s with
  | EmptyString => false
  | String _ _ => true
  end.

(** ** Numbers that do not stay integers

    IEEE 754 binary64 with rounding to nearest, ties to even: the
    Standard Library's [SpecFloat] at precision 53. *)
Module Double.

Definition prec : Z := 53.
Definition emax : Z := 1024.

(** An integer as a number. *)
Definition ofZ (n : Z) : SpecFloat.spec_float :=
  SpecFloat.binary_normalize prec emax n 0 false.

Definition div (x y : SpecFloat.spec_float) : SpecFloat.spec_float :=
  SpecFloat.SFdiv prec emax x y.

Definition mul (x y : SpecFloat.spec_float) : SpecFloat.spec_float :=
  SpecFloat.SFmul prec emax x y.

(** [Math.floor(x)] as an integer; 0 stands for what is not finite. *)
Definition floor (x : SpecFloat.spec_float) : Z :=
  match x with
  | SpecFloat.S754_finite s m e =>
      let v := if s then Z.neg m else Z.pos m in
      if (0 <=? e)%Z then (v * 2 ^ e)%Z else (v / 2 ^ (- e))%Z
  | _ => 0%Z
  end.

End Double.

(** ** Data model ([types.ts] as the applications use it) *)

(** [AudioBuffer]: one [Float32Array] per channel. *)
Record AudioBuffer := mkAudioBuffer {
  numberOfChannels : nat;
  bufLength : nat;
  sampleRate : Z;
  channels : list (list Q)
}.

(** [AudioBuffer.duration], in seconds. *)
Definition duration (b : AudioBuffer) : Q :=
  inject_Z (Z.of_nat (bufLength b)) / inject_Z (sampleRate b).

(** A narration record of the analysis response. *)
Record AiSlide := mkAiSlide {
  ai_pageIndex : Z;
  ai_title : string;
  ai_notes : string
}.

Record Slide := mkSlide {
  pageIndex : Z;
  title : string;
  notes : string;
  imageUrl : option string;
  audioBuffer : option AudioBuffer
}.

Record AnalysisResult := mkAnalysisResult {
  presentationTitle : string;
  summary : string;
  slides : list Slide
}.

(** ** [geminiService.ts]: audio decoding (the same text in both revisions) *)
Module Audio.

(** One little-endian element of [new Int16Array(data.buffer)]. *)
Definition int16 (lo hi : Byte.byte) : Z :=
  let u := (Z.of_N (Byte.to_N lo) + 256 * Z.of_N (Byte.to_N hi))%Z in
  if (u <? 32768)%Z then u else (u - 65536)%Z.

(** [new Int16Array(data.buffer)]: a [RangeError] ([None]) when the byte
    length is odd. *)
Fixpoint Int16Array (data : list Byte.byte) : option (list Z) :=
  match data with
  | [] => Some []
  | [_] => None
  | lo :: hi :: rest =>
      match Int16Array rest with
      | Some l => Some (int16 lo hi :: l)
      | None => None
      end
  end.

(** [ctx.createBuffer(numChannels, frameCount, sampleRate)]: a
    [NotSupportedError] ([None]) without channels, without frames or
    without a positive rate; every channel starts as silence. *)
Definition createBuffer (numChannels frameCount : nat) (rate : Z)
    : option AudioBuffer :=
  if (numChannels =? 0)%nat || (frameCount =? 0)%nat || (rate <=? 0)%Z
  then None
  else Some {| numberOfChannels := numChannels;
               bufLength := frameCount;
               sampleRate := rate;
               channels := repeat (repeat 0%Q frameCount) numChannels |}.

(** [dataInt16[i * numChannels + channel] / 32768.0] *)
Definition sample (dataInt16 : list Z) (numChannels channel i : nat) : Q :=
  (inject_Z (nth (i * numChannels + channel) dataInt16 0%Z)
   / inject_Z 32768)%Q.

(** The inner loop, for one channel. *)
Definition fillChannel (dataInt16 : list Z) (numChannels frameCount : nat)
    (channel : nat) : list Q :=
  map (sample dataInt16 numChannels channel) (seq 0 frameCount).

(** [decodeAudioData(data, ctx, sampleRate, numChannels)]; the quotient
    [dataInt16.length / numChannels] is exact for the single channel the
    service asks for. *)
Definition decodeAudioData (data : list Byte.byte) (rate : Z)
    (numChannels : nat) : option AudioBuffer :=
  match Int16Array data with
  | None => None
  | Some dataInt16 =>
      let frameCount := (List.length dataInt16 / numChannels)%nat in
      match createBuffer numChannels frameCount rate with
      | None => None
      | Some buffer =>
          Some {| numberOfChannels := numberOfChannels buffer;
                  bufLength := bufLength buffer;
                  sampleRate := sampleRate buffer;
                  channels :=
                    map (fillChannel dataInt16 numChannels frameCount)
                        (seq 0 numChannels) |}
      end
  end.

(** The tail of [generateSpeechForText], after base64 decoding:
    [decodeAudioData(audioBytes, audioCtx, 24000, 1)]. *)
Definition decodeSpeech (audioBytes : list Byte.byte) : option AudioBuffer :=
  decodeAudioData audioBytes 24000 1.

End Audio.

(** ** String helpers of the service and the parser *)

(** [s.includes(x)] *)
Fixpoint includes (s x : string) : bool :=
  String.prefix x s ||
  match s with
  | EmptyString => false
  | String _ r => includes r x
  end.

Definition lowerAscii (c : ascii) : ascii :=
  let n := nat_of_ascii c in
  if ((65 <=? n) && (n <=? 90))%nat then ascii_of_nat (n + 32) else c.

(** [s.toLowerCase()], on the ASCII letters. *)
Fixpoint toLowerCase (s : string) : string :=
  match s with
  | EmptyString => EmptyString
  | String c r => String (lowerAscii c) (toLowerCase r)
  end.

(** ** The retry wrapper: what one call of [fn()] does *)
Inductive Attempt (R : Type) :=
| Resolves (result : option R)    (* [None]: a falsy result *)
| Rejects (message : string).     (* [error?.message || ""] *)
Arguments Resolves {R} _.
Arguments Rejects {R} _.

(** How [callWithRetry] ends. *)
Inductive Outcome (R : Type) :=
| Returns (result : option R)
| Throws (message : string)
| FallsThrough.                   (* the loop ran out: [undefined] *)
Arguments Returns {R} _.
Arguments Throws {R} _.
Arguments FallsThrough {R}.

(** A run of [callWithRetry]: its end, the [setTimeout] delays it waited
    for in order, and how many times it called [fn]. *)
Record Run (R : Type) := mkRun {
  outcome : Outcome R;
  delays : list Z;
  calls : nat
}.
Arguments mkRun {R} _ _ _.
Arguments outcome {R} _.
Arguments delays {R} _.
Arguments calls {R} _.

Definition waited {R} (d : Z) (r : Run R) : Run R :=
  mkRun (outcome r) (d :: delays r) (S (calls r)).

Definition safetyNeedle : string := "SAFETY".
Definition unknownError : string := "不明なエラーが発生しました。".
Definition wrapError (detail : string) : string :=
  ("AI解析エラー: " ++ strOr (Some detail) unknownError)%string.

(** ** [callWithRetry], revision with the 2000 ms base delay *)
Module GeminiBusy.

Definition emptyResponse : string := "AIから空の応答が返されました。".
Definition safetyError : string :=
  "コンテンツがAIの安全ポリシーによりブロックされました。内容を変更して試してください。".

Definition isOverloaded (errorMsg : string) : bool :=
  includes errorMsg "503" || includes (toLowerCase errorMsg) "overloaded"
  || includes errorMsg "UNAVAILABLE".

Definition isRateLimited (errorMsg : string) : bool :=
  includes errorMsg "429" || includes (toLowerCase errorMsg) "quota".

(** The [catch] block at iteration [i]: [inl] to wait and continue,
    [inr] to throw. *)
Definition onError (maxRetries : nat) (i : nat) (errorMsg : string)
    : unit + string :=
  if (isOverloaded errorMsg || isRateLimited errorMsg)
     && (Z.of_nat i <? Z.of_nat maxRetries - 1)%Z
  then inl tt
  else if includes errorMsg safetyNeedle then inr safetyError
  else inr (wrapError errorMsg).

(** The [try] block: [fn()] and the [if (!result) throw]. *)
Definition attempt {R} (a : Attempt R) : R + string :=
  match a with
  | Resolves (Some r) => inl r
  | Resolves None => inr emptyResponse
  | Rejects m => inr m
  end.

(** The [for] loop: [todo] iterations remain, the counter is [i]. *)
Fixpoint retryLoop {R} (fn : nat -> Attempt R) (maxRetries todo i : nat)
    (delay : Z) : Run R :=
  match todo with
  | O => mkRun FallsThrough [] 0
  | S todo' =>
      match attempt (fn i) with
      | inl r => mkRun (Returns (Some r)) [] 1
      | inr errorMsg =>
          match onError maxRetries i errorMsg with
          | inl _ => waited delay
                       (retryLoop fn maxRetries todo' (S i) (delay * 2)%Z)
          | inr e => mkRun (Throws e) [] 1
          end
      end
  end.

Definition callWithRetry {R} (fn : nat -> Attempt R) (maxRetries : nat)
    : Run R :=
  retryLoop fn maxRetries maxRetries 0 2000%Z.

End GeminiBusy.

(** ** [callWithRetry], revision with the 3000 ms base delay *)
Module GeminiQuota.

Definition quotaError : string :=
  "Gemini APIの利用制限（無料枠の上限）に達しました。1日あたりのリクエスト数または短時間の頻度が上限を超えています。しばらく時間をおいてから再度お試しください。".
Definition safetyError : string :=
  "コンテンツがAIの安全ポリシーによりブロックされました。".

(** [rawError.substring(rawError.indexOf('{'))]: from the first brace on,
    the whole text when there is none. *)
Fixpoint fromBrace (s : string) : option string :=
  match s with
  | EmptyString => None
  | String c r =>
      if Ascii.eqb c "{"%char then Some s else fromBrace r
  end.

Definition jsonText (rawError : string) : string :=
  match fromBrace rawError with
  | Some t => t
  | None => rawError
  end.

Definition isQuotaExceeded (errorDetail : string) : bool :=
  includes errorDetail "quota" || includes errorDetail "429"
  || includes errorDetail "RESOURCE_EXHAUSTED".

Definition isOverloaded (errorDetail : string) : bool :=
  includes errorDetail "503" || includes errorDetail "overloaded"
  || includes errorDetail "UNAVAILABLE".

Section Retry.

(** [JSON.parse(text)] followed by [parsed?.error?.message]: [None] when
    [JSON.parse] throws, [Some None] when the field is missing, [Some (Some
    m)] for the message string of the backend's error object. *)
Variable parseErrorMessage : string -> option (option string).

Definition errorDetail (rawError : string) : string :=
  match parseErrorMessage (jsonText rawError) with
  | Some m => strOr m ""
  | None => rawError
  end.

(** The [catch] block at iteration [i]: [inl] to wait and continue,
    [inr] to throw. *)
Definition onError (maxRetries : nat) (i : nat) (rawError : string)
    : unit + string :=
  let d := errorDetail rawError in
  if isOverloaded d && (Z.of_nat i <? Z.of_nat maxRetries - 1)%Z
  then inl tt
  else if isQuotaExceeded d then inr quotaError
  else if includes d safetyNeedle then inr safetyError
  else inr (wrapError d).

(** The [for] loop: [todo] iterations remain, the counter is [i]. *)
Fixpoint retryLoop {R} (fn : nat -> Attempt R) (maxRetries todo i : nat)
    (delay : Z) : Run R :=
  match todo with
  | O => mkRun FallsThrough [] 0
  | S todo' =>
      match fn i with
      | Resolves result => mkRun (Returns result) [] 1
      | Rejects rawError =>
          match onError maxRetries i rawError with
          | inl _ => waited delay
                       (retryLoop fn maxRetries todo' (S i) (delay * 2)%Z)
          | inr e => mkRun (Throws e) [] 1
          end
      end
  end.

Definition callWithRetry {R} (fn : nat -> Attempt R) (maxRetries : nat)
    : Run R :=
  retryLoop fn maxRetries maxRetries 0 3000%Z.

End Retry.

End GeminiQuota.

(** ** [services/pptxParser.ts] *)
Module PptxParser.

(** An archive member, through the two views the parser asks for:
    [async('text')] and [async('base64')]. *)
Record ZipEntry := mkZipEntry {
  asText : string;
  asBase64 : string
}.

(** [zip.files]: member names in the order [Object.keys] lists them. *)
Definition Zip := list (string * ZipEntry).

(** [zip.file(path)] *)
Fixpoint file (zip : Zip) (path : string) : option ZipEntry :=
  match zip with
  | [] => None
  | (name, e) :: rest => if String.eqb name path then Some e else file rest path
  end.

Record PptxSlide := mkPptxSlide {
  index : nat;
  text : string;
  notes : string;
  image : option string
}.

Definition startsWith (s p : string) : bool := String.prefix p s.

Definition endsWith (s p : string) : bool :=
  (String.length p <=? String.length s)%nat
  && String.eqb (substring (String.length s - String.length p)
                           (String.length p) s) p.

Definition isDigit (c : ascii) : bool :=
  let n := nat_of_ascii c in ((48 <=? n) && (n <=? 57))%nat.

(** The longest run of digits at the head of [s]. *)
Fixpoint digitRun (s : string) : string :=
  match s with
  | EmptyString => EmptyString
  | String c r => if isDigit c then String c (digitRun r) else EmptyString
  end.

(** [s.match(/\d+/)]: the first run of digits, [None] for [null]. *)
Fixpoint matchDigits (s : string) : option string :=
  match s with
  | EmptyString => None
  | String c r => if isDigit c then Some (digitRun s) else matchDigits r
  end.

(** [parseInt] on a run of digits. *)
Fixpoint parseDigits (acc : N) (s : string) : N :=
  match s with
  | EmptyString => acc
  | String c r => parseDigits (acc * 10 + (N.of_nat (nat_of_ascii c) - 48))%N r
  end.

Definition parseInt (s : string) : N := parseDigits 0%N s.

(** [parseInt(a.match(/\d+/)![0])]: [None] is the [TypeError] on [null]. *)
Definition slideNumber (path : string) : option N :=
  option_map parseInt (matchDigits path).

Definition isSlideFile (name : string) : bool :=
  startsWith name "ppt/slides/slide" && endsWith name ".xml".

(** [Object.keys(zip.files).filter(...)] *)
Definition slideFiles (zip : Zip) : list string :=
  filter isSlideFile (map fst zip).

(** [Array.prototype.sort] with the comparator [numA - numB]: the sort is
    stable, so the result is the stable insertion of every element by its
    number. *)
Fixpoint insertByNumber (x : string * N) (l : list (string * N))
    : list (string * N) :=
  match l with
  | [] => [x]
  | y :: r =>
      if (snd x <=? snd y)%N then x :: y :: r else y :: insertByNumber x r
  end.

Fixpoint sortByNumber (l : list (string * N)) : list (string * N) :=
  match l with
  | [] => []
  | x :: r => insertByNumber x (sortByNumber r)
  end.

(** Every path with its number; [None] as soon as one has no digits. *)
Fixpoint numbered (paths : list string) : option (list (string * N)) :=
  match paths with
  | [] => Some []
  | p :: r =>
      match slideNumber p, numbered r with
      | Some n, Some l => Some ((p, n) :: l)
      | _, _ => None
      end
  end.

Definition sortedSlideFiles (zip : Zip) : option (list string) :=
  option_map (fun l => map fst (sortByNumber l)) (numbered (slideFiles zip)).

(** *** The text runs: [/<a:t>([^<]+)<\/a:t>/g] *)

(** The longest run without ["<"] at the head of [s], and what follows. *)
Fixpoint untilLt (s : string) : string * string :=
  match s with
  | EmptyString => (EmptyString, EmptyString)
  | String c r =>
      if Ascii.eqb c "<"%char then (EmptyString, s)
      else let '(a, b) := untilLt r in (String c a, b)
  end.

Definition dropN (n : nat) (s : string) : string :=
  substring n (String.length s - n) s.

(** One match anchored at the head of [s]: the matched text. *)
Definition matchRunHere (s : string) : option string :=
  if String.prefix "<a:t>" s then
    let '(run, rest) := untilLt (dropN 5 s) in
    if nonEmpty run && String.prefix "</a:t>" rest
    then Some ("<a:t>" ++ run ++ "</a:t>")%string
    else None
  else None.

(** [xml.match(/<a:t>([^<]+)<\/a:t>/g) || []]: [skip] characters of the
    last match are still to be passed over. *)
Fixpoint matchRuns (skip : nat) (s : string) : list string :=
  match s with
  | EmptyString => []
  | String c r =>
      match skip with
      | S k => matchRuns k r
      | O =>
          match matchRunHere s with
          | Some m => m :: matchRuns (String.length m - 1) r
          | None => matchRuns 0 r
          end
      end
  end.

(** [m.replace(/<\/?a:t>/g, '')] *)
Fixpoint stripTags (skip : nat) (s : string) : string :=
  match s with
  | EmptyString => EmptyString
  | String c r =>
      match skip with
      | S k => stripTags k r
      | O =>
          if String.prefix "<a:t>" s then stripTags 4 r
          else if String.prefix "</a:t>" s then stripTags 5 r
          else String c (stripTags 0 r)
      end
  end.

(** [l.join(' ')] *)
Fixpoint join (l : list string) : string :=
  match l with
  | [] => EmptyString
  | [x] => x
  | x :: r => (x ++ " " ++ join r)%string
  end.

Definition textRuns (xml : string) : string :=
  join (map (stripTags 0) (matchRuns 0 xml)).

(** *** The first image of the relationship manifest:
    [/Target=Q\.\.\/media\/([^Q]+\.(png|jpg|jpeg|gif|webp))Q/i], where [Q]
    stands for the double quote character *)

Definition dquote : ascii := ascii_of_nat 34.

Definition targetPrefix : string :=
  ("target=" ++ String dquote "../media/")%string.

(** Matching a lower-case literal under the [i] flag. *)
Fixpoint prefixCI (p s : string) : bool :=
  match p, s with
  | EmptyString, _ => true
  | String a p', String b s' => Ascii.eqb a (lowerAscii b) && prefixCI p' s'
  | String _ _, EmptyString => false
  end.

(** The text before the first double quote of [s]; [None] without one. *)
Fixpoint untilQuote (s : string) : option string :=
  match s with
  | EmptyString => None
  | String c r =>
      if Ascii.eqb c dquote then Some EmptyString
      else option_map (String c) (untilQuote r)
  end.

(** The text after the last ["."] of [s]; [None] without one. *)
Fixpoint afterLastDot (s : string) : option string :=
  match s with
  | EmptyString => None
  | String c r =>
      match afterLastDot r with
      | Some e => Some e
      | None => if Ascii.eqb c "."%char then Some r else None
      end
  end.

Definition imageExtensions : list string :=
  ["png"; "jpg"; "jpeg"; "gif"; "webp"].

(** Groups 1 and 2 of a match anchored at the head of [s].  Group 1 holds
    no double quote and is followed by one, so it is the text up to the
    first double quote; group 2 holds no dot, so it is the text after the
    last dot of group 1, and [[^Q]+] needs one character before that dot. *)
Definition matchImageHere (s : string) : option (string * string) :=
  if prefixCI targetPrefix s then
    match untilQuote (dropN (String.length targetPrefix) s) with
    | Some target =>
        match afterLastDot target with
        | Some ext =>
            if existsb (String.eqb (toLowerCase ext)) imageExtensions
               && (String.length ext + 1 <? String.length target)%nat
            then Some (target, ext)
            else None
        | None => None
        end
    | None => None
    end
  else None.

(** [relsXml.match(...)]: the leftmost match. *)
Fixpoint matchImage (s : string) : option (string * string) :=
  match matchImageHere s with
  | Some m => Some m
  | None =>
      match s with
      | EmptyString => None
      | String _ r => matchImage r
      end
  end.

Definition mimeType (ext : string) : string :=
  if String.eqb ext "jpg" then "image/jpeg" else ("image/" ++ ext)%string.

Definition notesPath (slideNum : string) : string :=
  ("ppt/notesSlides/notesSlide" ++ slideNum ++ ".xml")%string.

Definition relsPath (slideNum : string) : string :=
  ("ppt/slides/_rels/slide" ++ slideNum ++ ".xml.rels")%string.

(** Step 1 of the loop body. *)
Definition slideTextOf (zip : Zip) (slidePath : string) : string :=
  match file zip slidePath with
  | Some e => textRuns (asText e)
  | None => EmptyString
  end.

(** Step 2 of the loop body. *)
Definition notesTextOf (zip : Zip) (slideNum : string) : string :=
  match file zip (notesPath slideNum) with
  | Some e => if nonEmpty (asText e) then textRuns (asText e) else EmptyString
  | None => EmptyString
  end.

(** Step 3 of the loop body. *)
Definition slideImageOf (zip : Zip) (slideNum : string) : option string :=
  match file zip (relsPath slideNum) with
  | Some rels =>
      if nonEmpty (asText rels) then
        match matchImage (asText rels) with
        | Some (target, ext) =>
            match file zip ("ppt/media/" ++ target)%string with
            | Some imageFile =>
                Some ("data:" ++ mimeType (toLowerCase ext) ++ ";base64,"
                      ++ asBase64 imageFile)%string
            | None => None
            end
        | None => None
        end
      else None
  | None => None
  end.

(** The slide pushed at iteration [i]. *)
Definition slideAt (zip : Zip) (i : nat) (slidePath slideNum : string)
    : PptxSlide :=
  {| index := i;
     text := slideTextOf zip slidePath;
     notes := notesTextOf zip slideNum;
     image := slideImageOf zip slideNum |}.

(** The [for] loop over the sorted paths; [None] is the [TypeError] of
    [slidePath.match(/\d+/)![0]] on a path without digits. *)
Fixpoint extractLoop (zip : Zip) (files : list string) (i : nat)
    (slides : list PptxSlide) : option (list PptxSlide) :=
  match files with
  | [] => Some slides
  | slidePath :: rest =>
      match matchDigits slidePath with
      | Some slideNum =>
          extractLoop zip rest (S i)
            (slides ++ [slideAt zip i slidePath slideNum])
      | None => None
      end
  end.

(** [extractTextFromPptx]: the [slides] of the returned content, [None]
    when the call rejects. *)
Definition extractTextFromPptx (zip : Zip) : option (list PptxSlide) :=
  match sortedSlideFiles zip with
  | Some files => extractLoop zip files 0 []
  | None => None
  end.

End PptxParser.

(** ** The browser, as [createVideo] sees it

    A computation threads the [World] (clock, local storage, React state,
    audio contexts), may throw or never come back, and leaves a trace of
    the calls it made on the canvas, the recorder and the audio graph,
    each stamped with [Date.now()]. *)
Module Browser.

Inductive Status :=
| idle | rendering | analyzing | reviewing
| audio_generating | video_recording | completed | error.

Record AppState := mkAppState {
  status : Status;
  progress : Z;
  errorText : option string
}.

Inductive Event :=
| NewAudioContext
| GenerateSpeech (i : nat)
| LoadImage (i : nat)
| CaptureStream
| NewMediaRecorder
| DrawFrame (i : nat)
| RecorderStart
| Timeout (ms : Z)
| AnimationFrame
| SourceStart (i : nat) (seconds : Q)
| RecorderStop
| BlobAssembled
| CreateObjectURL
| CloseAudioContext
| ConsoleError.

Definition Trace := list (Z * Event).

Record World := mkWorld {
  now : Z;                              (* [Date.now()] *)
  awaits : nat;                         (* suspensions so far *)
  localStorage : option (string * Z);   (* [pdf_video_quota]: date, count *)
  remainingQuota : Z;
  appState : AppState;
  videoUrl : bool;
  openContexts : nat                    (* audio contexts not yet closed *)
}.

(** What one [generateSpeechForText] gets from the backend. *)
Inductive SpeechOutcome :=
| SpeechRejects (message : string)
| SpeechBytes (audioBytes : list Byte.byte).

(** Everything outside the program's control. *)
Record Env := mkEnv {
  today : string;                 (* [new Date().toISOString().split('T')[0]] *)
  latency : nat -> nat;           (* extra milliseconds of the k-th suspension *)
  speech : nat -> SpeechOutcome;  (* per slide *)
  imageLoads : nat -> bool;       (* [img.onload] rather than [img.onerror] *)
  canvasMounted : bool;           (* [canvasRef.current] and its 2d context *)
  recorderSupported : bool;       (* [new MediaRecorder(...)] accepts the type *)
  recorderStarts : bool;
  recorderStops : bool
}.

Inductive Res (A : Type) :=
| Ok (a : A)
| Throw (message : option string)   (* [error.message] *)
| Hang.                             (* the loop bound of the model ran out *)
Arguments Ok {A} _.
Arguments Throw {A} _.
Arguments Hang {A}.

Definition M (A : Type) := World -> Res A * World * Trace.

Definition ret {A} (a : A) : M A := fun w => (Ok a, w, []).

Definition bind {A B} (m : M A) (k : A -> M B) : M B :=
  fun w =>
    match m w with
    | (Ok a, w1, t1) => let '(r, w2, t2) := k a w1 in (r, w2, t1 ++ t2)
    | (Throw e, w1, t1) => (Throw e, w1, t1)
    | (Hang, w1, t1) => (Hang, w1, t1)
    end.

Definition throw {A} (e : option string) : M A := fun w => (Throw e, w, []).

Definition hang {A} : M A := fun w => (Hang, w, []).

(** [try { m } catch (error) { handler error }] *)
Definition tryCatch {A} (m : M A) (handler : option string -> M A) : M A :=
  fun w =>
    match m w with
    | (Throw e, w1, t1) =>
        let '(r, w2, t2) := handler e w1 in (r, w2, t1 ++ t2)
    | other => other
    end.

Definition emit (e : Event) : M unit := fun w => (Ok tt, w, [(now w, e)]).

Definition dateNow : M Z := fun w => (Ok (now w), w, []).

Definition update (f : World -> World) : M unit := fun w => (Ok tt, f w, []).

Definition result {A} (x : Res A * World * Trace) : Res A := fst (fst x).
Definition final {A} (x : Res A * World * Trace) : World := snd (fst x).
Definition trace {A} (x : Res A * World * Trace) : Trace := snd x.

Definition events (t : Trace) : list Event := map snd t.

Definition setClock (t : Z) (k : nat) (w : World) : World :=
  mkWorld t k (localStorage w) (remainingQuota w) (appState w) (videoUrl w)
    (openContexts w).

Definition setItem (v : string * Z) (w : World) : World :=
  mkWorld (now w) (awaits w) (Some v) (remainingQuota w) (appState w)
    (videoUrl w) (openContexts w).

Definition setRemainingQuota (q : Z) (w : World) : World :=
  mkWorld (now w) (awaits w) (localStorage w) q (appState w) (videoUrl w)
    (openContexts w).

Definition putAppState (a : AppState) (w : World) : World :=
  mkWorld (now w) (awaits w) (localStorage w) (remainingQuota w) a
    (videoUrl w) (openContexts w).

Definition putVideoUrl (w : World) : World :=
  mkWorld (now w) (awaits w) (localStorage w) (remainingQuota w) (appState w)
    true (openContexts w).

Definition setContexts (n : nat) (w : World) : World :=
  mkWorld (now w) (awaits w) (localStorage w) (remainingQuota w) (appState w)
    (videoUrl w) n.

Definition Qlt_bool (x y : Q) : bool := negb (Qle_bool y x).

End Browser.

Declare Scope js_scope.
Delimit Scope js_scope with js.
Notation "x <- m ;; k" := (Browser.bind m (fun x => k))
  (at level 61, m at next level, right associativity) : js_scope.
Notation "m ;; k" := (Browser.bind m (fun _ => k))
  (at level 61, right associativity) : js_scope.

(** ** What both applications share in [createVideo] *)
Module Session.
Import Browser.

Section WithEnv.

Variable env : Env.

(** [await p], where [p] settles no earlier than [ms] from now. *)
Definition await (ms : Z) : M unit :=
  update (fun w =>
    setClock (now w + ms + Z.of_nat (latency env (awaits w))) (S (awaits w)) w).

(** [await new Promise(r => setTimeout(r, ms))] *)
Definition sleep (ms : Z) : M unit :=
  (emit (Timeout ms) ;; await ms)%js.

(** [await new Promise(r => requestAnimationFrame(r))] *)
Definition nextFrame : M unit :=
  (emit AnimationFrame ;; await 0)%js.

(** [setAppState({ status, progress })] *)
Definition setAppState (s : Status) (p : Z) : M unit :=
  update (putAppState (mkAppState s p None)).

(** [setAppState(prev => ({ ...prev, progress }))] *)
Definition setProgress (p : Z) : M unit :=
  update (fun w =>
    putAppState (mkAppState (status (appState w)) p (errorText (appState w))) w).

(** [Math.floor(((i + 1) / total) * 50)]: the quotient is rounded, then
    the product is, so that slide 29 of 50 gives 28 and not 29. *)
Definition progressAt (i total : nat) : Z :=
  Double.floor
    (Double.mul
       (Double.div (Double.ofZ (Z.of_nat (i + 1)))
                   (Double.ofZ (Z.of_nat total)))
       (Double.ofZ 50)).

(** [new AudioContext()] and [createMediaStreamDestination()] *)
Definition newAudioContext : M unit :=
  (emit NewAudioContext ;;
   update (fun w => setContexts (S (openContexts w)) w))%js.

(** [audioCtx.close()] *)
Definition closeAudioContext : M unit :=
  (emit CloseAudioContext ;;
   update (fun w => setContexts (pred (openContexts w)) w))%js.

(** [generateSpeechForText(notes, audioCtx)] for slide [i]: the backend
    call, then [decodeAudioData(audioBytes, audioCtx, 24000, 1)]. *)
Definition generateSpeechForText (i : nat) : M AudioBuffer :=
  (emit (GenerateSpeech i) ;;
   await 0 ;;
   match speech env i with
   | SpeechRejects m => throw (Some m)
   | SpeechBytes audioBytes =>
       match Audio.decodeSpeech audioBytes with
       | Some buffer => ret buffer
       | None => throw (Some "RangeError")
       end
   end)%js.

(** [slidesWithAudio[i].audioBuffer = buffer] *)
Definition withAudio (s : Slide) (buffer : AudioBuffer) : Slide :=
  mkSlide (pageIndex s) (title s) (notes s) (imageUrl s) (Some buffer).

(** [canvasRef.current!] and [canvas.getContext('2d')!], then
    [canvas.captureStream(30)] and [new MediaRecorder(stream, ...)]. *)
Definition prepareRecorder : M unit :=
  (setAppState video_recording 50 ;;
   (if canvasMounted env then ret tt else throw (Some "TypeError")) ;;
   emit CaptureStream ;;
   (if recorderSupported env then emit NewMediaRecorder
    else throw (Some "NotSupportedError")))%js.

(** [recorder.start()] *)
Definition recorderStart : M unit :=
  if recorderStarts env then emit RecorderStart
  else throw (Some "InvalidStateError").

(** [recorder.stop()] and [await recordingPromise] *)
Definition recorderStop : M unit :=
  ((if recorderStops env then emit RecorderStop
    else throw (Some "InvalidStateError")) ;;
   await 0 ;;
   emit BlobAssembled)%js.

(** [useQuota()] with the application's [DAILY_LIMIT]. *)
Definition useQuota (DAILY_LIMIT : Z) : M unit :=
  update (fun w =>
    match localStorage w with
    | Some (_, count) =>
        let newCount := (count + 1)%Z in
        setRemainingQuota (DAILY_LIMIT - newCount)
          (setItem (today env, newCount) w)
    | None => w
    end).

(** [checkQuota()], the effect run when the application mounts. *)
Definition checkQuota (DAILY_LIMIT : Z) : M unit :=
  update (fun w =>
    match localStorage w with
    | Some (date, count) =>
        if String.eqb date (today env)
        then setRemainingQuota (Z.max 0 (DAILY_LIMIT - count)) w
        else setRemainingQuota DAILY_LIMIT (setItem (today env, 0%Z) w)
    | None => setRemainingQuota DAILY_LIMIT (setItem (today env, 0%Z) w)
    end).

(** The lines after [await recordingPromise]. *)
Definition complete (DAILY_LIMIT : Z) : M unit :=
  (useQuota DAILY_LIMIT ;;
   emit CreateObjectURL ;;
   update putVideoUrl ;;
   setAppState completed 100 ;;
   closeAudioContext)%js.

(** The [catch] block. *)
Definition onError (e : option string) : M unit :=
  (emit ConsoleError ;;
   update (putAppState (mkAppState error 0 e)))%js.

End WithEnv.

End Session.

(** ** Content synchronizer of the PDF-only application

    [[
      const finalSlides: Slide[] = [];
      for (let i = 0; i < numPages; i++) {
        const aiSlide = result.slides.find(s => s.pageIndex === i);
        finalSlides.push({
          pageIndex: i,
          title: aiSlide?.title || `ページ ${i + 1}`,
          notes: aiSlide?.notes || "このページの解説を生成できませんでした。",
          imageUrl: images[i]
        });
      }
    ]] *)
Module AppPdf.

Definition defaultNotes : string :=
  "このページの解説を生成できませんでした。".

Definition defaultTitle (i : nat) : string :=
  ("ページ " ++ showNat (i + 1))%string.

Definition findAiSlide (result : list AiSlide) (i : nat) : option AiSlide :=
  find (fun s => Z.eqb (ai_pageIndex s) (Z.of_nat i)) result.

Definition syncSlide (images : list string) (result : list AiSlide)
    (i : nat) : Slide :=
  let aiSlide := findAiSlide result i in
  {| pageIndex := Z.of_nat i;
     title := strOr (option_map ai_title aiSlide) (defaultTitle i);
     notes := strOr (option_map ai_notes aiSlide) defaultNotes;
     imageUrl := nth_error images i;
     audioBuffer := None |}.

(** The [for] loop: [todo] iterations remain, the counter is [i]. *)
Fixpoint syncLoop (images : list string) (result : list AiSlide)
    (todo i : nat) (finalSlides : list Slide) : list Slide :=
  match todo with
  | O => finalSlides
  | S todo' =>
      syncLoop images result todo' (S i)
        (finalSlides ++ [syncSlide images result i])
  end.

Definition finalSlides (images : list string) (numPages : nat)
    (result : list AiSlide) : list Slide :=
  syncLoop images result numPages 0 [].

(** *** [createVideo] of the PDF-only application *)

Import Browser Session.
Local Open Scope js_scope.

Definition DAILY_LIMIT : Z := 3.

Section Video.

Variable env : Env.

(** Bound on the iterations of one [while] loop; a run that needs more
    ends in [Hang]. *)
Variable fuel : nat.

(** The preload loop: speech, then the image, for every slide in turn. *)
Fixpoint preload (todo : list Slide) (i total : nat) (done : list Slide)
    : M (list Slide) :=
  match todo with
  | [] => ret done
  | slide :: rest =>
      buffer <- generateSpeechForText env i ;;
      emit (LoadImage i) ;;
      await env 0 ;;
      (if imageLoads env i then ret tt else throw None) ;;
      setProgress (progressAt i total) ;;
      preload rest (S i) total (done ++ [withAudio slide buffer])
  end.

(** [drawFrame(preloadedImages[i])]: the fill, then [img.width] of an
    image that has to be there. *)
Definition drawFrame (preloaded : list Slide) (i : nat) : M unit :=
  match nth_error preloaded i with
  | Some _ => emit (DrawFrame i)
  | None => throw (Some "TypeError")
  end.

(** The [while (Date.now() < endTime)] loop of slide [i]. *)
Fixpoint redraw (n : nat) (preloaded : list Slide) (i : nat) (startTime : Z)
    (seconds endTime : Q) : M unit :=
  match n with
  | O => hang
  | S n' =>
      t <- dateNow ;;
      if Qlt_bool (inject_Z t) endTime then
        drawFrame preloaded i ;;
        nextFrame env ;;
        sleep env 100 ;;
        t' <- dateNow ;;
        let elapsed := (t' - startTime)%Z in
        if Qlt_bool (seconds * 1000 + 600)%Q (inject_Z elapsed) then ret tt
        else redraw n' preloaded i startTime seconds endTime
      else ret tt
  end.

(** The [for] loop over the slides, from slide [i] on. *)
Fixpoint playSlides (preloaded todo : list Slide) (i : nat) : M unit :=
  match todo with
  | [] => ret tt
  | slide :: rest =>
      match audioBuffer slide with
      | None => throw (Some "TypeError")
      | Some buffer =>
          let seconds := duration buffer in
          startTime <- dateNow ;;
          let endTime := (inject_Z startTime + seconds * 1000 + 600)%Q in
          emit (SourceStart i seconds) ;;
          redraw fuel preloaded i startTime seconds endTime ;;
          playSlides preloaded rest (S i)
      end
  end.

(** The body of the [try] block. *)
Definition record (slides : list Slide) : M unit :=
  setAppState audio_generating 0 ;;
  slidesWithAudio <- preload slides 0 (List.length slides) [] ;;
  prepareRecorder env ;;
  drawFrame slidesWithAudio 0 ;;
  recorderStart env ;;
  sleep env 400 ;;
  drawFrame slidesWithAudio 0 ;;
  playSlides slidesWithAudio slidesWithAudio 0 ;;
  sleep env 500 ;;
  recorderStop env ;;
  complete env DAILY_LIMIT.

Definition createVideo (analysis : option AnalysisResult) : M unit :=
  match analysis with
  | None => ret tt
  | Some a =>
      newAudioContext ;;
      tryCatch (record (slides a)) onError
  end.

End Video.

End AppPdf.

(** ** Content synchronizer of the PDF-and-PowerPoint application

    [[
      const finalSlides = result.slides.map((s, i) => ({
        ...s,
        imageUrl: images[i] || undefined
      }));
    ]] *)
Module AppDoc.

Fixpoint mapi {A B} (f : A -> nat -> B) (i : nat) (l : list A) : list B :=
  match l with
  | [] => []
  | x :: r => f x i :: mapi f (S i) r
  end.

Definition attachImage (images : list string) (s : AiSlide) (i : nat)
    : Slide :=
  {| pageIndex := ai_pageIndex s;
     title := ai_title s;
     notes := ai_notes s;
     imageUrl := strOrUndefined (nth_error images i);
     audioBuffer := None |}.

Definition finalSlides (images : list string) (result : list AiSlide)
    : list Slide :=
  mapi (attachImage images) 0 result.

(** *** [createVideo] of the PDF-and-PowerPoint application *)

Import Browser Session.
Local Open Scope js_scope.

Definition DAILY_LIMIT : Z := 5.

Section Video.

Variable env : Env.

(** Bound on the iterations of one [while] loop; a run that needs more
    ends in [Hang]. *)
Variable fuel : nat.

(** The synthesis loop, with its 2000 ms pause after every slide. *)
Fixpoint synthesize (todo : list Slide) (i total : nat) (done : list Slide)
    : M (list Slide) :=
  match todo with
  | [] => ret done
  | slide :: rest =>
      buffer <- generateSpeechForText env i ;;
      setProgress (progressAt i total) ;;
      sleep env 2000 ;;
      synthesize rest (S i) total (done ++ [withAudio slide buffer])
  end.

(** [drawFrame(slide)]: the fill, then the slide's image if it has one. *)
Definition drawFrame (i : nat) : M unit := emit (DrawFrame i).

(** The [while (Date.now() < endTime)] loop of slide [i]. *)
Fixpoint redraw (n : nat) (i : nat) (endTime : Q) : M unit :=
  match n with
  | O => hang
  | S n' =>
      t <- dateNow ;;
      if Qlt_bool (inject_Z t) endTime then
        drawFrame i ;;
        nextFrame env ;;
        redraw n' i endTime
      else ret tt
  end.

(** The [for] loop over the slides, from slide [i] on. *)
Fixpoint playSlides (todo : list Slide) (i : nat) : M unit :=
  match todo with
  | [] => ret tt
  | slide :: rest =>
      match audioBuffer slide with
      | None => throw (Some "TypeError")
      | Some buffer =>
          let seconds := duration buffer in
          t <- dateNow ;;
          let endTime := (inject_Z t + seconds * 1000 + 300)%Q in
          emit (SourceStart i seconds) ;;
          redraw fuel i endTime ;;
          playSlides rest (S i)
      end
  end.

(** The body of the [try] block. *)
Definition record (slides : list Slide) : M unit :=
  setAppState audio_generating 0 ;;
  slidesWithAudio <- synthesize slides 0 (List.length slides) [] ;;
  prepareRecorder env ;;
  recorderStart env ;;
  playSlides slidesWithAudio 0 ;;
  recorderStop env ;;
  complete env DAILY_LIMIT.

Definition createVideo (analysis : option AnalysisResult) : M unit :=
  match analysis with
  | None => ret tt
  | Some a =>
      newAudioContext ;;
      tryCatch (record (slides a)) onError
  end.

End Video.

End AppDoc.

(** The pages a slide list claims, in order. *)
Definition pageIndices (l : list Slide) : list Z := map pageIndex l.

(** [0; 1; ...; n-1] as JavaScript numbers. *)
Definition zrange (n : nat) : list Z := map Z.of_nat (seq 0 n).

(** * Vocabulary of the statements *)

(** A narration record whose page exists among [n] extracted pages. *)
Definition inRange (n : nat) (s : AiSlide) : bool :=
  (0 <=? ai_pageIndex s)%Z && (ai_pageIndex s <? Z.of_nat n)%Z.

(** Two extracted pages, and a response with a duplicate and a page that
    does not exist; the response is already ordered by page index. *)
Definition twoPages : list string :=
  ["data:image/jpeg;base64,page0"; "data:image/jpeg;base64,page1"].

Definition strayResponse : list AiSlide :=
  [ mkAiSlide 0 "Intro" "Welcome.";
    mkAiSlide 0 "Intro again" "Welcome back.";
    mkAiSlide 5 "Appendix" "Not a page of this document." ].

(** A response that leaves page 1 out and has no narration for page 0. *)
Definition sparseResponse : list AiSlide :=
  [ mkAiSlide 0 "Intro" "" ].

(** ** Audio *)

Definition isInt16 (v : Z) : Prop := (-32768 <= v <= 32767)%Z.

(** The normalized floating range. *)
Definition normalized (x : Q) : Prop := (-1 <= x /\ x <= 1)%Q.

(** Two samples: the most negative one and the most positive one. *)
Definition extremeSamples : list Byte.byte :=
  [Byte.x00; Byte.x80; Byte.xff; Byte.x7f].

(** ** The PowerPoint extractor *)

(** The slide number of a path, as the comparator reads it. *)
Definition numberOf (path : string) : N :=
  match PptxParser.slideNumber path with
  | Some n => n
  | None => 0%N
  end.

Definition byNumber (a b : string) : Prop := (numberOf a <= numberOf b)%N.

Definition hasDigits (path : string) : Prop :=
  PptxParser.matchDigits path <> None.

Definition xmlEntry (t : string) : PptxParser.ZipEntry :=
  PptxParser.mkZipEntry t EmptyString.

(** Slides 1, 9 and 10, listed the way an archive sorted by name lists
    them: 1, 10, 9. *)
Definition deck_1_10_9 : PptxParser.Zip :=
  [ ("[Content_Types].xml", xmlEntry "<Types/>");
    ("ppt/slides/slide1.xml", xmlEntry "<a:t>one</a:t>");
    ("ppt/slides/slide10.xml", xmlEntry "<a:t>ten</a:t>");
    ("ppt/slides/slide9.xml", xmlEntry "<a:t>nine</a:t>") ].

(** Slides 2, 5 and 9, with speaker notes for slides 5 and 9. *)
Definition deck_2_5_9 : PptxParser.Zip :=
  [ ("ppt/notesSlides/notesSlide5.xml", xmlEntry "<a:t>about five</a:t>");
    ("ppt/notesSlides/notesSlide9.xml", xmlEntry "<a:t>about nine</a:t>");
    ("ppt/slides/slide9.xml", xmlEntry "<a:t>nine</a:t>");
    ("ppt/slides/slide2.xml", xmlEntry "<a:t>two</a:t>");
    ("ppt/slides/slide5.xml", xmlEntry "<a:t>five</a:t>") ].

(** ** The retry wrapper *)











(** ** Runs of [createVideo] *)

(** A relation between the world before, the world after and the trace
    of a computation. *)
Definition Rel := Browser.World -> Browser.World -> Browser.Trace -> Prop.

(** [R] holds of doing nothing and of doing two things in a row. *)
Definition Stable (R : Rel) : Prop :=
  (forall w, R w w [])
  /\ (forall w1 w2 w3 t1 t2,
        R w1 w2 t1 -> R w2 w3 t2 -> R w1 w3 (t1 ++ t2)).

(** [R] holds of [m], however [m] ends. *)
Definition Always {A} (R : Rel) (m : Browser.M A) : Prop :=
  forall w, R w (Browser.final (m w)) (Browser.trace (m w)).

(** [m] returns only values that [P] accepts. *)
Definition Yields {A} (P : A -> Prop) (m : Browser.M A) : Prop :=
  forall w a, Browser.result (m w) = Browser.Ok a -> P a.

(** The computation leaves local storage and the audio contexts alone,
    does not turn the clock back, and emits only events that [P]
    accepts. *)
Definition Quiet (P : Browser.Event -> bool) : Rel :=
  fun w w' t =>
    Browser.localStorage w' = Browser.localStorage w
    /\ Browser.openContexts w' = Browser.openContexts w
    /\ (Browser.now w <= Browser.now w')%Z
    /\ Forall (fun te => P (snd te) = true) t.

(** The computation emits only events that [P] accepts. *)
Definition Emits (P : Browser.Event -> bool) : Rel :=
  fun _ _ t => Forall (fun te => P (snd te) = true) t.

(** Events of the preparation: synthesis, image loading, recorder set-up. *)
Definition prepEvent (e : Browser.Event) : bool :=
  match e with
  | Browser.GenerateSpeech _ | Browser.LoadImage _ | Browser.Timeout _
  | Browser.CaptureStream | Browser.NewMediaRecorder => true
  | _ => false
  end.

(** Events of the playback loop. *)
Definition playEvent (e : Browser.Event) : bool :=
  match e with
  | Browser.SourceStart _ _ | Browser.DrawFrame _ | Browser.AnimationFrame
  | Browser.Timeout _ => true
  | _ => false
  end.

Definition notRecorderStart (e : Browser.Event) : bool :=
  match e with
  | Browser.RecorderStart => false
  | _ => true
  end.

(** Neither the assembled blob nor the release of the audio context. *)
Definition notFinishing (e : Browser.Event) : bool :=
  match e with
  | Browser.BlobAssembled | Browser.CloseAudioContext => false
  | _ => true
  end.

(** Neither an audio start nor the end of the recording. *)
Definition notStartOrStop (e : Browser.Event) : bool :=
  match e with
  | Browser.SourceStart _ _ | Browser.RecorderStop => false
  | _ => true
  end.

(** The stored counter one higher, under today's date: what [useQuota]
    writes. *)
Definition consumed (env : Browser.Env) (s : option (string * Z))
    : option (string * Z) :=
  match s with
  | Some (_, count) => Some (Browser.today env, (count + 1)%Z)
  | None => None
  end.

Definition assembled (x : Browser.Res unit * Browser.World * Browser.Trace)
    : Prop :=
  In Browser.BlobAssembled (Browser.events (Browser.trace x)).

Definition closed (x : Browser.Res unit * Browser.World * Browser.Trace)
    : Prop :=
  In Browser.CloseAudioContext (Browser.events (Browser.trace x)).

(** How the body of the [try] block, started in [w0], stands with the
    quota and the audio context when it ends as [x]. *)
Definition Settled (env : Browser.Env) (w0 : Browser.World)
    (x : Browser.Res unit * Browser.World * Browser.Trace) : Prop :=
  match Browser.result x with
  | Browser.Ok _ =>
      assembled x /\ closed x
      /\ Browser.localStorage (Browser.final x)
         = consumed env (Browser.localStorage w0)
      /\ Browser.openContexts (Browser.final x)
         = pred (Browser.openContexts w0)
      /\ Browser.status (Browser.appState (Browser.final x))
         = Browser.completed
  | _ =>
      ~ assembled x /\ ~ closed x
      /\ Browser.localStorage (Browser.final x) = Browser.localStorage w0
      /\ Browser.openContexts (Browser.final x) = Browser.openContexts w0
  end.

(** How a whole [createVideo], started in [w0], ends: either the blob
    was assembled, the quota is consumed and the audio context is closed,
    or none of the three happened. *)
Definition Finished (env : Browser.Env) (w0 : Browser.World)
    (x : Browser.Res unit * Browser.World * Browser.Trace) : Prop :=
  (assembled x /\ closed x
   /\ Browser.result x = Browser.Ok tt
   /\ Browser.localStorage (Browser.final x)
      = consumed env (Browser.localStorage w0)
   /\ Browser.openContexts (Browser.final x) = Browser.openContexts w0
   /\ Browser.status (Browser.appState (Browser.final x))
      = Browser.completed)
  \/
  (~ assembled x /\ ~ closed x
   /\ (Browser.result x = Browser.Hang
       \/ Browser.result x = Browser.Ok tt
          /\ Browser.status (Browser.appState (Browser.final x))
             = Browser.error)
   /\ Browser.localStorage (Browser.final x) = Browser.localStorage w0
   /\ Browser.openContexts (Browser.final x)
      = S (Browser.openContexts w0)).

(** Capture starts on a canvas that shows the first slide, and the first
    slide is drawn again once [settle] milliseconds have been waited
    for. *)
Definition FirstFrameGuarded (settle : Z) (evs : list Browser.Event) : Prop :=
  forall pre post,
    evs = pre ++ Browser.RecorderStart :: post ->
    In (Browser.DrawFrame 0) pre
    /\ exists post',
         post = Browser.Timeout settle :: Browser.DrawFrame 0 :: post'.

(** *** Windows *)

(** The deadline of a slide whose audio of [seconds] starts at [t]. *)
Definition deadline (pad : Q) (t : Z) (seconds : Q) : Q :=
  (inject_Z t + seconds * 1000 + pad)%Q.

Definition startsOrStops (e : Browser.Event) : Prop :=
  match e with
  | Browser.SourceStart _ _ | Browser.RecorderStop => True
  | _ => False
  end.

(** Once a slide's audio has started, neither another audio start nor
    the end of the recording comes before that slide's deadline. *)
Definition NonOverlapping (pad : Q) (tr : Browser.Trace) : Prop :=
  forall a b c t1 i1 d1 t2 e2,
    tr = a ++ (t1, Browser.SourceStart i1 d1) :: b ++ (t2, e2) :: c ->
    startsOrStops e2 ->
    (deadline pad t1 d1 <= inject_Z t2)%Q.

Definition noStart (b : Browser.Trace) : Prop :=
  forall t i d, ~ In (t, Browser.SourceStart i d) b.

(** A frame drawn after a slide's audio has started and before the next
    audio starts is a frame of that slide, drawn before its deadline. *)
Definition DrawsInWindow (pad : Q) (tr : Browser.Trace) : Prop :=
  forall a b c t1 i1 d1 t i,
    tr = a ++ (t1, Browser.SourceStart i1 d1)
           :: b ++ (t, Browser.DrawFrame i) :: c ->
    noStart b ->
    i = i1 /\ (inject_Z t < deadline pad t1 d1)%Q.

(** [seconds] is the duration of the speech decoded for slide [i]. *)
Definition narration (env : Browser.Env) (i : nat) (seconds : Q) : Prop :=
  exists audioBytes buffer,
    Browser.speech env i = Browser.SpeechBytes audioBytes
    /\ Audio.decodeSpeech audioBytes = Some buffer
    /\ seconds = duration buffer.

(** Every audio source that starts plays the narration of its slide. *)
Definition NarrationWindows (env : Browser.Env) (tr : Browser.Trace) : Prop :=
  forall t i d, In (t, Browser.SourceStart i d) tr -> narration env i d.

(** Reading a trace from the left with the slide being shown and its
    deadline, [cur]: an audio start or the end of the recording comes at
    or after the deadline, a frame is drawn before it. *)
Fixpoint timed (ok : nat -> Q -> Prop) (pad : Q) (cur : option (nat * Q))
    (tr : Browser.Trace) : Prop :=
  match tr with
  | [] => True
  | (t, e) :: r =>
      match e with
      | Browser.SourceStart i d =>
          ok i d /\ (0 <= d)%Q
          /\ match cur with
             | Some (_, dl) => (dl <= inject_Z t)%Q
             | None => True
             end
          /\ timed ok pad (Some (i, deadline pad t d)) r
      | Browser.RecorderStop =>
          match cur with
          | Some (_, dl) => (dl <= inject_Z t)%Q
          | None => True
          end
          /\ timed ok pad cur r
      | Browser.DrawFrame k =>
          match cur with
          | Some (i, dl) => k = i /\ (inject_Z t < dl)%Q
          | None => True
          end
          /\ timed ok pad cur r
      | _ => timed ok pad cur r
      end
  end.

(** The slide being shown once the trace has been read. *)
Fixpoint scan (pad : Q) (cur : option (nat * Q)) (tr : Browser.Trace)
    : option (nat * Q) :=
  match tr with
  | [] => cur
  | (t, Browser.SourceStart i d) :: r =>
      scan pad (Some (i, deadline pad t d)) r
  | _ :: r => scan pad cur r
  end.

(** The deadline of [cur] has passed in [w]. *)
Definition due (cur : option (nat * Q)) (w : Browser.World) : Prop :=
  match cur with
  | Some (_, dl) => (dl <= inject_Z (Browser.now w))%Q
  | None => True
  end.

(** Every slide of [l] has an audio buffer whose duration [ok] accepts
    for the slide's position, counted from [i]. *)
Definition ready (ok : nat -> Q -> Prop) (i : nat) (l : list Slide) : Prop :=
  forall k s, nth_error l k = Some s ->
    exists buffer,
      audioBuffer s = Some buffer /\ ok (i + k)%nat (duration buffer).

(** Every slide of [l] has the narration of its position as its audio. *)
Definition narrated (env : Browser.Env) (l : list Slide) : Prop :=
  ready (narration env) 0 l.

(** The trace of [x] reads well from before the first slide. *)
Definition reads (env : Browser.Env) (pad : Q) (_ : Browser.World)
    (x : Browser.Res unit * Browser.World * Browser.Trace) : Prop :=
  timed (narration env) pad None (Browser.trace x).

(** Order of the numbered paths. *)
Definition leSnd (a b : string * N) : Prop := (snd a <= snd b)%N.

(** Nothing has been drawn when capture starts. *)
Definition BlankStart (evs : list Browser.Event) : Prop :=
  forall pre post,
    evs = pre ++ Browser.RecorderStart :: post ->
    forall i, ~ In (Browser.DrawFrame i) pre.

(** The run came back in the error state and left one audio context
    open, without ever calling [close]. *)
Definition LeftOpen (x : Browser.Res unit * Browser.World * Browser.Trace)
    : Prop :=
  Browser.result x = Browser.Ok tt
  /\ Browser.status (Browser.appState (Browser.final x)) = Browser.error
  /\ Browser.openContexts (Browser.final x) = 1%nat
  /\ ~ closed x.

(** *** Sample runs *)

(** One sample of speech. *)
Definition shortSpeech : list Byte.byte := [Byte.x00; Byte.x40].

(** Every await takes 100 ms more than it has to; nothing fails. *)
Definition smoothEnv : Browser.Env :=
  Browser.mkEnv "2024-05-01" (fun _ => 100%nat)
    (fun _ => Browser.SpeechBytes shortSpeech) (fun _ => true)
    true true true true.

(** The same, but the speech backend rejects every request. *)
Definition deafEnv : Browser.Env :=
  Browser.mkEnv "2024-05-01" (fun _ => 100%nat)
    (fun _ => Browser.SpeechRejects "429 quota") (fun _ => true)
    true true true true.

(** The same as [smoothEnv], but [recorder.stop()] throws. *)
Definition stuckEnv : Browser.Env :=
  Browser.mkEnv "2024-05-01" (fun _ => 100%nat)
    (fun _ => Browser.SpeechBytes shortSpeech) (fun _ => true)
    true true true false.

Definition oneSlide : AnalysisResult :=
  mkAnalysisResult "Deck" "A deck of one page."
    [ mkSlide 0 "Intro" "Welcome."
        (Some "data:image/jpeg;base64,page0") None ].

Definition twoSlides : AnalysisResult :=
  mkAnalysisResult "Deck" "A deck of two pages."
    [ mkSlide 0 "Intro" "Welcome."
        (Some "data:image/jpeg;base64,page0") None;
      mkSlide 1 "End" "Goodbye."
        (Some "data:image/jpeg;base64,page1") None ].

(** The audio starts of a trace: time, slide, seconds. *)
Definition starts (tr : Browser.Trace) : list (Z * nat * Q) :=
  flat_map (fun te =>
              match snd te with
              | Browser.SourceStart i d => [(fst te, i, d)]
              | _ => []
              end) tr.

(** One video made today already; no audio context open. *)
Definition freshWorld : Browser.World :=
  Browser.mkWorld 0 0 (Some ("2024-05-01", 1%Z)) 2
    (Browser.mkAppState Browser.reviewing 70 None) false 0.

(** *** Windows, one after the other *)

(** Milliseconds as a rational. *)
Definition ms (n : nat) : Q := inject_Z (Z.of_nat n).

(** The slides whose audio a trace starts, in the order of the trace. *)
Definition startedSlides (tr : Browser.Trace) : list nat :=
  map (fun s => snd (fst s)) (starts tr).

(** The audio of slides 0, 1, ... is started in this order, for [n]
    slides at most, and for all [n] of them in a run that assembles the
    blob. *)
Definition PlaysInOrder (n : nat)
    (x : Browser.Res unit * Browser.World * Browser.Trace) : Prop :=
  exists k, (k <= n)%nat
    /\ startedSlides (Browser.trace x) = seq 0 k
    /\ (assembled x -> k = n).

(** The window of a slide is over soon after its deadline: the next
    audio start comes less than [slack] ms after it, and the end of the
    recording, when no other audio starts before, less than
    [slack + tail] ms after it. *)
Definition Prompt (pad slack tail : Q) (tr : Browser.Trace) : Prop :=
  forall a b c t1 i1 d1 t2 e2,
    tr = a ++ (t1, Browser.SourceStart i1 d1) :: b ++ (t2, e2) :: c ->
    noStart b ->
    match e2 with
    | Browser.SourceStart _ _ =>
        (inject_Z t2 < deadline pad t1 d1 + slack)%Q
    | Browser.RecorderStop =>
        (inject_Z t2 < deadline pad t1 d1 + slack + tail)%Q
    | _ => True
    end.

(** Reading a trace from the left with the slide being shown and its
    deadline, [cur]: an audio start comes less than [slack] ms after the
    deadline, the end of the recording less than [slack + tail] ms after
    it. *)
Fixpoint paced (pad slack tail : Q) (cur : option (nat * Q))
    (tr : Browser.Trace) : Prop :=
  match tr with
  | [] => True
  | (t, e) :: r =>
      match e with
      | Browser.SourceStart i d =>
          match cur with
          | Some (_, dl) => (inject_Z t < dl + slack)%Q
          | None => True
          end
          /\ paced pad slack tail (Some (i, deadline pad t d)) r
      | Browser.RecorderStop =>
          match cur with
          | Some (_, dl) => (inject_Z t < dl + slack + tail)%Q
          | None => True
          end
          /\ paced pad slack tail cur r
      | _ => paced pad slack tail cur r
      end
  end.

(** The deadline of [cur] is less than [slack] ms ago in [w]. *)
Definition soon (slack : Q) (cur : option (nat * Q)) (w : Browser.World)
    : Prop :=
  match cur with
  | Some (_, dl) => (inject_Z (Browser.now w) < dl + slack)%Q
  | None => True
  end.

(** The trace of [x] is paced from before the first slide. *)
Definition keepsPace (pad slack tail : Q) (_ : Browser.World)
    (x : Browser.Res unit * Browser.World * Browser.Trace) : Prop :=
  paced pad slack tail None (Browser.trace x).

(** The audio starts of [x] are those of slides 0 to [k - 1] for some
    [k <= n], and of all [n] slides when [x] returns. *)
Definition startsInOrder (n : nat) (_ : Browser.World)
    (x : Browser.Res unit * Browser.World * Browser.Trace) : Prop :=
  exists k, (k <= n)%nat
    /\ startedSlides (Browser.trace x) = seq 0 k
    /\ (Browser.result x = Browser.Ok tt -> k = n).

(** Nothing outside the program fails while the first [n] slides are
    made into a video: the backend sends speech that decodes for each of
    them, the canvas is mounted, and the recorder is created, starts and
    stops. *)
Definition Cooperative (env : Browser.Env) (n : nat) : Prop :=
  (forall i, (i < n)%nat ->
     exists audioBytes buffer,
       Browser.speech env i = Browser.SpeechBytes audioBytes
       /\ Audio.decodeSpeech audioBytes = Some buffer)
  /\ Browser.canvasMounted env = true
  /\ Browser.recorderSupported env = true
  /\ Browser.recorderStarts env = true
  /\ Browser.recorderStops env = true.

(** [rounds] rounds of [step] ms each are enough for the window of any
    of the first [n] slides. *)
Definition Covers (env : Browser.Env) (pad step : Q) (n rounds : nat)
    : Prop :=
  forall i d, (i < n)%nat -> narration env i d ->
    (d * 1000 + pad <= step * ms rounds)%Q.


(** Every audio start is followed at once, before any await, by a frame
    of its slide. *)
Definition DrawsAtStart (tr : Browser.Trace) : Prop :=
  forall a c t i d,
    tr = a ++ (t, Browser.SourceStart i d) :: c ->
    exists c', c = (t, Browser.DrawFrame i) :: c'.

(** Reading a trace from the left: what follows an audio start is a
    frame of the same slide at the same time. *)
Fixpoint shown (tr : Browser.Trace) : Prop :=
  match tr with
  | [] => True
  | (t, e) :: r =>
      match e with
      | Browser.SourceStart i _ =>
          match r with
          | (t', Browser.DrawFrame k) :: _ => t' = t /\ k = i
          | _ => False
          end
          /\ shown r
      | _ => shown r
      end
  end.

(** The trace of [x] shows every slide it starts. *)
Definition showsSlides (_ : Browser.World)
    (x : Browser.Res unit * Browser.World * Browser.Trace) : Prop :=
  shown (Browser.trace x).

(** * Properties *)

(** ** The content synchronizer *)


Lemma syncLoop_map images result todo : forall i acc,
  AppPdf.syncLoop images result todo i acc
  = acc ++ map (AppPdf.syncSlide images result) (seq i todo).
Proof.
  induction todo as [|todo IH]; intros i acc; simpl.
  - now rewrite app_nil_r.
  - rewrite IH, <- app_assoc. reflexivity.
Qed.

Lemma pdf_finalSlides_map images n result :
  AppPdf.finalSlides images n result
  = map (AppPdf.syncSlide images result) (seq 0 n).
Proof. unfold AppPdf.finalSlides. now rewrite syncLoop_map. Qed.

Lemma zrange_NoDup n : NoDup (zrange n).
Proof.
  unfold zrange. apply Finite.Injective_map_NoDup.
  - intros a b H. now apply Nat2Z.inj.
  - apply seq_NoDup.
Qed.

(** The PDF-only synchronizer yields exactly one slide per extracted page,
    numbered [0 .. n-1] without repetition, whatever the response holds. *)
Lemma pdf_sync_reindexes images n result :
  List.length (AppPdf.finalSlides images n result) = n
  /\ pageIndices (AppPdf.finalSlides images n result) = zrange n
  /\ NoDup (pageIndices (AppPdf.finalSlides images n result)).
Proof.
  rewrite pdf_finalSlides_map. unfold pageIndices, zrange.
  rewrite length_map, length_seq, map_map. simpl.
  repeat split.
  apply (zrange_NoDup n).
Qed.

Lemma find_filter_inRange n result k :
  (k < n)%nat ->
  AppPdf.findAiSlide (filter (inRange n) result) k
  = AppPdf.findAiSlide result k.
Proof.
  intros Hk. unfold AppPdf.findAiSlide.
  induction result as [|s r IH]; simpl; [reflexivity|].
  destruct (inRange n s) eqn:Hin; simpl.
  - destruct (ai_pageIndex s =? Z.of_nat k)%Z; [reflexivity | exact IH].
  - destruct (ai_pageIndex s =? Z.of_nat k)%Z eqn:He; [|exact IH].
    apply Z.eqb_eq in He. unfold inRange in Hin. rewrite He in Hin.
    apply andb_false_iff in Hin.
    destruct Hin as [H|H]; [apply Z.leb_gt in H | apply Z.ltb_ge in H]; lia.
Qed.

(** Records outside [[0, n)] are dropped by the PDF-only synchronizer:
    the output is the one the in-range records alone would give. *)
Lemma pdf_sync_drops_out_of_range images n result :
  AppPdf.finalSlides images n result
  = AppPdf.finalSlides images n (filter (inRange n) result).
Proof.
  rewrite !pdf_finalSlides_map. apply map_ext_in.
  intros k Hk. apply in_seq in Hk. unfold AppPdf.syncSlide.
  rewrite find_filter_inRange by lia. reflexivity.
Qed.

(** Slide [k] of the PDF-only synchronizer is built from the first record
    that claims page [k], and from nothing else of the response. *)
Lemma pdf_sync_slide_at images n result k :
  (k < n)%nat ->
  nth_error (AppPdf.finalSlides images n result) k
  = Some (AppPdf.syncSlide images result k).
Proof.
  intros Hk. rewrite pdf_finalSlides_map.
  rewrite nth_error_map, nth_error_nth' with (d := 0%nat)
    by (rewrite length_seq; lia).
  rewrite seq_nth by lia. reflexivity.
Qed.

Lemma strOr_nonEmpty s d : nonEmpty d = true -> nonEmpty (strOr s d) = true.
Proof. intros Hd. destruct s as [[|c r]|]; simpl; auto. Qed.

(** The PDF-only synchronizer never leaves a title or a narration empty,
    and a page the response omits gets both placeholders. *)
Lemma pdf_sync_placeholders images n result :
  Forall (fun s => nonEmpty (title s) = true /\ nonEmpty (notes s) = true)
         (AppPdf.finalSlides images n result)
  /\ forall k, (k < n)%nat -> AppPdf.findAiSlide result k = None ->
       exists s, nth_error (AppPdf.finalSlides images n result) k = Some s
         /\ title s = AppPdf.defaultTitle k
         /\ notes s = AppPdf.defaultNotes.
Proof.
  split.
  - rewrite pdf_finalSlides_map. apply Forall_map, Forall_forall.
    intros k _. unfold AppPdf.syncSlide; simpl.
    split; apply strOr_nonEmpty; reflexivity.
  - intros k Hk Hnone. eexists. split; [now apply pdf_sync_slide_at|].
    unfold AppPdf.syncSlide. rewrite Hnone. simpl. split; reflexivity.
Qed.

(** C1. The synchronizer of the PDF-and-PowerPoint application maps over
    the response instead of over the pages: with two extracted pages and
    the response [strayResponse] it yields three slides whose page
    indices are 0, 0 and 5, so the list is neither of length 2 nor
    numbered 0, 1, and the record for the missing page 5 is in it. *)
Theorem doc_sync_trusts_response :
  let out := AppDoc.finalSlides twoPages strayResponse in
  List.length twoPages = 2%nat
  /\ List.length out = 3%nat
  /\ pageIndices out = [0; 0; 5]%Z
  /\ pageIndices out <> zrange (List.length twoPages)
  /\ ~ NoDup (pageIndices out)
  /\ exists s, In s out /\ pageIndex s = 5%Z.
Proof.
  cbv zeta. repeat split; try reflexivity.
  - discriminate.
  - intros H. inversion H as [|x l Hx _]; subst. apply Hx. now left.
  - eexists. split; [right; right; left; reflexivity | reflexivity].
Qed.

(** C2. The synchronizer of the PDF-and-PowerPoint application has no
    placeholder: with two extracted pages and the response
    [sparseResponse] there is no slide at position 1 at all, and the
    slide at position 0 keeps its empty narration. *)
Theorem doc_sync_has_no_placeholder :
  let out := AppDoc.finalSlides twoPages sparseResponse in
  AppPdf.findAiSlide sparseResponse 1 = None
  /\ nth_error out 1 = None
  /\ option_map notes (nth_error out 0) = Some EmptyString
  /\ ~ Forall (fun s => nonEmpty (notes s) = true) out.
Proof.
  cbv zeta. repeat split; try reflexivity.
  intros H. inversion H as [|x l Hx _]; subst. discriminate Hx.
Qed.

(** ** Audio decoding *)

Lemma int16_range lo hi : isInt16 (Audio.int16 lo hi).
Proof.
  unfold isInt16, Audio.int16.
  pose proof (Byte.to_N_bounded lo). pose proof (Byte.to_N_bounded hi).
  cbv zeta. destruct (Z.ltb_spec
    (Z.of_N (Byte.to_N lo) + 256 * Z.of_N (Byte.to_N hi)) 32768); lia.
Qed.

(** [Int16Array] pairs the bytes up, low byte first; it fails exactly on
    an odd number of bytes. *)
Lemma Int16Array_pairs : forall n data,
  (List.length data <= n)%nat ->
  match Audio.Int16Array data with
  | Some l =>
      List.length data = (2 * List.length l)%nat
      /\ Forall isInt16 l
      /\ forall i, (i < List.length l)%nat ->
           nth i l 0%Z = Audio.int16 (nth (2 * i) data Byte.x00)
                                     (nth (2 * i + 1) data Byte.x00)
  | None => Nat.odd (List.length data) = true
  end.
Proof.
  induction n as [|n IH]; intros data Hn.
  - destruct data; [|simpl in Hn; lia]. simpl.
    repeat split; [constructor | intros i Hi; lia].
  - destruct data as [|lo [|hi rest]].
    + simpl. repeat split; [constructor | intros i Hi; lia].
    + reflexivity.
    + specialize (IH rest). cbn [List.length] in Hn.
      cbn [Audio.Int16Array].
      destruct (Audio.Int16Array rest) as [l|].
      * destruct IH as (Hlen & Hall & Hnth); [lia|].
        split; [cbn [List.length]; lia|].
        split; [constructor; [apply int16_range | exact Hall]|].
        intros i Hi. destruct i as [|i]; [reflexivity|].
        cbn [List.length] in Hi.
        replace (2 * S i)%nat with (S (S (2 * i))) by lia.
        cbn [nth Nat.add]. apply Hnth. lia.
      * cbn [List.length]. rewrite Nat.odd_succ, Nat.even_succ.
        apply IH. lia.
Qed.

Lemma map_nth_seq {A} (l : list A) (d : A) :
  map (fun i => nth i l d) (seq 0 (List.length l)) = l.
Proof.
  induction l as [|x l IH]; [reflexivity|].
  simpl. f_equal. rewrite <- seq_shift, map_map. exact IH.
Qed.

Lemma int16_normalized v :
  isInt16 v -> normalized (inject_Z v / inject_Z 32768).
Proof.
  unfold isInt16, normalized, Qle, Qdiv, Qmult, Qinv. simpl. lia.
Qed.

(** Speech that decodes at all has an even, non-zero number of bytes;
    and every such payload decodes. *)
Lemma decodeSpeech_total audioBytes :
  (exists buffer, Audio.decodeSpeech audioBytes = Some buffer)
  <-> Nat.even (List.length audioBytes) = true /\ audioBytes <> [].
Proof.
  unfold Audio.decodeSpeech, Audio.decodeAudioData.
  pose proof (Int16Array_pairs _ audioBytes (le_n _)) as H.
  destruct (Audio.Int16Array audioBytes) as [l|].
  - destruct H as (Hlen & _ & _). rewrite Nat.div_1_r.
    unfold Audio.createBuffer. simpl.
    destruct l as [|v l]; simpl.
    + split; [intros [b Hb]; discriminate|].
      intros [_ Hne]. destruct audioBytes; [congruence | discriminate].
    + split; [|intros _; eexists; reflexivity].
      intros _. split.
      * rewrite Hlen. apply Nat.even_spec. exists (S (List.length l)). reflexivity.
      * intros ->. discriminate.
  - split; [intros [b Hb]; discriminate|].
    intros [He _]. rewrite <- Nat.negb_odd, H in He. discriminate.
Qed.

(** C9. Whatever bytes the speech backend sent, a buffer that
    [generateSpeechForText] decodes from them is 24 kHz mono; its samples
    are the little-endian signed 16-bit integers of the payload, each
    divided by 32768, and so each lies in [[-1, 1]]. *)
Theorem decodeSpeech_pcm16_normalized audioBytes buffer :
  Audio.decodeSpeech audioBytes = Some buffer ->
  sampleRate buffer = 24000%Z
  /\ numberOfChannels buffer = 1%nat
  /\ exists dataInt16,
       Audio.Int16Array audioBytes = Some dataInt16
       /\ List.length audioBytes = (2 * List.length dataInt16)%nat
       /\ (forall i, (i < List.length dataInt16)%nat ->
             nth i dataInt16 0%Z
             = Audio.int16 (nth (2 * i) audioBytes Byte.x00)
                           (nth (2 * i + 1) audioBytes Byte.x00))
       /\ Forall isInt16 dataInt16
       /\ bufLength buffer = List.length dataInt16
       /\ channels buffer
          = [map (fun v => (inject_Z v / inject_Z 32768)%Q) dataInt16]
       /\ Forall normalized (List.concat (channels buffer)).
Proof.
  unfold Audio.decodeSpeech, Audio.decodeAudioData. intros H.
  pose proof (Int16Array_pairs _ audioBytes (le_n _)) as Hp.
  destruct (Audio.Int16Array audioBytes) as [l|]; [|discriminate].
  destruct Hp as (Hlen & Hall & Hnth).
  rewrite Nat.div_1_r in H. unfold Audio.createBuffer in H.
  destruct ((1 =? 0)%nat || (List.length l =? 0)%nat || (24000 <=? 0)%Z);
    [discriminate|].
  injection H as <-. simpl.
  assert (Hch : Audio.fillChannel l 1 (List.length l) 0
                = map (fun v => (inject_Z v / inject_Z 32768)%Q) l).
  { unfold Audio.fillChannel, Audio.sample.
    transitivity (map (fun v => (inject_Z v / inject_Z 32768)%Q)
                      (map (fun i => nth i l 0%Z) (seq 0 (List.length l)))).
    - rewrite map_map. apply map_ext. intros i.
      now rewrite Nat.mul_1_r, Nat.add_0_r.
    - now rewrite map_nth_seq. }
  repeat split. exists l. rewrite Hch. repeat split; auto.
  simpl. rewrite app_nil_r. apply Forall_map.
  eapply Forall_impl; [|exact Hall]. intros v Hv.
  apply (int16_normalized v Hv).
Qed.

Lemma decodeSpeech_pcm16_normalized_witness :
  exists buffer,
    Audio.decodeSpeech extremeSamples = Some buffer
    /\ channels buffer = [[(-32768 # 32768)%Q; (32767 # 32768)%Q]]
    /\ Forall normalized (List.concat (channels buffer)).
Proof.
  eexists. split; [reflexivity|]. split; [reflexivity|].
  destruct (decodeSpeech_pcm16_normalized extremeSamples _ eq_refl)
    as (_ & _ & l & _ & _ & _ & _ & _ & _ & H).
  exact H.
Defined.

(** ** The PowerPoint extractor *)

Section Sorting.

Lemma insertByNumber_perm x l :
  Permutation (PptxParser.insertByNumber x l) (x :: l).
Proof.
  induction l as [|y r IH]; simpl; [reflexivity|].
  destruct (snd x <=? snd y)%N; [reflexivity|].
  rewrite IH. apply perm_swap.
Qed.

Lemma insertByNumber_sorted x l :
  StronglySorted leSnd l ->
  StronglySorted leSnd (PptxParser.insertByNumber x l).
Proof.
  induction 1 as [|y r Hr IH Hy]; simpl.
  - repeat constructor.
  - destruct (N.leb_spec (snd x) (snd y)) as [Hle|Hgt].
    + constructor; [constructor; assumption|].
      constructor; [exact Hle|].
      eapply Forall_impl; [|exact Hy]. unfold leSnd. intros z Hz. lia.
    + constructor; [exact IH|].
      rewrite (insertByNumber_perm x r).
      constructor; [unfold leSnd; lia | exact Hy].
Qed.

Lemma sortByNumber_perm l : Permutation (PptxParser.sortByNumber l) l.
Proof.
  induction l as [|x r IH]; simpl; [reflexivity|].
  rewrite insertByNumber_perm. now constructor.
Qed.

Lemma sortByNumber_sorted l :
  StronglySorted leSnd (PptxParser.sortByNumber l).
Proof.
  induction l as [|x r IH]; simpl; [constructor|].
  now apply insertByNumber_sorted.
Qed.

Lemma sorted_map_fst l :
  Forall (fun pn => PptxParser.slideNumber (fst pn) = Some (snd pn)) l ->
  StronglySorted leSnd l ->
  StronglySorted byNumber (map fst l).
Proof.
  intros Hnum Hs. induction Hs as [|y r Hr IH Hy]; simpl; [constructor|].
  inversion Hnum as [|? ? Hy0 Hr0]; subst.
  constructor; [now apply IH|].
  apply Forall_map. rewrite Forall_forall in *.
  intros z Hz. unfold byNumber, numberOf.
  rewrite Hy0, (Hr0 z Hz). exact (Hy z Hz).
Qed.

End Sorting.

Lemma numbered_spec paths : forall l,
  PptxParser.numbered paths = Some l ->
  map fst l = paths
  /\ Forall (fun pn => PptxParser.slideNumber (fst pn) = Some (snd pn)) l.
Proof.
  induction paths as [|p r IH]; simpl; intros l H.
  - injection H as <-. split; constructor.
  - destruct (PptxParser.slideNumber p) as [n|] eqn:Hn; [|discriminate].
    destruct (PptxParser.numbered r) as [l'|]; [|discriminate].
    injection H as <-. destruct (IH l' eq_refl) as [Hm Hf].
    simpl. split; [now rewrite Hm | now constructor].
Qed.

Lemma numbered_total paths :
  Forall hasDigits paths <-> exists l, PptxParser.numbered paths = Some l.
Proof.
  unfold hasDigits. induction paths as [|p r IH]; simpl.
  - split; [intros _; now eexists | constructor].
  - unfold PptxParser.slideNumber at 1.
    destruct (PptxParser.matchDigits p) as [d|] eqn:Hd; simpl.
    + destruct (PptxParser.numbered r) as [l'|].
      * split; [intros _; now eexists|].
        intros _. constructor; [congruence | apply IH; now eexists].
      * split; [|intros [l H]; discriminate].
        intros H. inversion H as [|? ? _ Hr]; subst.
        apply IH in Hr. destruct Hr as [l Hl]. discriminate.
    + split; [|intros [l H]; discriminate].
      intros H. inversion H as [|? ? Hp _]; subst. congruence.
Qed.

(** The sorted paths are the slide entries of the archive, rearranged,
    in non-decreasing order of slide number; each of them has digits. *)
Lemma sortedSlideFiles_spec zip files :
  PptxParser.sortedSlideFiles zip = Some files ->
  Permutation files (PptxParser.slideFiles zip)
  /\ StronglySorted byNumber files
  /\ Forall hasDigits files.
Proof.
  unfold PptxParser.sortedSlideFiles. intros H.
  destruct (PptxParser.numbered (PptxParser.slideFiles zip)) as [l|] eqn:Hl;
    [|discriminate].
  injection H as <-. destruct (numbered_spec _ _ Hl) as [Hm Hf].
  assert (Hp : Permutation (map fst (PptxParser.sortByNumber l))
                           (PptxParser.slideFiles zip)).
  { rewrite <- Hm. apply Permutation_map, sortByNumber_perm. }
  split; [exact Hp|]. split.
  - apply sorted_map_fst; [|apply sortByNumber_sorted].
    eapply Permutation_Forall; [|exact Hf].
    symmetry. apply sortByNumber_perm.
  - eapply Permutation_Forall; [symmetry; exact Hp|].
    apply numbered_total. eexists. exact Hl.
Qed.

(** What the loop pushes: slide [k] of the remaining paths lands at
    position [length acc + k] with index [i + k]. *)
Lemma extractLoop_spec zip : forall files i acc slides,
  PptxParser.extractLoop zip files i acc = Some slides ->
  List.length slides = (List.length acc + List.length files)%nat
  /\ (forall k, (k < List.length acc)%nat ->
        nth_error slides k = nth_error acc k)
  /\ forall k path, nth_error files k = Some path ->
       exists slideNum,
         PptxParser.matchDigits path = Some slideNum
         /\ nth_error slides (List.length acc + k)
            = Some (PptxParser.slideAt zip (i + k) path slideNum).
Proof.
  induction files as [|p r IH]; simpl; intros i acc slides H.
  - injection H as <-. rewrite Nat.add_0_r. repeat split.
    intros [|k] path Hk; discriminate.
  - destruct (PptxParser.matchDigits p) as [d|] eqn:Hd; [|discriminate].
    apply IH in H. destruct H as (Hlen & Hpre & Hnth).
    rewrite length_app in Hlen, Hpre, Hnth. simpl in Hlen, Hpre, Hnth.
    split; [lia|]. split.
    + intros k Hk. rewrite Hpre by lia. now apply nth_error_app1.
    + intros [|k] path Hk; simpl in Hk.
      * injection Hk as <-. exists d. split; [exact Hd|].
        rewrite !Nat.add_0_r, Hpre by lia.
        rewrite nth_error_app2, Nat.sub_diag by lia. reflexivity.
      * destruct (Hnth k path Hk) as (num & Hnum & Hs).
        exists num. split; [exact Hnum|].
        replace (List.length acc + S k)%nat
          with (List.length acc + 1 + k)%nat by lia.
        replace (i + S k)%nat with (S i + k)%nat by lia. exact Hs.
Qed.

Lemma extractLoop_total zip : forall files i acc,
  Forall hasDigits files ->
  exists slides, PptxParser.extractLoop zip files i acc = Some slides.
Proof.
  unfold hasDigits.
  induction files as [|p r IH]; simpl; intros i acc H; [now eexists|].
  inversion H as [|? ? Hp Hr]; subst.
  destruct (PptxParser.matchDigits p); [now apply IH | congruence].
Qed.

(** The extractor answers exactly when every slide entry of the archive
    carries a number. *)
Lemma extractTextFromPptx_total zip :
  Forall hasDigits (PptxParser.slideFiles zip)
  <-> exists slides, PptxParser.extractTextFromPptx zip = Some slides.
Proof.
  unfold PptxParser.extractTextFromPptx. split.
  - intros H. apply numbered_total in H. destruct H as [l Hl].
    unfold PptxParser.sortedSlideFiles at 1. rewrite Hl. simpl.
    apply extractLoop_total.
    apply (sortedSlideFiles_spec zip).
    unfold PptxParser.sortedSlideFiles. now rewrite Hl.
  - intros [slides H].
    destruct (PptxParser.sortedSlideFiles zip) as [files|] eqn:Hf;
      [|discriminate].
    destruct (sortedSlideFiles_spec _ _ Hf) as (Hp & _ & Hd).
    eapply Permutation_Forall; eassumption.
Qed.

Lemma nth_error_all_eq {A} (l l' : list A) :
  List.length l = List.length l' ->
  (forall k x, nth_error l' k = Some x -> nth_error l k = Some x) ->
  l = l'.
Proof.
  revert l'. induction l as [|a l IH]; intros [|b l'] Hlen H;
    try discriminate; [reflexivity|].
  f_equal.
  - specialize (H 0%nat b eq_refl). simpl in H. congruence.
  - apply IH; [simpl in Hlen; lia|]. intros k x. apply (H (S k) x).
Qed.

(** C7. Whenever the extractor answers, it has gone through the slide
    entries of the archive (all of them, each once) in non-decreasing
    order of their slide numbers, and the text of the k-th returned slide
    is the text of the k-th entry in that order. *)
Theorem extractor_orders_slides_numerically zip slides :
  PptxParser.extractTextFromPptx zip = Some slides ->
  exists files,
    PptxParser.sortedSlideFiles zip = Some files
    /\ Permutation files (PptxParser.slideFiles zip)
    /\ StronglySorted byNumber files
    /\ map PptxParser.text slides = map (PptxParser.slideTextOf zip) files.
Proof.
  unfold PptxParser.extractTextFromPptx. intros H.
  destruct (PptxParser.sortedSlideFiles zip) as [files|] eqn:Hf;
    [|discriminate].
  exists files. destruct (sortedSlideFiles_spec _ _ Hf) as (Hp & Hs & _).
  repeat split; try assumption.
  apply extractLoop_spec in H. destruct H as (Hlen & _ & Hnth).
  apply nth_error_all_eq; [now rewrite !length_map|].
  intros k x Hk. rewrite nth_error_map in Hk |- *.
  destruct (nth_error files k) as [path|] eqn:Hpath; [|discriminate].
  destruct (Hnth k path Hpath) as (num & _ & Hsl). simpl in Hsl.
  rewrite Hsl. simpl in *. exact Hk.
Qed.

Lemma extractor_orders_slides_numerically_witness :
  exists slides,
    PptxParser.extractTextFromPptx deck_1_10_9 = Some slides
    /\ map PptxParser.text slides = ["one"; "nine"; "ten"]
    /\ exists files,
         PptxParser.sortedSlideFiles deck_1_10_9 = Some files
         /\ Permutation files (PptxParser.slideFiles deck_1_10_9)
         /\ StronglySorted byNumber files
         /\ map PptxParser.text slides
            = map (PptxParser.slideTextOf deck_1_10_9) files.
Proof.
  eexists. split; [reflexivity|]. split; [reflexivity|].
  apply (extractor_orders_slides_numerically deck_1_10_9 _ eq_refl).
Defined.

(** C10. Whenever the extractor answers, slide [i] of the result carries
    the index [i], its position in the numerically sorted entries, so the
    indices are 0, 1, ... without gaps whatever the slide numbers are; the
    number read from the path only names the notes file and the
    relationship file that slide [i] is filled from. *)
Theorem extractor_indexes_by_position zip slides :
  PptxParser.extractTextFromPptx zip = Some slides ->
  map PptxParser.index slides = seq 0 (List.length slides)
  /\ List.length slides = List.length (PptxParser.slideFiles zip)
  /\ exists files,
       PptxParser.sortedSlideFiles zip = Some files
       /\ forall i path, nth_error files i = Some path ->
            exists slideNum,
              PptxParser.matchDigits path = Some slideNum
              /\ nth_error slides i
                 = Some {| PptxParser.index := i;
                           PptxParser.text := PptxParser.slideTextOf zip path;
                           PptxParser.notes :=
                             PptxParser.notesTextOf zip slideNum;
                           PptxParser.image :=
                             PptxParser.slideImageOf zip slideNum |}.
Proof.
  unfold PptxParser.extractTextFromPptx. intros H.
  destruct (PptxParser.sortedSlideFiles zip) as [files|] eqn:Hf;
    [|discriminate].
  destruct (sortedSlideFiles_spec _ _ Hf) as (Hp & _ & _).
  apply extractLoop_spec in H. destruct H as (Hlen & _ & Hnth).
  simpl in Hlen, Hnth. split; [|split].
  - apply nth_error_all_eq; [now rewrite length_map, length_seq|].
    intros k x Hk.
    assert (Hlt : (k < List.length (seq 0 (List.length slides)))%nat)
      by (apply nth_error_Some; congruence).
    rewrite length_seq in Hlt.
    rewrite nth_error_nth' with (d := 0%nat) in Hk
      by (now rewrite length_seq).
    rewrite seq_nth in Hk by exact Hlt. simpl in Hk. injection Hk as <-.
    rewrite nth_error_map.
    destruct (nth_error files k) as [path|] eqn:Hpath.
    + destruct (Hnth k path Hpath) as (num & _ & Hsl). now rewrite Hsl.
    + apply nth_error_None in Hpath. lia.
  - rewrite Hlen. now apply Permutation_length.
  - exists files. split; [reflexivity|]. exact Hnth.
Qed.

Lemma extractor_indexes_by_position_witness :
  exists slides,
    PptxParser.extractTextFromPptx deck_2_5_9 = Some slides
    /\ map PptxParser.index slides = [0; 1; 2]%nat
    /\ map PptxParser.text slides = ["two"; "five"; "nine"]
    /\ map PptxParser.notes slides = [""; "about five"; "about nine"].
Proof.
  eexists. split; [reflexivity|].
  destruct (extractor_indexes_by_position deck_2_5_9 _ eq_refl)
    as (Hidx & _ & _).
  split; [exact Hidx|]. split; reflexivity.
Defined.

(** ** The retry wrapper *)












(** ** A small program logic for the browser monad *)

Section Logic.

Import Browser.

Lemma run_eta3 {A} (x : Res A * World * Trace) :
  x = (result x, final x, trace x).
Proof. now destruct x as [[r w] t]. Qed.

Lemma bind_ok {A B} (m : M A) (k : A -> M B) w a :
  result (m w) = Ok a ->
  bind m k w
  = (result (k a (final (m w))), final (k a (final (m w))),
     trace (m w) ++ trace (k a (final (m w)))).
Proof.
  unfold bind, result, final, trace.
  destruct (m w) as [[r w1] t1]; simpl. intros ->.
  now destruct (k a w1) as [[r2 w2] t2].
Qed.

Lemma bind_throw {A B} (m : M A) (k : A -> M B) w e :
  result (m w) = Throw e ->
  bind m k w = (Throw e, final (m w), trace (m w)).
Proof.
  unfold bind, result, final, trace.
  destruct (m w) as [[r w1] t1]; simpl. now intros ->.
Qed.

Lemma bind_hang {A B} (m : M A) (k : A -> M B) w :
  result (m w) = Hang ->
  bind m k w = (Hang, final (m w), trace (m w)).
Proof.
  unfold bind, result, final, trace.
  destruct (m w) as [[r w1] t1]; simpl. now intros ->.
Qed.

Variable R : Rel.
Hypothesis R_stable : Stable R.

Lemma always_ret {A} (a : A) : Always R (ret a).
Proof. intros w. apply R_stable. Qed.

Lemma always_throw {A} e : Always R (@throw A e).
Proof. intros w. apply R_stable. Qed.

Lemma always_hang {A} : Always R (@hang A).
Proof. intros w. apply R_stable. Qed.

Lemma always_dateNow : Always R dateNow.
Proof. intros w. apply R_stable. Qed.

Lemma always_bind {A B} (m : M A) (k : A -> M B) :
  Always R m -> (forall a, Always R (k a)) -> Always R (bind m k).
Proof.
  intros Hm Hk w. specialize (Hm w).
  destruct (result (m w)) as [a| e |] eqn:Hr.
  - rewrite (bind_ok m k w a Hr). simpl.
    destruct R_stable as [_ Htrans]. eapply Htrans; [exact Hm | apply Hk].
  - now rewrite (bind_throw m k w e Hr).
  - now rewrite (bind_hang m k w Hr).
Qed.

Lemma always_tryCatch {A} (m : M A) h :
  Always R m -> (forall e, Always R (h e)) -> Always R (tryCatch m h).
Proof.
  intros Hm Hh w. specialize (Hm w). unfold tryCatch.
  unfold final, trace in *.
  destruct (m w) as [[[a| e |] w1] t1]; simpl in *; try exact Hm.
  specialize (Hh e w1). unfold final, trace in Hh.
  destruct (h e w1) as [[r2 w2] t2]; simpl in *.
  destruct R_stable as [_ Htrans]. eapply Htrans; eassumption.
Qed.

Lemma always_if {A} (b : bool) (m1 m2 : M A) :
  Always R m1 -> Always R m2 -> Always R (if b then m1 else m2).
Proof. now destruct b. Qed.

End Logic.

Section QuietFacts.

Local Ltac quiet :=
  unfold Quiet, Browser.final, Browser.trace, Browser.emit, Browser.update,
    Session.setAppState, Session.setProgress, Session.await;
  simpl; split; [|split; [|split]].

Import Browser Session.

Variable P : Event -> bool.

Lemma Quiet_stable : Stable (Quiet P).
Proof.
  split.
  - intros w. quiet; [reflexivity | reflexivity | lia | constructor].
  - intros w1 w2 w3 t1 t2 (Hs1 & Hc1 & Hn1 & Hf1) (Hs2 & Hc2 & Hn2 & Hf2).
    quiet; [congruence | congruence | lia | now apply Forall_app].
Qed.

Lemma quiet_emit e : P e = true -> Always (Quiet P) (emit e).
Proof.
  intros He w. quiet; [reflexivity | reflexivity | simpl; lia |].
  simpl. now repeat constructor.
Qed.

Variable env : Env.

Lemma quiet_await ms : (0 <= ms)%Z -> Always (Quiet P) (await env ms).
Proof.
  intros Hms w. unfold await, update, final, trace. simpl.
  quiet; [reflexivity | reflexivity | simpl; lia | constructor].
Qed.

Lemma quiet_sleep ms :
  (0 <= ms)%Z -> P (Timeout ms) = true -> Always (Quiet P) (sleep env ms).
Proof.
  intros Hms HP. apply always_bind; [apply Quiet_stable | now apply quiet_emit |].
  intros _. now apply quiet_await.
Qed.

Lemma quiet_nextFrame :
  P AnimationFrame = true -> Always (Quiet P) (nextFrame env).
Proof.
  intros HP. apply always_bind; [apply Quiet_stable | now apply quiet_emit |].
  intros _. now apply quiet_await.
Qed.

Lemma quiet_setAppState s p : Always (Quiet P) (setAppState s p).
Proof.
  intros w. quiet; [reflexivity | reflexivity | simpl; lia | constructor].
Qed.

Lemma quiet_setProgress p : Always (Quiet P) (setProgress p).
Proof.
  intros w. quiet; [reflexivity | reflexivity | simpl; lia | constructor].
Qed.

Lemma quiet_generateSpeechForText i :
  P (GenerateSpeech i) = true ->
  Always (Quiet P) (generateSpeechForText env i).
Proof.
  intros HP. unfold generateSpeechForText.
  apply always_bind; [apply Quiet_stable | now apply quiet_emit |].
  intros _. apply always_bind; [apply Quiet_stable | now apply quiet_await |].
  intros _. destruct (speech env i) as [m|b].
  - apply always_throw, Quiet_stable.
  - destruct (Audio.decodeSpeech b);
      [apply always_ret | apply always_throw]; apply Quiet_stable.
Qed.

Lemma quiet_prepareRecorder :
  (forall e, prepEvent e = true -> P e = true) ->
  Always (Quiet P) (prepareRecorder env).
Proof.
  intros HP. unfold prepareRecorder.
  apply always_bind; [apply Quiet_stable | apply quiet_setAppState |].
  intros _. apply always_bind; [apply Quiet_stable | |].
  { apply always_if; [apply always_ret | apply always_throw];
      apply Quiet_stable. }
  intros _. apply always_bind; [apply Quiet_stable | |].
  { apply quiet_emit, HP. reflexivity. }
  intros _. apply always_if.
  - apply quiet_emit, HP. reflexivity.
  - apply always_throw, Quiet_stable.
Qed.

Lemma quiet_onError e :
  P ConsoleError = true -> Always (Quiet P) (onError e).
Proof.
  intros HP. apply always_bind; [apply Quiet_stable | now apply quiet_emit |].
  intros _ w. quiet; [reflexivity | reflexivity | simpl; lia | constructor].
Qed.

End QuietFacts.

Section QuietLoops.

Import Browser Session.

Variable P : Event -> bool.
Variable env : Env.
Variable fuel : nat.

Lemma quiet_preload :
  (forall e, prepEvent e = true -> P e = true) ->
  forall todo i total done,
    Always (Quiet P) (AppPdf.preload env todo i total done).
Proof.
  intros HP. induction todo as [|slide rest IH]; intros i total done; simpl.
  - apply always_ret, Quiet_stable.
  - apply always_bind; [apply Quiet_stable | |].
    { apply quiet_generateSpeechForText, HP. reflexivity. }
    intros buffer. apply always_bind; [apply Quiet_stable | |].
    { apply quiet_emit, HP. reflexivity. }
    intros _. apply always_bind; [apply Quiet_stable | now apply quiet_await |].
    intros _. apply always_bind; [apply Quiet_stable | |].
    { apply always_if; [apply always_ret | apply always_throw]; apply Quiet_stable. }
    intros _. apply always_bind; [apply Quiet_stable | apply quiet_setProgress |].
    intros _. apply IH.
Qed.

Lemma quiet_synthesize :
  (forall e, prepEvent e = true -> P e = true) ->
  forall todo i total done,
    Always (Quiet P) (AppDoc.synthesize env todo i total done).
Proof.
  intros HP. induction todo as [|slide rest IH]; intros i total done; simpl.
  - apply always_ret, Quiet_stable.
  - apply always_bind; [apply Quiet_stable | |].
    { apply quiet_generateSpeechForText, HP. reflexivity. }
    intros buffer. apply always_bind; [apply Quiet_stable | apply quiet_setProgress |].
    intros _. apply always_bind; [apply Quiet_stable | |].
    { apply quiet_sleep; [lia | apply HP; reflexivity]. }
    intros _. apply IH.
Qed.

Lemma quiet_pdf_drawFrame preloaded i :
  P (DrawFrame i) = true -> Always (Quiet P) (AppPdf.drawFrame preloaded i).
Proof.
  intros HP. unfold AppPdf.drawFrame. destruct (nth_error preloaded i).
  - now apply quiet_emit.
  - apply always_throw, Quiet_stable.
Qed.

Lemma quiet_pdf_redraw :
  (forall e, playEvent e = true -> P e = true) ->
  forall n preloaded i startTime seconds endTime,
    Always (Quiet P)
      (AppPdf.redraw env n preloaded i startTime seconds endTime).
Proof.
  intros HP. induction n as [|n IH]; intros; simpl.
  - apply always_hang, Quiet_stable.
  - apply always_bind; [apply Quiet_stable | apply always_dateNow, Quiet_stable |].
    intros t. apply always_if; [|apply always_ret, Quiet_stable].
    apply always_bind; [apply Quiet_stable | |].
    { apply quiet_pdf_drawFrame, HP. reflexivity. }
    intros _. apply always_bind; [apply Quiet_stable | |].
    { apply quiet_nextFrame, HP. reflexivity. }
    intros _. apply always_bind; [apply Quiet_stable | |].
    { apply quiet_sleep; [lia | apply HP; reflexivity]. }
    intros _. apply always_bind; [apply Quiet_stable | apply always_dateNow, Quiet_stable |].
    intros t'. apply always_if; [apply always_ret, Quiet_stable | apply IH].
Qed.

Lemma quiet_pdf_playSlides :
  (forall e, playEvent e = true -> P e = true) ->
  forall preloaded todo i,
    Always (Quiet P) (AppPdf.playSlides env fuel preloaded todo i).
Proof.
  intros HP preloaded. induction todo as [|slide rest IH]; intros i; simpl.
  - apply always_ret, Quiet_stable.
  - destruct (audioBuffer slide) as [buffer|]; [|apply always_throw, Quiet_stable].
    apply always_bind; [apply Quiet_stable | apply always_dateNow, Quiet_stable |].
    intros t. apply always_bind; [apply Quiet_stable | |].
    { apply quiet_emit, HP. reflexivity. }
    intros _. apply always_bind; [apply Quiet_stable | now apply quiet_pdf_redraw |].
    intros _. apply IH.
Qed.

Lemma quiet_doc_redraw :
  (forall e, playEvent e = true -> P e = true) ->
  forall n i endTime, Always (Quiet P) (AppDoc.redraw env n i endTime).
Proof.
  intros HP. induction n as [|n IH]; intros; simpl.
  - apply always_hang, Quiet_stable.
  - apply always_bind; [apply Quiet_stable | apply always_dateNow, Quiet_stable |].
    intros t. apply always_if; [|apply always_ret, Quiet_stable].
    apply always_bind; [apply Quiet_stable | |].
    { apply quiet_emit, HP. reflexivity. }
    intros _. apply always_bind; [apply Quiet_stable | |].
    { apply quiet_nextFrame, HP. reflexivity. }
    intros _. apply IH.
Qed.

Lemma quiet_doc_playSlides :
  (forall e, playEvent e = true -> P e = true) ->
  forall todo i, Always (Quiet P) (AppDoc.playSlides env fuel todo i).
Proof.
  intros HP. induction todo as [|slide rest IH]; intros i; simpl.
  - apply always_ret, Quiet_stable.
  - destruct (audioBuffer slide) as [buffer|]; [|apply always_throw, Quiet_stable].
    apply always_bind; [apply Quiet_stable | apply always_dateNow, Quiet_stable |].
    intros t. apply always_bind; [apply Quiet_stable | |].
    { apply quiet_emit, HP. reflexivity. }
    intros _. apply always_bind; [apply Quiet_stable | now apply quiet_doc_redraw |].
    intros _. apply IH.
Qed.

Lemma quiet_recorderStart :
  P RecorderStart = true -> Always (Quiet P) (recorderStart env).
Proof.
  intros HP. unfold recorderStart.
  apply always_if; [now apply quiet_emit | apply always_throw, Quiet_stable].
Qed.

End QuietLoops.

(** ** Quota and audio context over a whole run *)

Section Prefix.

Import Browser.

(** A goal [G] that survives an [R]-prefix holds of [m ;; k] as soon as
    [m] is [R] and [k] reaches [G]. *)
Lemma bind_prefix {A B} (R : Rel)
    (G : World -> Res B * World * Trace -> Prop) :
  (forall w0 w1 t1 x,
     R w0 w1 t1 -> G w1 x -> G w0 (result x, final x, t1 ++ trace x)) ->
  (forall w0 w1 t1 e, R w0 w1 t1 -> G w0 (Throw e, w1, t1)) ->
  (forall w0 w1 t1, R w0 w1 t1 -> G w0 (Hang, w1, t1)) ->
  forall (m : M A) (k : A -> M B),
    Always R m -> (forall a w1, G w1 (k a w1)) ->
    forall w, G w (bind m k w).
Proof.
  intros Hpre Hthrow Hhang m k Hm Hk w. specialize (Hm w).
  destruct (result (m w)) as [a| e |] eqn:Hr.
  - rewrite (bind_ok m k w a Hr).
    apply (Hpre w (final (m w)) (trace (m w)) (k a (final (m w)))); auto.
  - rewrite (bind_throw m k w e Hr). now apply Hthrow.
  - rewrite (bind_hang m k w Hr). now apply Hhang.
Qed.

End Prefix.

Section Settling.

Import Browser Session.

Variable env : Env.

Lemma events_app t1 t2 : events (t1 ++ t2) = events t1 ++ events t2.
Proof. apply map_app. Qed.

Lemma quiet_not_in P e w w' t :
  Quiet P w w' t -> P e = false -> ~ In e (events t).
Proof.
  intros (_ & _ & _ & Hf) He Hin. unfold events in Hin.
  apply in_map_iff in Hin. destruct Hin as ((t0 & e0) & He0 & Hin).
  simpl in He0. subst e0. rewrite Forall_forall in Hf.
  specialize (Hf _ Hin). simpl in Hf. congruence.
Qed.

Lemma settled_prefix w0 w1 t1 x :
  Quiet notFinishing w0 w1 t1 -> Settled env w1 x ->
  Settled env w0 (result x, final x, t1 ++ trace x).
Proof.
  intros HQ. pose proof (quiet_not_in _ BlobAssembled _ _ _ HQ eq_refl) as Hb.
  pose proof (quiet_not_in _ CloseAudioContext _ _ _ HQ eq_refl) as Hc.
  destruct HQ as (Hs & Hc1 & _ & _).
  unfold Settled, assembled, closed. simpl.
  rewrite events_app, Hs, Hc1.
  destruct (result x); intros H.
  - destruct H as (Ha & Hcl & H). repeat split; try apply H;
      apply in_or_app; now right.
  - destruct H as (Ha & Hcl & H).
    repeat split; try apply H; intros Hin; apply in_app_or in Hin; tauto.
  - destruct H as (Ha & Hcl & H).
    repeat split; try apply H; intros Hin; apply in_app_or in Hin; tauto.
Qed.

Lemma settled_throw w0 w1 t1 e :
  Quiet notFinishing w0 w1 t1 -> Settled env w0 (Throw e, w1, t1).
Proof.
  intros HQ. pose proof (quiet_not_in _ BlobAssembled _ _ _ HQ eq_refl).
  pose proof (quiet_not_in _ CloseAudioContext _ _ _ HQ eq_refl).
  destruct HQ as (Hs & Hc1 & _ & _). unfold Settled. simpl. tauto.
Qed.

Lemma settled_hang w0 w1 t1 :
  Quiet notFinishing w0 w1 t1 -> Settled env w0 (Hang, w1, t1).
Proof.
  intros HQ. pose proof (quiet_not_in _ BlobAssembled _ _ _ HQ eq_refl).
  pose proof (quiet_not_in _ CloseAudioContext _ _ _ HQ eq_refl).
  destruct HQ as (Hs & Hc1 & _ & _). unfold Settled. simpl. tauto.
Qed.

(** [recorder.stop()], the blob, and the lines after it. *)
Lemma settled_finish DAILY_LIMIT w :
  Settled env w ((recorderStop env ;; complete env DAILY_LIMIT)%js w).
Proof.
  unfold recorderStop, complete, useQuota, closeAudioContext, Settled.
  unfold assembled, closed, bind, result, final, trace, events.
  destruct (recorderStops env); simpl.
  - destruct (localStorage w) as [[date count]|] eqn:Hs; simpl;
      rewrite ?Hs; intuition (auto; try discriminate).
  - intuition (auto; try discriminate).
Qed.

End Settling.

Ltac settle_step lemma :=
  apply (bind_prefix (Quiet notFinishing) (Settled _));
  [ apply settled_prefix | apply settled_throw | apply settled_hang
  | lemma | intros ? ? ].

Section SettledRuns.

Import Browser Session.

Variable env : Env.
Variable fuel : nat.

Lemma prep_notFinishing e : prepEvent e = true -> notFinishing e = true.
Proof. now destruct e. Qed.

Lemma play_notFinishing e : playEvent e = true -> notFinishing e = true.
Proof. now destruct e. Qed.

Lemma pdf_record_settled slides w :
  Settled env w (AppPdf.record env fuel slides w).
Proof.
  unfold AppPdf.record. revert w.
  settle_step ltac:(apply quiet_setAppState).
  settle_step ltac:(apply quiet_preload, prep_notFinishing).
  settle_step ltac:(apply quiet_prepareRecorder, prep_notFinishing).
  settle_step ltac:(now apply quiet_pdf_drawFrame).
  settle_step ltac:(now apply quiet_recorderStart).
  settle_step ltac:(now apply quiet_sleep).
  settle_step ltac:(now apply quiet_pdf_drawFrame).
  settle_step ltac:(apply quiet_pdf_playSlides, play_notFinishing).
  settle_step ltac:(now apply quiet_sleep).
  apply settled_finish.
Qed.

Lemma doc_record_settled slides w :
  Settled env w (AppDoc.record env fuel slides w).
Proof.
  unfold AppDoc.record. revert w.
  settle_step ltac:(apply quiet_setAppState).
  settle_step ltac:(apply quiet_synthesize, prep_notFinishing).
  settle_step ltac:(apply quiet_prepareRecorder, prep_notFinishing).
  settle_step ltac:(now apply quiet_recorderStart).
  settle_step ltac:(apply quiet_doc_playSlides, play_notFinishing).
  apply settled_finish.
Qed.

(** [new AudioContext()], the [try] block and its [catch]. *)
Lemma video_finished (body : M unit) :
  (forall w, Settled env w (body w)) ->
  forall w, Finished env w ((newAudioContext ;; tryCatch body onError)%js w).
Proof.
  intros Hbody w. unfold newAudioContext, bind at 1 2. simpl.
  set (w1 := setContexts (S (openContexts w)) w).
  specialize (Hbody w1). unfold tryCatch.
  unfold Settled, assembled, closed, result, final, trace in Hbody.
  unfold Finished, assembled, closed, result, final, trace.
  destruct (body w1) as [[[[]| e |] w2] t2]; simpl in *.
  - left. destruct Hbody as (Ha & Hc & Hs & Ho & Hst).
    repeat split; auto.
  - right. destruct Hbody as (Ha & Hc & Hs & Ho).
    unfold events in *. rewrite map_app. simpl.
    repeat split; auto.
    + intros [H|H]; [discriminate|]. apply in_app_or in H.
      destruct H as [H|[H|[]]]; [tauto | discriminate].
    + intros [H|H]; [discriminate|]. apply in_app_or in H.
      destruct H as [H|[H|[]]]; [tauto | discriminate].
  - right. destruct Hbody as (Ha & Hc & Hs & Ho).
    repeat split; auto; intros [H|H]; try discriminate; tauto.
Qed.

(** Every run of either [createVideo] ends in one of two ways: with the
    blob assembled, the quota consumed once and the audio context closed;
    or with no blob, the quota untouched and the audio context still
    open. *)
Lemma createVideo_finished a w :
  Finished env w (AppPdf.createVideo env fuel (Some a) w)
  /\ Finished env w (AppDoc.createVideo env fuel (Some a) w).
Proof.
  split; apply video_finished; intros w1;
    [apply pdf_record_settled | apply doc_record_settled].
Qed.

End SettledRuns.

(** C4. From a world whose storage holds today's counter, a run of either
    [createVideo] that assembles the blob leaves the counter exactly one
    higher; a run that does not get that far, because something threw or
    the loop never ended, leaves the stored counter as it was; and a run
    that ends in the error state has not assembled the blob. *)
Theorem quota_consumed_only_by_assembled_video env fuel a w date count :
  Browser.localStorage w = Some (date, count) ->
  (let x := AppPdf.createVideo env fuel (Some a) w in
   (assembled x ->
      Browser.localStorage (Browser.final x)
      = Some (Browser.today env, (count + 1)%Z))
   /\ (~ assembled x ->
      Browser.localStorage (Browser.final x) = Some (date, count))
   /\ (Browser.status (Browser.appState (Browser.final x)) = Browser.error ->
      ~ assembled x))
  /\
  (let x := AppDoc.createVideo env fuel (Some a) w in
   (assembled x ->
      Browser.localStorage (Browser.final x)
      = Some (Browser.today env, (count + 1)%Z))
   /\ (~ assembled x ->
      Browser.localStorage (Browser.final x) = Some (date, count))
   /\ (Browser.status (Browser.appState (Browser.final x)) = Browser.error ->
      ~ assembled x)).
Proof.
  intros Hs. destruct (createVideo_finished env fuel a w) as [Hp Hd].
  unfold Finished in Hp, Hd. rewrite Hs in Hp, Hd.
  cbn [consumed] in Hp, Hd. split; cbv zeta.
  - destruct Hp as [(Ha & _ & _ & Hst & _ & Hc) | (Hn & _ & _ & Hst & _)].
    + repeat split; [now intros _ | tauto | ].
      intros He. rewrite Hc in He. discriminate.
    + repeat split; [tauto | now intros _ | now intros _].
  - destruct Hd as [(Ha & _ & _ & Hst & _ & Hc) | (Hn & _ & _ & Hst & _)].
    + repeat split; [now intros _ | tauto | ].
      intros He. rewrite Hc in He. discriminate.
    + repeat split; [tauto | now intros _ | now intros _].
Qed.

Lemma quota_consumed_only_by_assembled_video_witness :
  Browser.localStorage
    (Browser.final (AppPdf.createVideo smoothEnv 9 (Some oneSlide) freshWorld))
  = Some ("2024-05-01", 2%Z)
  /\ Browser.localStorage
       (Browser.final (AppDoc.createVideo stuckEnv 9 (Some oneSlide) freshWorld))
     = Some ("2024-05-01", 1%Z).
Proof.
  destruct (quota_consumed_only_by_assembled_video smoothEnv 9 oneSlide
              freshWorld "2024-05-01" 1%Z eq_refl) as [(Hdone & _) _].
  destruct (quota_consumed_only_by_assembled_video stuckEnv 9 oneSlide
              freshWorld "2024-05-01" 1%Z eq_refl) as [_ (_ & Hfail & _)].
  split.
  - apply Hdone. unfold assembled. vm_compute. tauto.
  - apply Hfail. unfold assembled. vm_compute. intuition discriminate.
Defined.

(** C8. Started without an open audio context, both [createVideo] come
    back in the error state with the context they created still open,
    [audioCtx.close()] never having been called: when the speech backend
    rejects the first request, and when materialization succeeds and
    [recorder.stop()] throws. *)
Theorem audio_context_stays_open_on_failure :
  Browser.openContexts freshWorld = 0%nat
  /\ LeftOpen (AppPdf.createVideo deafEnv 9 (Some oneSlide) freshWorld)
  /\ LeftOpen (AppDoc.createVideo deafEnv 9 (Some oneSlide) freshWorld)
  /\ LeftOpen (AppPdf.createVideo stuckEnv 9 (Some oneSlide) freshWorld)
  /\ LeftOpen (AppDoc.createVideo stuckEnv 9 (Some oneSlide) freshWorld).
Proof.
  split; [reflexivity|].
  repeat split; try reflexivity;
    unfold closed; vm_compute; intuition discriminate.
Qed.

Lemma bind_emit_trace {B} e (k : unit -> Browser.M B) w :
  Browser.events (Browser.trace (Browser.bind (Browser.emit e) k w))
  = e :: Browser.events (Browser.trace (k tt w)).
Proof.
  unfold Browser.bind, Browser.emit, Browser.trace.
  now destruct (k tt w) as [[r w2] t2].
Qed.

(** ** The first frame *)

Section FirstFrame.

Import Browser Session.

Lemma split_behind {A} (x : A) : forall l1 l2 pre post,
  ~ In x l1 -> l1 ++ l2 = pre ++ x :: post ->
  exists pre2, pre = l1 ++ pre2 /\ l2 = pre2 ++ x :: post.
Proof.
  induction l1 as [|a l1 IH]; intros l2 pre post Hx Heq.
  - exists pre. now split.
  - destruct pre as [|b pre]; simpl in Heq; injection Heq as -> Heq.
    + exfalso. apply Hx. now left.
    + destruct (IH l2 pre post) as (pre2 & -> & ->);
        [intros H; apply Hx; now right | exact Heq |].
      exists pre2. now split.
Qed.

Lemma split_before {A} (x : A) : forall pre l1 l2 post,
  ~ In x l2 -> l1 ++ l2 = pre ++ x :: post ->
  exists post1, l1 = pre ++ x :: post1 /\ post = post1 ++ l2.
Proof.
  induction pre as [|b pre IH]; intros l1 l2 post Hx Heq.
  - destruct l1 as [|a l1]; simpl in Heq.
    + exfalso. apply Hx. rewrite Heq. now left.
    + injection Heq as -> Heq. exists l1. now split.
  - destruct l1 as [|a l1]; simpl in Heq.
    + exfalso. apply Hx. rewrite Heq. right. apply in_elt.
    + injection Heq as -> Heq.
      destruct (IH l1 l2 post Hx Heq) as (post1 & -> & ->).
      exists post1. now split.
Qed.

Lemma Emits_stable P : Stable (Emits P).
Proof.
  split; [intros w; constructor|].
  intros w1 w2 w3 t1 t2 H1 H2. now apply Forall_app.
Qed.

Lemma quiet_emits {A} P (m : M A) : Always (Quiet P) m -> Always (Emits P) m.
Proof. intros H w. apply (H w). Qed.

Lemma emits_not_in P e t :
  Forall (fun te => P (snd te) = true) t -> P e = false -> ~ In e (events t).
Proof.
  intros Hf He Hin. unfold events in Hin.
  apply in_map_iff in Hin. destruct Hin as ((t0 & e0) & He0 & Hin).
  simpl in He0. subst e0. rewrite Forall_forall in Hf.
  specialize (Hf _ Hin). simpl in Hf. congruence.
Qed.

Lemma guarded_behind settle l1 l2 :
  ~ In RecorderStart l1 ->
  FirstFrameGuarded settle l2 -> FirstFrameGuarded settle (l1 ++ l2).
Proof.
  intros Hx H pre post Heq.
  destruct (split_behind _ _ _ _ _ Hx Heq) as (pre2 & -> & Hl2).
  destruct (H _ _ Hl2) as [Hin Hpost].
  split; [apply in_or_app; now right | exact Hpost].
Qed.

Lemma guarded_before settle l1 l2 :
  ~ In RecorderStart l2 ->
  FirstFrameGuarded settle l1 -> FirstFrameGuarded settle (l1 ++ l2).
Proof.
  intros Hx H pre post Heq.
  destruct (split_before _ _ _ _ _ Hx Heq) as (post1 & Hl1 & ->).
  destruct (H _ _ Hl1) as [Hin (post' & ->)].
  split; [exact Hin | now exists (post' ++ l2)].
Qed.

Lemma guarded_without settle l :
  ~ In RecorderStart l -> FirstFrameGuarded settle l.
Proof.
  intros Hx pre post Heq. exfalso. apply Hx. rewrite Heq. apply in_elt.
Qed.

Variable env : Env.
Variable fuel : nat.

Lemma emits_finish P DAILY_LIMIT :
  P RecorderStop = true -> P BlobAssembled = true ->
  P CreateObjectURL = true -> P CloseAudioContext = true ->
  Always (Emits P) (recorderStop env ;; complete env DAILY_LIMIT)%js.
Proof.
  intros H1 H2 H3 H4 w.
  unfold Emits, recorderStop, complete, useQuota, closeAudioContext.
  unfold bind, trace. destruct (recorderStops env); simpl;
    now repeat constructor.
Qed.

(** From the first [drawFrame] on: draw, start, wait 400 ms, draw. *)
Lemma pdf_start_guarded preloaded (rest : M unit) w :
  Always (Emits notRecorderStart) rest ->
  FirstFrameGuarded 400
    (events (trace ((AppPdf.drawFrame preloaded 0 ;;
                     recorderStart env ;;
                     sleep env 400 ;;
                     AppPdf.drawFrame preloaded 0 ;;
                     rest)%js w))).
Proof.
  intros Hrest. unfold AppPdf.drawFrame, recorderStart.
  destruct (nth_error preloaded 0) as [s|];
    [|apply guarded_without; simpl; tauto].
  destruct (recorderStarts env);
    [|apply guarded_without; simpl; intuition discriminate].
  unfold bind, sleep, await, emit, update, trace. simpl.
  match goal with |- context [rest ?w'] =>
    specialize (Hrest w'); unfold Emits, trace in Hrest;
    destruct (rest w') as [[r w2] t2] end.
  simpl in *.
  pose proof (emits_not_in _ RecorderStart _ Hrest eq_refl) as Hno.
  intros pre post Heq.
  destruct pre as [|e1 [|e2 pre]]; simpl in Heq.
  - discriminate.
  - injection Heq as He1 Hpost. subst e1 post.
    split; [now left | now eexists].
  - injection Heq as He1 He2 Heq. subst e1 e2. exfalso. apply Hno.
    assert (Hin : In RecorderStart
                    (Timeout 400 :: DrawFrame 0 :: events t2))
      by (rewrite Heq; apply in_elt).
    destruct Hin as [H|[H|H]]; [discriminate | discriminate | exact H].
Qed.

Lemma prep_notRecorderStart e :
  prepEvent e = true -> notRecorderStart e = true.
Proof. now destruct e. Qed.

Lemma play_notRecorderStart e :
  playEvent e = true -> notRecorderStart e = true.
Proof. now destruct e. Qed.

Lemma pdf_record_guarded slides w :
  FirstFrameGuarded 400 (events (trace (AppPdf.record env fuel slides w))).
Proof.
  unfold AppPdf.record. revert w.
  pose (G := fun (_ : World) (x : Res unit * World * Trace) =>
               FirstFrameGuarded 400 (events (trace x))).
  assert (Hpre : forall w0 w1 t1 x, Quiet notRecorderStart w0 w1 t1 ->
            G w1 x -> G w0 (result x, final x, t1 ++ trace x)).
  { intros w0 w1 t1 x HQ HG. unfold G, trace at 1. simpl.
    rewrite events_app. apply guarded_behind; [|exact HG].
    eapply quiet_not_in; [exact HQ | reflexivity]. }
  assert (Hthrow : forall w0 w1 t1 e, Quiet notRecorderStart w0 w1 t1 ->
            G w0 (Throw e, w1, t1)).
  { intros w0 w1 t1 e HQ. apply guarded_without.
    eapply quiet_not_in; [exact HQ | reflexivity]. }
  assert (Hhang : forall w0 w1 t1, Quiet notRecorderStart w0 w1 t1 ->
            G w0 (Hang, w1, t1)).
  { intros w0 w1 t1 HQ. apply guarded_without.
    eapply quiet_not_in; [exact HQ | reflexivity]. }
  apply (bind_prefix _ G Hpre Hthrow Hhang); [apply quiet_setAppState|].
  intros _.
  apply (bind_prefix _ G Hpre Hthrow Hhang);
    [apply quiet_preload, prep_notRecorderStart|].
  intros slidesWithAudio.
  apply (bind_prefix _ G Hpre Hthrow Hhang);
    [apply quiet_prepareRecorder, prep_notRecorderStart|].
  intros _ w. apply pdf_start_guarded.
  apply always_bind; [apply Emits_stable | |].
  { apply quiet_emits, quiet_pdf_playSlides, play_notRecorderStart. }
  intros _. apply always_bind; [apply Emits_stable | |].
  { apply quiet_emits. now apply quiet_sleep. }
  intros _. now apply emits_finish.
Qed.

(** In the PDF-only application every run starts the recorder on a canvas
    that shows the first slide, waits 400 ms and draws the first slide
    again. *)
Lemma pdf_first_frame_guarded a w :
  FirstFrameGuarded 400
    (events (trace (AppPdf.createVideo env fuel (Some a) w))).
Proof.
  unfold AppPdf.createVideo, newAudioContext, bind at 1 2. simpl.
  set (w1 := setContexts (S (openContexts w)) w).
  pose proof (pdf_record_guarded (slides a) w1) as H.
  unfold tryCatch, trace in *.
  destruct (AppPdf.record env fuel (slides a) w1) as [[[[]| e |] w2] t2];
    simpl in *.
  - apply (guarded_behind 400 [NewAudioContext]); [|exact H].
    simpl. intuition discriminate.
  - apply (guarded_behind 400 [NewAudioContext]);
      [simpl; intuition discriminate|].
    unfold events. rewrite map_app. apply guarded_before; [|exact H].
    simpl. intuition discriminate.
  - apply (guarded_behind 400 [NewAudioContext]); [|exact H].
    simpl. intuition discriminate.
Qed.

Lemma blank_behind l1 l2 :
  Forall (fun e => prepEvent e = true) l1 ->
  BlankStart l2 -> BlankStart (l1 ++ l2).
Proof.
  intros Hprep H pre post Heq i Hin.
  assert (Hx : ~ In RecorderStart l1).
  { intros Hr. rewrite Forall_forall in Hprep.
    specialize (Hprep _ Hr). discriminate. }
  destruct (split_behind _ _ _ _ _ Hx Heq) as (pre2 & -> & Hl2).
  apply in_app_or in Hin. destruct Hin as [Hin|Hin].
  - rewrite Forall_forall in Hprep. specialize (Hprep _ Hin). discriminate.
  - exact (H _ _ Hl2 i Hin).
Qed.

Lemma blank_without l : ~ In RecorderStart l -> BlankStart l.
Proof.
  intros Hx pre post Heq. exfalso. apply Hx. rewrite Heq. apply in_elt.
Qed.

Lemma quiet_events P w w' t :
  Quiet P w w' t -> Forall (fun e => P e = true) (events t).
Proof. intros (_ & _ & _ & H). unfold events. now apply Forall_map. Qed.

Lemma doc_record_blank slides w :
  BlankStart (events (trace (AppDoc.record env fuel slides w))).
Proof.
  unfold AppDoc.record. revert w.
  pose (G := fun (_ : World) (x : Res unit * World * Trace) =>
               BlankStart (events (trace x))).
  assert (Hpre : forall w0 w1 t1 x, Quiet prepEvent w0 w1 t1 ->
            G w1 x -> G w0 (result x, final x, t1 ++ trace x)).
  { intros w0 w1 t1 x HQ HG. unfold G, trace at 1. simpl.
    rewrite events_app. apply blank_behind; [|exact HG].
    eapply quiet_events, HQ. }
  assert (Hthrow : forall w0 w1 t1 e, Quiet prepEvent w0 w1 t1 ->
            G w0 (Throw e, w1, t1)).
  { intros w0 w1 t1 e HQ. apply blank_without.
    eapply quiet_not_in; [exact HQ | reflexivity]. }
  assert (Hhang : forall w0 w1 t1, Quiet prepEvent w0 w1 t1 ->
            G w0 (Hang, w1, t1)).
  { intros w0 w1 t1 HQ. apply blank_without.
    eapply quiet_not_in; [exact HQ | reflexivity]. }
  apply (bind_prefix _ G Hpre Hthrow Hhang); [apply quiet_setAppState|].
  intros _.
  apply (bind_prefix _ G Hpre Hthrow Hhang); [now apply quiet_synthesize|].
  intros slidesWithAudio.
  apply (bind_prefix _ G Hpre Hthrow Hhang);
    [now apply quiet_prepareRecorder|].
  intros _ w. unfold G, recorderStart.
  destruct (recorderStarts env); [|apply blank_without; simpl; tauto].
  assert (Hquiet : Always (Emits notRecorderStart)
            (AppDoc.playSlides env fuel slidesWithAudio 0 ;;
             recorderStop env ;;
             complete env AppDoc.DAILY_LIMIT)%js).
  { apply always_bind; [apply Emits_stable | |].
    { apply quiet_emits, quiet_doc_playSlides, play_notRecorderStart. }
    intros _. now apply emits_finish. }
  rewrite bind_emit_trace.
  match goal with |- context [trace ?x] =>
    assert (Hrest : ~ In RecorderStart (events (trace x))) end.
  { apply (emits_not_in notRecorderStart); [apply (Hquiet w) | reflexivity]. }
  intros pre post Heq i Hin. destruct pre as [|e pre]; [contradiction|].
  simpl in Heq. injection Heq as _ Heq. apply Hrest. rewrite Heq.
  apply in_elt.
Qed.

(** In the PDF-and-PowerPoint application no run at all has drawn a
    frame when it starts the recorder. *)
Lemma doc_start_is_blank a w :
  BlankStart (events (trace (AppDoc.createVideo env fuel (Some a) w))).
Proof.
  unfold AppDoc.createVideo, newAudioContext, bind at 1 2. simpl.
  set (w1 := setContexts (S (openContexts w)) w).
  pose proof (doc_record_blank (slides a) w1) as H.
  unfold tryCatch, trace in *.
  assert (Hhead : forall l, BlankStart l -> BlankStart (NewAudioContext :: l)).
  { intros l Hl pre post Heq i Hin. destruct pre as [|e pre];
      [discriminate|]. simpl in Heq. injection Heq as <- Heq.
    destruct Hin as [Hin|Hin]; [discriminate|]. exact (Hl _ _ Heq i Hin). }
  destruct (AppDoc.record env fuel (slides a) w1) as [[[[]| e |] w2] t2];
    simpl in *; apply Hhead; try exact H.
  unfold events. rewrite map_app. simpl.
  intros pre post Heq.
  assert (Hx : ~ In RecorderStart [ConsoleError])
    by (simpl; intuition discriminate).
  destruct (split_before _ _ _ _ _ Hx Heq) as (post1 & Hl1 & _).
  exact (H _ _ Hl1).
Qed.

End FirstFrame.

(** C3. In the PDF-and-PowerPoint application the recorder is started on
    a canvas nothing has been drawn on: in the run of [smoothEnv] no
    frame is drawn before [recorder.start()], and what follows the start
    is the first slide's audio, not a settling delay and a second draw
    of the first frame. *)
Theorem doc_capture_starts_before_first_frame :
  let evs := Browser.events (Browser.trace
               (AppDoc.createVideo smoothEnv 9 (Some oneSlide) freshWorld)) in
  exists pre post,
    evs = pre ++ Browser.RecorderStart :: post
    /\ (forall i, ~ In (Browser.DrawFrame i) pre)
    /\ (exists seconds post',
          post = Browser.SourceStart 0 seconds :: post')
    /\ In Browser.BlobAssembled post
    /\ forall settle, ~ FirstFrameGuarded settle evs.
Proof.
  cbv zeta.
  exists [Browser.NewAudioContext; Browser.GenerateSpeech 0;
          Browser.Timeout 2000; Browser.CaptureStream;
          Browser.NewMediaRecorder].
  eexists. split; [vm_compute; reflexivity|].
  split; [intros i; simpl; intuition discriminate|].
  split; [do 2 eexists; reflexivity|].
  split; [simpl; tauto|].
  intros settle H.
  match goal with
  | H : FirstFrameGuarded _ ?evs |- _ =>
      assert (Heq : evs = [Browser.NewAudioContext; Browser.GenerateSpeech 0;
                           Browser.Timeout 2000; Browser.CaptureStream;
                           Browser.NewMediaRecorder]
                          ++ Browser.RecorderStart :: tl (tl (tl (tl (tl (tl evs))))))
        by (vm_compute; reflexivity);
      destruct (H _ _ Heq) as [Hin _]
  end.
  simpl in Hin. intuition discriminate.
Qed.

(** ** Windows of the slides *)

Section Reading.

Import Browser.

Variable ok : nat -> Q -> Prop.
Variable pad : Q.
Hypothesis pad_nonneg : (0 <= pad)%Q.

Lemma timed_app : forall t1 t2 cur,
  timed ok pad cur (t1 ++ t2)
  <-> timed ok pad cur t1 /\ timed ok pad (scan pad cur t1) t2.
Proof.
  induction t1 as [|[t e] r IH]; intros t2 cur; simpl; [tauto|].
  destruct e; try apply IH; rewrite IH; tauto.
Qed.

Lemma scan_app : forall t1 t2 cur,
  scan pad cur (t1 ++ t2) = scan pad (scan pad cur t1) t2.
Proof.
  induction t1 as [|[t e] r IH]; intros t2 cur; simpl; [reflexivity|].
  destruct e; apply IH.
Qed.

(** Past an audio start the deadline only moves forward. *)
Lemma timed_reaches : forall b i dl t2 e2 c,
  timed ok pad (Some (i, dl)) (b ++ (t2, e2) :: c) ->
  startsOrStops e2 -> (dl <= inject_Z t2)%Q.
Proof.
  induction b as [|[t e] r IH]; intros i dl t2 e2 c H He; simpl in H.
  - destruct e2; simpl in He; try contradiction; tauto.
  - destruct e; try (eapply IH; [apply H | exact He]).
    destruct H as (_ & Hd & Hle & H).
    apply IH in H; [|exact He]. unfold deadline in H. lra.
Qed.

Lemma timed_nonOverlapping cur tr :
  timed ok pad cur tr -> NonOverlapping pad tr.
Proof.
  intros H a b c t1 i1 d1 t2 e2 -> He.
  apply timed_app in H. destruct H as [_ H]. simpl in H.
  destruct H as (_ & _ & _ & H). eapply timed_reaches; eassumption.
Qed.

Lemma timed_draws : forall b i dl t k c,
  timed ok pad (Some (i, dl)) (b ++ (t, DrawFrame k) :: c) ->
  noStart b -> k = i /\ (inject_Z t < dl)%Q.
Proof.
  induction b as [|[t0 e] r IH]; intros i dl t k c H Hb; simpl in H.
  - tauto.
  - assert (Hr : noStart r)
      by (intros t' i' d' Hin; apply (Hb t' i' d'); now right).
    destruct e; try (eapply IH; [apply H | exact Hr]).
    exfalso. eapply Hb. left. reflexivity.
Qed.

Lemma timed_drawsInWindow cur tr :
  timed ok pad cur tr -> DrawsInWindow pad tr.
Proof.
  intros H a b c t1 i1 d1 t i -> Hb.
  apply timed_app in H. destruct H as [_ H]. simpl in H.
  destruct H as (_ & _ & _ & H). eapply timed_draws; eassumption.
Qed.

Lemma timed_starts_ok : forall tr cur t i d,
  timed ok pad cur tr -> In (t, SourceStart i d) tr -> ok i d.
Proof.
  induction tr as [|[t0 e] r IH]; intros cur t i d H Hin; simpl in *.
  - contradiction.
  - destruct Hin as [Heq|Hin].
    + injection Heq as -> ->. tauto.
    + destruct e; eapply IH; solve [apply H | exact Hin].
Qed.

(** A trace without audio starts and recorder stops reads well before the
    first slide, and leaves no slide shown. *)
Lemma silent_timed t1 :
  Forall (fun te => notStartOrStop (snd te) = true) t1 ->
  timed ok pad None t1 /\ scan pad None t1 = None.
Proof.
  induction 1 as [|[t e] r He _ IH]; simpl; [tauto|].
  simpl in He. destruct e; try discriminate; tauto.
Qed.

(** A trace of frame ticks and timers reads well whatever is shown. *)
Lemma ticking_timed cur t1 :
  Forall (fun te => match snd te with
                    | AnimationFrame | Timeout _ | BlobAssembled
                    | CreateObjectURL | CloseAudioContext
                    | ConsoleError => True
                    | _ => False
                    end) t1 ->
  timed ok pad cur t1 /\ scan pad cur t1 = cur.
Proof.
  induction 1 as [|[t e] r He _ IH]; simpl; [tauto|].
  simpl in He. destruct e; try contradiction; tauto.
Qed.

End Reading.

Section Stepping.

Import Browser Session.

Lemma Qlt_bool_true x y : Qlt_bool x y = true -> (x < y)%Q.
Proof.
  unfold Qlt_bool. intros H. apply negb_true_iff in H.
  apply Qnot_le_lt. intros Hle. apply Qle_bool_iff in Hle. congruence.
Qed.

Lemma Qlt_bool_false x y : Qlt_bool x y = false -> (y <= x)%Q.
Proof.
  unfold Qlt_bool. intros H. apply negb_false_iff in H.
  now apply Qle_bool_iff.
Qed.

Lemma due_later cur w w' :
  (now w <= now w')%Z -> due cur w -> due cur w'.
Proof.
  intros Hle. destruct cur as [[i dl]|]; simpl; [|tauto].
  intros H. rewrite Zle_Qle in Hle. lra.
Qed.

Lemma bind_dateNow {B} (k : Z -> M B) w : bind dateNow k w = k (now w) w.
Proof. unfold bind, dateNow. now destruct (k (now w) w) as [[r w2] t2]. Qed.

Lemma bind_emit {B} e (k : unit -> M B) w :
  bind (emit e) k w
  = (result (k tt w), final (k tt w), (now w, e) :: trace (k tt w)).
Proof. unfold bind, emit. now destruct (k tt w) as [[r w2] t2]. Qed.

Lemma bind_update {B} f (k : unit -> M B) w :
  bind (update f) k w = k tt (f w).
Proof. unfold bind, update. now destruct (k tt (f w)) as [[r w2] t2]. Qed.

Lemma bind_ret {A B} (a : A) (k : A -> M B) w : bind (ret a) k w = k a w.
Proof. unfold bind, ret. now destruct (k a w) as [[r w2] t2]. Qed.

Lemma bind_throw_now {A B} e (k : A -> M B) w :
  bind (throw e) k w = (Throw e, w, []).
Proof. reflexivity. Qed.

Lemma bind_assoc {A B C} (m : M A) (k : A -> M B) (h : B -> M C) w :
  bind (bind m k) h w = bind m (fun a => bind (k a) h) w.
Proof.
  unfold bind. destruct (m w) as [[[a| e |] w1] t1]; try reflexivity.
  destruct (k a w1) as [[[b| e |] w2] t2]; try reflexivity.
  destruct (h b w2) as [[r w3] t3]. now rewrite app_assoc.
Qed.

Lemma bind_ok_inv {A B} (m : M A) (k : A -> M B) w b :
  result (bind m k w) = Ok b ->
  exists a, result (m w) = Ok a /\ result (k a (final (m w))) = Ok b.
Proof.
  unfold bind, result, final.
  destruct (m w) as [[[a| e |] w1] t1]; simpl; try discriminate.
  destruct (k a w1) as [[r w2] t2] eqn:Hk; simpl. intros ->.
  exists a. now rewrite Hk.
Qed.

Variable env : Env.

Lemma sleep_run {B} ms (k : unit -> M B) w :
  bind (sleep env ms) k w
  = let w' := setClock (now w + ms + Z.of_nat (latency env (awaits w)))
                (S (awaits w)) w in
    (result (k tt w'), final (k tt w'), (now w, Timeout ms) :: trace (k tt w')).
Proof.
  unfold sleep, await. rewrite bind_assoc, bind_emit.
  rewrite bind_update. reflexivity.
Qed.

Lemma nextFrame_run {B} (k : unit -> M B) w :
  bind (nextFrame env) k w
  = let w' := setClock (now w + 0 + Z.of_nat (latency env (awaits w)))
                (S (awaits w)) w in
    (result (k tt w'), final (k tt w'),
     (now w, AnimationFrame) :: trace (k tt w')).
Proof.
  unfold nextFrame, await. rewrite bind_assoc, bind_emit.
  rewrite bind_update. reflexivity.
Qed.

End Stepping.

Section Playback.

Import Browser Session.

Variable env : Env.
Variable fuel : nat.
Variable ok : nat -> Q -> Prop.

Lemma pdf_redraw_timed preloaded i startTime seconds : forall n w,
  let endTime := deadline 600 startTime seconds in
  let x := AppPdf.redraw env n preloaded i startTime seconds endTime w in
  timed ok 600 (Some (i, endTime)) (trace x)
  /\ scan 600 (Some (i, endTime)) (trace x) = Some (i, endTime)
  /\ (result x = Ok tt -> (endTime <= inject_Z (now (final x)))%Q).
Proof.
  cbv zeta. induction n as [|n IH]; intros w.
  - simpl. repeat split. discriminate.
  - cbn [AppPdf.redraw]. rewrite bind_dateNow.
    destruct (Qlt_bool (inject_Z (now w)) (deadline 600 startTime seconds))
      eqn:Hlt.
    + unfold AppPdf.drawFrame. destruct (nth_error preloaded i) as [s|].
      * rewrite bind_emit, nextFrame_run. cbv zeta.
        rewrite sleep_run. cbv zeta. rewrite bind_dateNow.
        cbn [result final trace fst snd now setClock].
        match goal with |- context [if ?c then _ else _] =>
          destruct c eqn:Hbreak end.
        -- cbn [ret result final trace fst snd timed scan now setClock].
           apply Qlt_bool_true in Hlt, Hbreak.
           split; [tauto|]. split; [reflexivity|]. intros _.
           unfold deadline. unfold Z.sub in Hbreak.
           rewrite inject_Z_plus, inject_Z_opp in Hbreak. lra.
        -- match goal with |- context [AppPdf.redraw _ _ _ _ _ _ _ ?w'] =>
             specialize (IH w') end.
           destruct IH as (Ht & Hs & Hr).
           cbn [timed scan]. apply Qlt_bool_true in Hlt.
           split; [tauto|]. split; [exact Hs | exact Hr].
      * rewrite bind_throw_now. simpl. repeat split. discriminate.
    + simpl. apply Qlt_bool_false in Hlt. repeat split. now intros _.
Qed.

Lemma doc_redraw_timed i endTime : forall n w,
  let x := AppDoc.redraw env n i endTime w in
  timed ok 300 (Some (i, endTime)) (trace x)
  /\ scan 300 (Some (i, endTime)) (trace x) = Some (i, endTime)
  /\ (result x = Ok tt -> (endTime <= inject_Z (now (final x)))%Q).
Proof.
  cbv zeta. induction n as [|n IH]; intros w.
  - simpl. repeat split. discriminate.
  - cbn [AppDoc.redraw]. rewrite bind_dateNow.
    destruct (Qlt_bool (inject_Z (now w)) endTime) eqn:Hlt.
    + unfold AppDoc.drawFrame. rewrite bind_emit, nextFrame_run. cbv zeta.
      cbn [result final trace fst snd].
      match goal with |- context [AppDoc.redraw _ _ _ _ ?w'] =>
        specialize (IH w') end.
      destruct IH as (Ht & Hs & Hr).
      cbn [timed scan]. apply Qlt_bool_true in Hlt.
      split; [tauto|]. split; [exact Hs | exact Hr].
    + simpl. apply Qlt_bool_false in Hlt. repeat split. now intros _.
Qed.

Hypothesis ok_nonneg : forall i d, ok i d -> (0 <= d)%Q.

Lemma ready_tail i s l : ready ok i (s :: l) -> ready ok (S i) l.
Proof.
  intros H k s' Hk. destruct (H (S k) s' Hk) as (b & Hb & Hok).
  exists b. split; [exact Hb|].
  now replace (S i + k)%nat with (i + S k)%nat by lia.
Qed.

(** The playback loop of the PDF-only application reads well from any
    slide whose deadline has passed, and comes back after the deadline
    of its last slide. *)
Lemma pdf_playSlides_timed preloaded : forall todo i w cur,
  due cur w -> ready ok i todo ->
  let x := AppPdf.playSlides env fuel preloaded todo i w in
  timed ok 600 cur (trace x)
  /\ (result x = Ok tt -> due (scan 600 cur (trace x)) (final x)).
Proof.
  cbv zeta. induction todo as [|slide rest IH]; intros i w cur Hdue Hready.
  - simpl. split; [exact I | now intros _].
  - destruct (Hready 0%nat slide eq_refl) as (buffer & Hb & Hok).
    rewrite Nat.add_0_r in Hok.
    cbn [AppPdf.playSlides]. rewrite Hb, bind_dateNow, bind_emit.
    cbn [trace result final fst snd timed scan].
    set (dl := deadline 600 (now w) (duration buffer)).
    pose proof (pdf_redraw_timed preloaded i (now w) (duration buffer)
                  fuel w) as Hloop.
    cbv zeta in Hloop. fold dl in Hloop. destruct Hloop as (Ht & Hs & Hr).
    change (inject_Z (now w) + duration buffer * 1000 + 600)%Q with dl.
    set (loop := AppPdf.redraw env fuel preloaded i (now w)
                   (duration buffer) dl) in *.
    assert (Hhead : ok i (duration buffer) /\ (0 <= duration buffer)%Q
                    /\ match cur with
                       | Some (_, dl0) => (dl0 <= inject_Z (now w))%Q
                       | None => True
                       end).
    { split; [exact Hok|]. split; [now apply (ok_nonneg i)|].
      destruct cur as [[i0 dl0]|]; [exact Hdue | exact I]. }
    destruct (result (loop w)) as [[]| e |] eqn:Hres.
    + rewrite (bind_ok _ _ w tt Hres). cbn [trace result final fst snd].
      destruct (IH (S i) (final (loop w)) (Some (i, dl)))
        as [Ht2 Hr2]; [apply Hr; reflexivity | now apply ready_tail in Hready |].
      rewrite timed_app, scan_app, Hs. tauto.
    + rewrite (bind_throw _ _ w e Hres). cbn [trace result final fst snd].
      split; [tauto | discriminate].
    + rewrite (bind_hang _ _ w Hres). cbn [trace result final fst snd].
      split; [tauto | discriminate].
Qed.

(** The same for the PDF-and-PowerPoint application and its 300 ms. *)
Lemma doc_playSlides_timed : forall todo i w cur,
  due cur w -> ready ok i todo ->
  let x := AppDoc.playSlides env fuel todo i w in
  timed ok 300 cur (trace x)
  /\ (result x = Ok tt -> due (scan 300 cur (trace x)) (final x)).
Proof.
  cbv zeta. induction todo as [|slide rest IH]; intros i w cur Hdue Hready.
  - simpl. split; [exact I | now intros _].
  - destruct (Hready 0%nat slide eq_refl) as (buffer & Hb & Hok).
    rewrite Nat.add_0_r in Hok.
    cbn [AppDoc.playSlides]. rewrite Hb, bind_dateNow, bind_emit.
    cbn [trace result final fst snd timed scan].
    set (dl := deadline 300 (now w) (duration buffer)).
    pose proof (doc_redraw_timed i dl fuel w) as Hloop.
    cbv zeta in Hloop. destruct Hloop as (Ht & Hs & Hr).
    change (inject_Z (now w) + duration buffer * 1000 + 300)%Q with dl.
    set (loop := AppDoc.redraw env fuel i dl) in *.
    assert (Hhead : ok i (duration buffer) /\ (0 <= duration buffer)%Q
                    /\ match cur with
                       | Some (_, dl0) => (dl0 <= inject_Z (now w))%Q
                       | None => True
                       end).
    { split; [exact Hok|]. split; [now apply (ok_nonneg i)|].
      destruct cur as [[i0 dl0]|]; [exact Hdue | exact I]. }
    destruct (result (loop w)) as [[]| e |] eqn:Hres.
    + rewrite (bind_ok _ _ w tt Hres). cbn [trace result final fst snd].
      destruct (IH (S i) (final (loop w)) (Some (i, dl)))
        as [Ht2 Hr2]; [apply Hr; reflexivity | now apply ready_tail in Hready |].
      rewrite timed_app, scan_app, Hs. tauto.
    + rewrite (bind_throw _ _ w e Hres). cbn [trace result final fst snd].
      split; [tauto | discriminate].
    + rewrite (bind_hang _ _ w Hres). cbn [trace result final fst snd].
      split; [tauto | discriminate].
Qed.

(** The end of the recording comes after the deadline that has passed. *)
Lemma finish_timed pad DAILY_LIMIT cur w :
  due cur w ->
  timed ok pad cur
    (trace ((recorderStop env ;; complete env DAILY_LIMIT)%js w)).
Proof.
  intros Hdue.
  unfold recorderStop, complete, useQuota, closeAudioContext.
  unfold bind, trace, emit, update, await, throw.
  destruct (recorderStops env); simpl; [|exact I].
  destruct cur as [[i dl]|]; simpl in *; tauto.
Qed.

End Playback.

Section Windows.

Import Browser Session.

Variable env : Env.
Variable fuel : nat.

Lemma decodeSpeech_rate audioBytes buffer :
  Audio.decodeSpeech audioBytes = Some buffer -> sampleRate buffer = 24000%Z.
Proof.
  unfold Audio.decodeSpeech, Audio.decodeAudioData, Audio.createBuffer.
  destruct (Audio.Int16Array audioBytes) as [l|]; [|discriminate].
  destruct ((1 =? 0)%nat || (List.length l / 1 =? 0)%nat || (24000 <=? 0)%Z);
    [discriminate|].
  now intros [= <-].
Qed.

Lemma narration_nonneg i d : narration env i d -> (0 <= d)%Q.
Proof.
  intros (b & buffer & _ & Hdec & ->). unfold duration.
  rewrite (decodeSpeech_rate _ _ Hdec).
  unfold Qle, Qdiv, Qmult, Qinv. simpl. lia.
Qed.

Lemma generateSpeechForText_narration i w buffer :
  result (generateSpeechForText env i w) = Ok buffer ->
  narration env i (duration buffer).
Proof.
  unfold generateSpeechForText, await.
  rewrite bind_emit, bind_update. cbn [result fst].
  destruct (speech env i) as [m|b] eqn:Hsp; [discriminate|].
  destruct (Audio.decodeSpeech b) as [buf|] eqn:Hdec; [|discriminate].
  intros [= <-]. now exists b, buf.
Qed.

Lemma narrated_snoc done slide buffer :
  narrated env done ->
  narration env (List.length done) (duration buffer) ->
  narrated env (done ++ [withAudio slide buffer]).
Proof.
  intros Hdone Hnew k s Hk.
  destruct (Nat.lt_ge_cases k (List.length done)) as [Hlt|Hge].
  - rewrite nth_error_app1 in Hk by exact Hlt. now apply Hdone.
  - rewrite nth_error_app2 in Hk by exact Hge.
    destruct (k - List.length done)%nat as [|j] eqn:Hj; simpl in Hk.
    + injection Hk as <-. exists buffer. split; [reflexivity|].
      now replace (0 + k)%nat with (List.length done) by lia.
    + now destruct j.
Qed.

(** The preload loop hands over slides that carry their narration. *)
Lemma pdf_preload_narrated : forall todo total done,
  narrated env done ->
  Yields (narrated env)
    (AppPdf.preload env todo (List.length done) total done).
Proof.
  induction todo as [|slide rest IH]; intros total done Hdone w a Hres.
  - simpl in Hres. now injection Hres as <-.
  - cbn [AppPdf.preload] in Hres.
    apply bind_ok_inv in Hres. destruct Hres as (buffer & Hsp & Hres).
    apply generateSpeechForText_narration in Hsp.
    do 4 (apply bind_ok_inv in Hres; destruct Hres as (_ & _ & Hres)).
    replace (S (List.length done))
      with (List.length (done ++ [withAudio slide buffer])) in Hres
      by (rewrite length_app; simpl; lia).
    eapply IH; [|exact Hres]. now apply narrated_snoc.
Qed.

Lemma doc_synthesize_narrated : forall todo total done,
  narrated env done ->
  Yields (narrated env)
    (AppDoc.synthesize env todo (List.length done) total done).
Proof.
  induction todo as [|slide rest IH]; intros total done Hdone w a Hres.
  - simpl in Hres. now injection Hres as <-.
  - cbn [AppDoc.synthesize] in Hres.
    apply bind_ok_inv in Hres. destruct Hres as (buffer & Hsp & Hres).
    apply generateSpeechForText_narration in Hsp.
    do 2 (apply bind_ok_inv in Hres; destruct Hres as (_ & _ & Hres)).
    replace (S (List.length done))
      with (List.length (done ++ [withAudio slide buffer])) in Hres
      by (rewrite length_app; simpl; lia).
    eapply IH; [|exact Hres]. now apply narrated_snoc.
Qed.

Lemma narrated_nil : narrated env [].
Proof. intros [|k] s Hk; discriminate. Qed.

(** [bind_prefix], with what the first computation returns. *)
Lemma bind_prefix_yields {A B} (R : Rel) (V : A -> Prop)
    (G : World -> Res B * World * Trace -> Prop) :
  (forall w0 w1 t1 x,
     R w0 w1 t1 -> G w1 x -> G w0 (result x, final x, t1 ++ trace x)) ->
  (forall w0 w1 t1 e, R w0 w1 t1 -> G w0 (Throw e, w1, t1)) ->
  (forall w0 w1 t1, R w0 w1 t1 -> G w0 (Hang, w1, t1)) ->
  forall (m : M A) (k : A -> M B),
    Always R m -> Yields V m -> (forall a w1, V a -> G w1 (k a w1)) ->
    forall w, G w (bind m k w).
Proof.
  intros Hpre Hthrow Hhang m k Hm Hv Hk w. specialize (Hm w).
  destruct (result (m w)) as [a| e |] eqn:Hr.
  - rewrite (bind_ok m k w a Hr).
    apply (Hpre w (final (m w)) (trace (m w)) (k a (final (m w)))); eauto.
  - rewrite (bind_throw m k w e Hr). now apply Hthrow.
  - rewrite (bind_hang m k w Hr). now apply Hhang.
Qed.

Lemma prep_notStartOrStop e : prepEvent e = true -> notStartOrStop e = true.
Proof. now destruct e. Qed.

Lemma reads_prefix pad w0 w1 t1 x :
  Quiet notStartOrStop w0 w1 t1 -> reads env pad w1 x ->
  reads env pad w0 (result x, final x, t1 ++ trace x).
Proof.
  intros (_ & _ & _ & Hq) Hx. unfold reads, trace at 1. simpl.
  destruct (silent_timed (narration env) pad t1 Hq) as [Ht Hs].
  apply timed_app. rewrite Hs. now split.
Qed.

Lemma reads_throw pad w0 w1 t1 e :
  Quiet notStartOrStop w0 w1 t1 -> reads env pad w0 (Throw e, w1, t1).
Proof.
  intros (_ & _ & _ & Hq). apply (silent_timed (narration env) pad t1 Hq).
Qed.

Lemma reads_hang pad w0 w1 t1 :
  Quiet notStartOrStop w0 w1 t1 -> reads env pad w0 (Hang, w1, t1).
Proof.
  intros (_ & _ & _ & Hq). apply (silent_timed (narration env) pad t1 Hq).
Qed.

Lemma pdf_playback_reads slidesWithAudio w :
  narrated env slidesWithAudio ->
  reads env 600 w
    ((AppPdf.playSlides env fuel slidesWithAudio slidesWithAudio 0 ;;
      sleep env 500 ;;
      recorderStop env ;;
      complete env AppPdf.DAILY_LIMIT)%js w).
Proof.
  intros Hn. unfold reads.
  destruct (pdf_playSlides_timed env fuel (narration env) narration_nonneg
              slidesWithAudio slidesWithAudio 0 w None I Hn) as [Ht Hr].
  set (play := AppPdf.playSlides env fuel slidesWithAudio slidesWithAudio 0)
    in *.
  destruct (result (play w)) as [[]| e |] eqn:Hres.
  - rewrite (bind_ok _ _ w tt Hres). cbn [trace snd].
    apply timed_app. split; [exact Ht|].
    rewrite sleep_run. cbv zeta. cbn [trace snd timed].
    apply finish_timed. eapply due_later; [|apply Hr; reflexivity].
    simpl. lia.
  - now rewrite (bind_throw _ _ w e Hres).
  - now rewrite (bind_hang _ _ w Hres).
Qed.

Lemma doc_playback_reads slidesWithAudio w :
  narrated env slidesWithAudio ->
  reads env 300 w
    ((AppDoc.playSlides env fuel slidesWithAudio 0 ;;
      recorderStop env ;;
      complete env AppDoc.DAILY_LIMIT)%js w).
Proof.
  intros Hn. unfold reads.
  destruct (doc_playSlides_timed env fuel (narration env) narration_nonneg
              slidesWithAudio 0 w None I Hn) as [Ht Hr].
  set (play := AppDoc.playSlides env fuel slidesWithAudio 0) in *.
  destruct (result (play w)) as [[]| e |] eqn:Hres.
  - rewrite (bind_ok _ _ w tt Hres). cbn [trace snd].
    apply timed_app. split; [exact Ht|].
    apply finish_timed. now apply Hr.
  - now rewrite (bind_throw _ _ w e Hres).
  - now rewrite (bind_hang _ _ w Hres).
Qed.

Lemma pdf_record_reads slides w :
  reads env 600 w (AppPdf.record env fuel slides w).
Proof.
  unfold AppPdf.record. revert w.
  apply (bind_prefix _ (reads env 600) (reads_prefix 600) (reads_throw 600)
           (reads_hang 600)); [apply quiet_setAppState|].
  intros _.
  apply (bind_prefix_yields _ (narrated env) (reads env 600) (reads_prefix 600)
           (reads_throw 600) (reads_hang 600)).
  { apply quiet_preload, prep_notStartOrStop. }
  { apply (pdf_preload_narrated slides (List.length slides) []).
    apply narrated_nil. }
  intros slidesWithAudio w Hn. revert w.
  apply (bind_prefix _ (reads env 600) (reads_prefix 600) (reads_throw 600)
           (reads_hang 600));
    [apply quiet_prepareRecorder, prep_notStartOrStop|].
  intros _.
  apply (bind_prefix _ (reads env 600) (reads_prefix 600) (reads_throw 600)
           (reads_hang 600)); [now apply quiet_pdf_drawFrame|].
  intros _.
  apply (bind_prefix _ (reads env 600) (reads_prefix 600) (reads_throw 600)
           (reads_hang 600)); [now apply quiet_recorderStart|].
  intros _.
  apply (bind_prefix _ (reads env 600) (reads_prefix 600) (reads_throw 600)
           (reads_hang 600)); [now apply quiet_sleep|].
  intros _.
  apply (bind_prefix _ (reads env 600) (reads_prefix 600) (reads_throw 600)
           (reads_hang 600)); [now apply quiet_pdf_drawFrame|].
  intros _ w. now apply pdf_playback_reads.
Qed.

Lemma doc_record_reads slides w :
  reads env 300 w (AppDoc.record env fuel slides w).
Proof.
  unfold AppDoc.record. revert w.
  apply (bind_prefix _ (reads env 300) (reads_prefix 300) (reads_throw 300)
           (reads_hang 300)); [apply quiet_setAppState|].
  intros _.
  apply (bind_prefix_yields _ (narrated env) (reads env 300) (reads_prefix 300)
           (reads_throw 300) (reads_hang 300)).
  { apply quiet_synthesize, prep_notStartOrStop. }
  { apply (doc_synthesize_narrated slides (List.length slides) []).
    apply narrated_nil. }
  intros slidesWithAudio w Hn. revert w.
  apply (bind_prefix _ (reads env 300) (reads_prefix 300) (reads_throw 300)
           (reads_hang 300));
    [apply quiet_prepareRecorder, prep_notStartOrStop|].
  intros _.
  apply (bind_prefix _ (reads env 300) (reads_prefix 300) (reads_throw 300)
           (reads_hang 300)); [now apply quiet_recorderStart|].
  intros _ w. now apply doc_playback_reads.
Qed.

(** [new AudioContext()], the [try] block and its [catch]. *)
Lemma video_reads pad (body : M unit) :
  (forall w, reads env pad w (body w)) ->
  forall w,
    timed (narration env) pad None
      (trace ((newAudioContext ;; tryCatch body onError)%js w)).
Proof.
  intros Hbody w. unfold newAudioContext, bind at 1 2. simpl.
  set (w1 := setContexts (S (openContexts w)) w).
  specialize (Hbody w1). unfold reads, tryCatch, trace in *.
  destruct (body w1) as [[[[]| e |] w2] t2]; simpl in *; try exact Hbody.
  apply timed_app. split; [exact Hbody|].
  simpl. exact I.
Qed.

End Windows.

(** ** The loops come back *)

Section Returning.

Import Browser Session.

Variable env : Env.

Lemma inject_Z_succ n :
  (inject_Z (Z.of_nat (S n)) == inject_Z (Z.of_nat n) + 1)%Q.
Proof. rewrite Nat2Z.inj_succ. unfold Z.succ. now rewrite inject_Z_plus. Qed.

Lemma pdf_redraw_S n preloaded i startTime seconds endTime w :
  AppPdf.redraw env (S n) preloaded i startTime seconds endTime w
  = (t <- dateNow ;;
     if Qlt_bool (inject_Z t) endTime then
       AppPdf.drawFrame preloaded i ;;
       nextFrame env ;;
       sleep env 100 ;;
       t' <- dateNow ;;
       if Qlt_bool (seconds * 1000 + 600)%Q (inject_Z (t' - startTime)%Z)
       then ret tt
       else AppPdf.redraw env n preloaded i startTime seconds endTime
     else ret tt)%js w.
Proof. reflexivity. Qed.

Lemma doc_redraw_S n i endTime w :
  AppDoc.redraw env (S n) i endTime w
  = (t <- dateNow ;;
     if Qlt_bool (inject_Z t) endTime then
       AppDoc.drawFrame i ;; nextFrame env ;; AppDoc.redraw env n i endTime
     else ret tt)%js w.
Proof. reflexivity. Qed.

(** The redraw loop of the PDF-only application waits at least 100 ms
    per round, so [n] rounds and one more test are enough for a window
    of [100 n] ms. *)
Lemma pdf_redraw_returns preloaded i startTime seconds endTime : forall n w,
  (endTime - inject_Z (now w) <= 100 * inject_Z (Z.of_nat n))%Q ->
  result (AppPdf.redraw env (S n) preloaded i startTime seconds endTime w)
  <> Hang.
Proof.
  induction n as [|n IH]; intros w Hw; rewrite pdf_redraw_S, bind_dateNow;
    destruct (Qlt_bool (inject_Z (now w)) endTime) eqn:Hlt;
    try discriminate.
  - apply Qlt_bool_true in Hlt. change (inject_Z (Z.of_nat 0)) with 0%Q in Hw.
    lra.
  - unfold AppPdf.drawFrame.
    destruct (nth_error preloaded i) as [s|]; [|discriminate].
    rewrite bind_emit, nextFrame_run. cbv zeta.
    rewrite sleep_run. cbv zeta. rewrite bind_dateNow.
    cbn [result final trace fst snd now setClock].
    match goal with |- context [if ?c then _ else _] => destruct c end;
      [discriminate|].
    apply IH. cbn [now awaits setClock].
    rewrite inject_Z_succ in Hw. rewrite !inject_Z_plus.
    assert (0 <= inject_Z (Z.of_nat (latency env (awaits w))))%Q
      by (change 0%Q with (inject_Z 0); rewrite <- Zle_Qle; lia).
    assert (0 <= inject_Z (Z.of_nat (latency env (S (awaits w)))))%Q
      by (change 0%Q with (inject_Z 0); rewrite <- Zle_Qle; lia).
    change (inject_Z 100) with 100%Q. change (inject_Z 0) with 0%Q. lra.
Qed.

(** The redraw loop of the other application only waits for the next
    animation frame; when every frame takes a millisecond or more, [n]
    rounds and one more test are enough for a window of [n] ms. *)
Lemma doc_redraw_returns i endTime :
  (forall k, (1 <= latency env k)%nat) ->
  forall n w,
    (endTime - inject_Z (now w) <= inject_Z (Z.of_nat n))%Q ->
    result (AppDoc.redraw env (S n) i endTime w) <> Hang.
Proof.
  intros Hlat.
  induction n as [|n IH]; intros w Hw; rewrite doc_redraw_S, bind_dateNow;
    destruct (Qlt_bool (inject_Z (now w)) endTime) eqn:Hlt;
    try discriminate.
  - apply Qlt_bool_true in Hlt. change (inject_Z (Z.of_nat 0)) with 0%Q in Hw.
    lra.
  - unfold AppDoc.drawFrame. rewrite bind_emit, nextFrame_run. cbv zeta.
    cbn [result final trace fst snd].
    apply IH. cbn [now setClock].
    rewrite inject_Z_succ in Hw. rewrite !inject_Z_plus.
    assert (1 <= inject_Z (Z.of_nat (latency env (awaits w))))%Q.
    { change 1%Q with (inject_Z 1). rewrite <- Zle_Qle.
      specialize (Hlat (awaits w)). lia. }
    change (inject_Z 0) with 0%Q. lra.
Qed.

End Returning.

(** ** Windows, one after the other *)

Section Order.

Import Browser Session.

Lemma starts_app t1 t2 : starts (t1 ++ t2) = starts t1 ++ starts t2.
Proof. unfold starts. apply flat_map_app. Qed.

Lemma startedSlides_app t1 t2 :
  startedSlides (t1 ++ t2) = startedSlides t1 ++ startedSlides t2.
Proof. unfold startedSlides. now rewrite starts_app, map_app. Qed.

(** A trace without audio starts. *)
Lemma silent_starts t1 :
  Forall (fun te => notStartOrStop (snd te) = true) t1 ->
  startedSlides t1 = [].
Proof.
  induction 1 as [|[t e] r He _ IH]; [reflexivity|].
  simpl in He. destruct e; try discriminate; exact IH.
Qed.

Variable env : Env.
Variable fuel : nat.

Lemma pdf_redraw_starts preloaded i startTime seconds endTime : forall n w,
  startedSlides
    (trace (AppPdf.redraw env n preloaded i startTime seconds endTime w))
  = [].
Proof.
  induction n as [|n IH]; intros w; [reflexivity|].
  rewrite pdf_redraw_S, bind_dateNow.
  destruct (Qlt_bool (inject_Z (now w)) endTime); [|reflexivity].
  unfold AppPdf.drawFrame. destruct (nth_error preloaded i) as [s|];
    [|reflexivity].
  rewrite bind_emit, nextFrame_run. cbv zeta.
  rewrite sleep_run. cbv zeta. rewrite bind_dateNow.
  cbn [result final trace fst snd now setClock].
  match goal with |- context [if ?c then _ else _] => destruct c end;
    [reflexivity|].
  apply IH.
Qed.

Lemma doc_redraw_starts i endTime : forall n w,
  startedSlides (trace (AppDoc.redraw env n i endTime w)) = [].
Proof.
  induction n as [|n IH]; intros w; [reflexivity|].
  rewrite doc_redraw_S, bind_dateNow.
  destruct (Qlt_bool (inject_Z (now w)) endTime); [|reflexivity].
  unfold AppDoc.drawFrame. rewrite bind_emit, nextFrame_run. cbv zeta.
  cbn [result final trace fst snd]. apply IH.
Qed.

(** The playback loop starts the audio of its slides one after the
    other, and of all of them when it returns. *)
Lemma pdf_playSlides_starts preloaded : forall todo i w,
  let x := AppPdf.playSlides env fuel preloaded todo i w in
  exists k, (k <= List.length todo)%nat
    /\ startedSlides (trace x) = seq i k
    /\ (result x = Ok tt -> k = List.length todo).
Proof.
  cbv zeta. induction todo as [|slide rest IH]; intros i w.
  - exists 0%nat. repeat split; auto.
  - cbn [AppPdf.playSlides].
    destruct (audioBuffer slide) as [buffer|].
    2: { exists 0%nat. repeat split; [simpl; lia | discriminate]. }
    rewrite bind_dateNow, bind_emit.
    cbn [trace result final fst snd].
    set (loop := AppPdf.redraw env fuel preloaded i (now w)
                   (duration buffer)
                   (inject_Z (now w) + duration buffer * 1000 + 600)).
    pose proof (pdf_redraw_starts preloaded i (now w) (duration buffer)
                  (inject_Z (now w) + duration buffer * 1000 + 600)
                  fuel w) as Hloop.
    fold loop in Hloop.
    change (startedSlides ((now w, SourceStart i (duration buffer)) :: ?t))
      with (i :: startedSlides t).
    destruct (result (loop w)) as [[]| e |] eqn:Hres.
    + rewrite (bind_ok _ _ w tt Hres). cbn [trace result final fst snd].
      destruct (IH (S i) (final (loop w))) as (k & Hk & Hs & Hr).
      exists (S k). rewrite startedSlides_app, Hloop, Hs.
      repeat split; [simpl; lia|]. intros H. now rewrite (Hr H).
    + rewrite (bind_throw _ _ w e Hres). cbn [trace result final fst snd].
      exists 1%nat. rewrite Hloop.
      repeat split; [simpl; lia | discriminate].
    + rewrite (bind_hang _ _ w Hres). cbn [trace result final fst snd].
      exists 1%nat. rewrite Hloop.
      repeat split; [simpl; lia | discriminate].
Qed.

Lemma doc_playSlides_starts : forall todo i w,
  let x := AppDoc.playSlides env fuel todo i w in
  exists k, (k <= List.length todo)%nat
    /\ startedSlides (trace x) = seq i k
    /\ (result x = Ok tt -> k = List.length todo).
Proof.
  cbv zeta. induction todo as [|slide rest IH]; intros i w.
  - exists 0%nat. repeat split; auto.
  - cbn [AppDoc.playSlides].
    destruct (audioBuffer slide) as [buffer|].
    2: { exists 0%nat. repeat split; [simpl; lia | discriminate]. }
    rewrite bind_dateNow, bind_emit.
    cbn [trace result final fst snd].
    set (loop := AppDoc.redraw env fuel i
                   (inject_Z (now w) + duration buffer * 1000 + 300)).
    pose proof (doc_redraw_starts i
                  (inject_Z (now w) + duration buffer * 1000 + 300)
                  fuel w) as Hloop.
    fold loop in Hloop.
    change (startedSlides ((now w, SourceStart i (duration buffer)) :: ?t))
      with (i :: startedSlides t).
    destruct (result (loop w)) as [[]| e |] eqn:Hres.
    + rewrite (bind_ok _ _ w tt Hres). cbn [trace result final fst snd].
      destruct (IH (S i) (final (loop w))) as (k & Hk & Hs & Hr).
      exists (S k). rewrite startedSlides_app, Hloop, Hs.
      repeat split; [simpl; lia|]. intros H. now rewrite (Hr H).
    + rewrite (bind_throw _ _ w e Hres). cbn [trace result final fst snd].
      exists 1%nat. rewrite Hloop.
      repeat split; [simpl; lia | discriminate].
    + rewrite (bind_hang _ _ w Hres). cbn [trace result final fst snd].
      exists 1%nat. rewrite Hloop.
      repeat split; [simpl; lia | discriminate].
Qed.

End Order.

Section OrderedRuns.

Import Browser Session.

Variable env : Env.
Variable fuel : nat.

Lemma pdf_preload_length : forall todo i total done,
  Yields (fun l => List.length l = (List.length done + List.length todo)%nat)
    (AppPdf.preload env todo i total done).
Proof.
  induction todo as [|slide rest IH]; intros i total done w a Hres.
  - simpl in Hres. injection Hres as <-. simpl. lia.
  - cbn [AppPdf.preload] in Hres.
    apply bind_ok_inv in Hres. destruct Hres as (buffer & _ & Hres).
    do 4 (apply bind_ok_inv in Hres; destruct Hres as (_ & _ & Hres)).
    apply IH in Hres. rewrite Hres, length_app. simpl. lia.
Qed.

Lemma doc_synthesize_length : forall todo i total done,
  Yields (fun l => List.length l = (List.length done + List.length todo)%nat)
    (AppDoc.synthesize env todo i total done).
Proof.
  induction todo as [|slide rest IH]; intros i total done w a Hres.
  - simpl in Hres. injection Hres as <-. simpl. lia.
  - cbn [AppDoc.synthesize] in Hres.
    apply bind_ok_inv in Hres. destruct Hres as (buffer & _ & Hres).
    do 2 (apply bind_ok_inv in Hres; destruct Hres as (_ & _ & Hres)).
    apply IH in Hres. rewrite Hres, length_app. simpl. lia.
Qed.

Lemma order_prefix n w0 w1 t1 x :
  Quiet notStartOrStop w0 w1 t1 -> startsInOrder n w1 x ->
  startsInOrder n w0 (result x, final x, t1 ++ trace x).
Proof.
  intros (_ & _ & _ & Hq) (k & Hk & Hs & Hr). exists k.
  unfold trace at 1, result at 1. simpl.
  rewrite startedSlides_app, (silent_starts _ Hq). auto.
Qed.

Lemma order_throw n w0 w1 t1 e :
  Quiet notStartOrStop w0 w1 t1 -> startsInOrder n w0 (Throw e, w1, t1).
Proof.
  intros (_ & _ & _ & Hq). exists 0%nat. unfold trace, result. simpl.
  rewrite (silent_starts _ Hq). repeat split; [lia | discriminate].
Qed.

Lemma order_hang n w0 w1 t1 :
  Quiet notStartOrStop w0 w1 t1 -> startsInOrder n w0 (Hang, w1, t1).
Proof.
  intros (_ & _ & _ & Hq). exists 0%nat. unfold trace, result. simpl.
  rewrite (silent_starts _ Hq). repeat split; [lia | discriminate].
Qed.

Lemma finish_starts DAILY_LIMIT w :
  startedSlides
    (trace ((recorderStop env ;; complete env DAILY_LIMIT)%js w)) = [].
Proof.
  unfold recorderStop, complete, useQuota, closeAudioContext.
  unfold bind, trace, emit, update, await, throw.
  destruct (recorderStops env); reflexivity.
Qed.

Lemma pdf_playback_order slidesWithAudio w :
  startsInOrder (List.length slidesWithAudio) w
    ((AppPdf.playSlides env fuel slidesWithAudio slidesWithAudio 0 ;;
      sleep env 500 ;;
      recorderStop env ;;
      complete env AppPdf.DAILY_LIMIT)%js w).
Proof.
  destruct (pdf_playSlides_starts env fuel slidesWithAudio slidesWithAudio
              0 w) as (k & Hk & Hs & Hr).
  set (play := AppPdf.playSlides env fuel slidesWithAudio slidesWithAudio 0)
    in *.
  exists k. split; [exact Hk|].
  destruct (result (play w)) as [[]| e |] eqn:Hres.
  - rewrite (bind_ok _ _ w tt Hres). cbn [trace result snd fst].
    rewrite startedSlides_app, Hs, sleep_run. cbv zeta.
    cbn [trace snd].
    change (startedSlides ((?t, Timeout 500) :: ?r)) with (startedSlides r).
    rewrite finish_starts, app_nil_r. split; [reflexivity|].
    intros _. now apply Hr.
  - rewrite (bind_throw _ _ w e Hres). cbn [trace result snd fst].
    split; [exact Hs | discriminate].
  - rewrite (bind_hang _ _ w Hres). cbn [trace result snd fst].
    split; [exact Hs | discriminate].
Qed.

Lemma doc_playback_order slidesWithAudio w :
  startsInOrder (List.length slidesWithAudio) w
    ((AppDoc.playSlides env fuel slidesWithAudio 0 ;;
      recorderStop env ;;
      complete env AppDoc.DAILY_LIMIT)%js w).
Proof.
  destruct (doc_playSlides_starts env fuel slidesWithAudio 0 w)
    as (k & Hk & Hs & Hr).
  set (play := AppDoc.playSlides env fuel slidesWithAudio 0) in *.
  exists k. split; [exact Hk|].
  destruct (result (play w)) as [[]| e |] eqn:Hres.
  - rewrite (bind_ok _ _ w tt Hres). cbn [trace result snd fst].
    rewrite startedSlides_app, Hs, finish_starts, app_nil_r.
    split; [reflexivity|]. intros _. now apply Hr.
  - rewrite (bind_throw _ _ w e Hres). cbn [trace result snd fst].
    split; [exact Hs | discriminate].
  - rewrite (bind_hang _ _ w Hres). cbn [trace result snd fst].
    split; [exact Hs | discriminate].
Qed.

Ltac order_step n lemma :=
  apply (bind_prefix (Quiet notStartOrStop) (startsInOrder n)
           (order_prefix n) (order_throw n) (order_hang n));
  [ lemma | intros _ ].

Lemma pdf_record_order slides w :
  startsInOrder (List.length slides) w (AppPdf.record env fuel slides w).
Proof.
  unfold AppPdf.record. revert w.
  order_step (List.length slides) ltac:(apply quiet_setAppState).
  apply (bind_prefix_yields (Quiet notStartOrStop)
           (fun l => List.length l = List.length slides)
           (startsInOrder (List.length slides))
           (order_prefix _) (order_throw _) (order_hang _)).
  { apply quiet_preload, prep_notStartOrStop. }
  { apply (pdf_preload_length slides 0 (List.length slides) []). }
  intros slidesWithAudio w Hlen. revert w.
  order_step (List.length slides)
    ltac:(apply quiet_prepareRecorder, prep_notStartOrStop).
  order_step (List.length slides) ltac:(now apply quiet_pdf_drawFrame).
  order_step (List.length slides) ltac:(now apply quiet_recorderStart).
  order_step (List.length slides) ltac:(now apply quiet_sleep).
  order_step (List.length slides) ltac:(now apply quiet_pdf_drawFrame).
  intros w. rewrite <- Hlen. apply pdf_playback_order.
Qed.

Lemma doc_record_order slides w :
  startsInOrder (List.length slides) w (AppDoc.record env fuel slides w).
Proof.
  unfold AppDoc.record. revert w.
  order_step (List.length slides) ltac:(apply quiet_setAppState).
  apply (bind_prefix_yields (Quiet notStartOrStop)
           (fun l => List.length l = List.length slides)
           (startsInOrder (List.length slides))
           (order_prefix _) (order_throw _) (order_hang _)).
  { apply quiet_synthesize, prep_notStartOrStop. }
  { apply (doc_synthesize_length slides 0 (List.length slides) []). }
  intros slidesWithAudio w Hlen. revert w.
  order_step (List.length slides)
    ltac:(apply quiet_prepareRecorder, prep_notStartOrStop).
  order_step (List.length slides) ltac:(now apply quiet_recorderStart).
  intros w. rewrite <- Hlen. apply doc_playback_order.
Qed.

(** [new AudioContext()], the [try] block and its [catch]: the blob is
    assembled only when the body returns. *)
Lemma video_order n (body : M unit) :
  (forall w, startsInOrder n w (body w)) ->
  (forall w, Settled env w (body w)) ->
  forall w, PlaysInOrder n ((newAudioContext ;; tryCatch body onError)%js w).
Proof.
  intros Hbody Hset w. unfold newAudioContext, bind at 1 2. simpl.
  set (w1 := setContexts (S (openContexts w)) w).
  specialize (Hbody w1). specialize (Hset w1).
  destruct Hbody as (k & Hk & Hs & Hr). exists k. split; [exact Hk|].
  unfold Settled, assembled, closed, result, final, trace in Hset.
  unfold tryCatch, assembled, trace, result in *.
  destruct (body w1) as [[[[]| e |] w2] t2]; simpl in *.
  - split; [exact Hs | intros _; now apply Hr].
  - change (startedSlides ((now w, NewAudioContext) :: ?r))
      with (startedSlides r).
    unfold events. rewrite startedSlides_app, map_app, Hs. simpl.
    rewrite app_nil_r. split; [reflexivity|].
    intros [H|H]; [discriminate|]. apply in_app_or in H.
    destruct Hset as (Hn & _). destruct H as [H|[H|[]]];
      [contradiction | discriminate].
  - split; [exact Hs|].
    intros [H|H]; [discriminate|]. destruct Hset as (Hn & _). contradiction.
Qed.

End OrderedRuns.

Section Pacing.

Import Browser.

Variables pad slack tail : Q.

Lemma paced_app : forall t1 t2 cur,
  paced pad slack tail cur (t1 ++ t2)
  <-> paced pad slack tail cur t1
      /\ paced pad slack tail (scan pad cur t1) t2.
Proof.
  induction t1 as [|[t e] r IH]; intros t2 cur; simpl; [tauto|].
  destruct e; try apply IH; rewrite IH; tauto.
Qed.

(** A trace without audio starts and recorder stops is paced, and leaves
    the slide shown as it was. *)
Lemma silent_paced t1 cur :
  Forall (fun te => notStartOrStop (snd te) = true) t1 ->
  paced pad slack tail cur t1 /\ scan pad cur t1 = cur.
Proof.
  induction 1 as [|[t e] r He _ IH]; simpl; [tauto|].
  simpl in He. destruct e; try discriminate; tauto.
Qed.

(** Until the next audio start the slide shown stays the same. *)
Lemma paced_reaches : forall b i dl t2 e2 c,
  paced pad slack tail (Some (i, dl)) (b ++ (t2, e2) :: c) ->
  noStart b ->
  match e2 with
  | SourceStart _ _ => (inject_Z t2 < dl + slack)%Q
  | RecorderStop => (inject_Z t2 < dl + slack + tail)%Q
  | _ => True
  end.
Proof.
  induction b as [|[t e] r IH]; intros i dl t2 e2 c H Hb; simpl in H.
  - destruct e2; try exact I; tauto.
  - assert (Hr : noStart r)
      by (intros t' i' d' Hin; apply (Hb t' i' d'); now right).
    destruct e; try (eapply IH; [apply H | exact Hr]).
    exfalso. eapply Hb. left. reflexivity.
Qed.

Lemma paced_prompt cur tr :
  paced pad slack tail cur tr -> Prompt pad slack tail tr.
Proof.
  intros H a b c t1 i1 d1 t2 e2 -> Hb.
  apply paced_app in H. destruct H as [_ H]. simpl in H.
  destruct H as (_ & H). eapply paced_reaches; eassumption.
Qed.

End Pacing.

Section PacedPlayback.

Import Browser Session.

Variable env : Env.
Variable fuel : nat.

(** No await takes more than [L] ms longer than it has to. *)
Variable L : nat.
Hypothesis latency_bound : forall k, (latency env k <= L)%nat.

Lemma ms_nonneg n : (0 <= ms n)%Q.
Proof.
  unfold ms. change 0%Q with (inject_Z 0). rewrite <- Zle_Qle. lia.
Qed.

Lemma ms_latency k : (0 <= ms (latency env k) /\ ms (latency env k) <= ms L)%Q.
Proof.
  split; [apply ms_nonneg|]. unfold ms. rewrite <- Zle_Qle.
  specialize (latency_bound k). lia.
Qed.

(** A round of the PDF-only redraw loop takes 100 ms and two awaits. *)
Lemma pdf_redraw_soon preloaded i startTime seconds endTime tail cur :
  forall n w,
    (inject_Z (now w) < endTime + (100 + 2 * ms L))%Q ->
    let x := AppPdf.redraw env n preloaded i startTime seconds endTime w in
    paced 600 (100 + 2 * ms L) tail cur (trace x)
    /\ scan 600 cur (trace x) = cur
    /\ (result x = Ok tt ->
        (inject_Z (now (final x)) < endTime + (100 + 2 * ms L))%Q).
Proof.
  cbv zeta. induction n as [|n IH]; intros w Hw.
  - simpl. repeat split. discriminate.
  - rewrite pdf_redraw_S, bind_dateNow.
    destruct (Qlt_bool (inject_Z (now w)) endTime) eqn:Hlt.
    + unfold AppPdf.drawFrame. destruct (nth_error preloaded i) as [s|].
      * rewrite bind_emit, nextFrame_run. cbv zeta.
        rewrite sleep_run. cbv zeta. rewrite bind_dateNow.
        cbn [result final trace fst snd now awaits setClock].
        apply Qlt_bool_true in Hlt.
        pose proof (ms_latency (awaits w)) as [Ha1 Ha2].
        pose proof (ms_latency (S (awaits w))) as [Hb1 Hb2].
        unfold ms in Ha1, Ha2, Hb1, Hb2.
        assert (Hnext :
          (inject_Z (now w + 0 + Z.of_nat (latency env (awaits w)) + 100
                     + Z.of_nat (latency env (S (awaits w))))
           < endTime + (100 + 2 * ms L))%Q).
        { rewrite !inject_Z_plus. unfold ms.
          change (inject_Z 100) with 100%Q. change (inject_Z 0) with 0%Q.
          lra. }
        match goal with |- context [if ?c then _ else _] =>
          destruct c eqn:Hbreak end.
        -- cbn [ret result final trace fst snd paced scan now setClock].
           split; [exact I|]. split; [reflexivity|]. intros _. exact Hnext.
        -- match goal with |- context [AppPdf.redraw _ _ _ _ _ _ _ ?w'] =>
             specialize (IH w') end.
           destruct IH as (Ht & Hs & Hr); [exact Hnext|].
           cbn [paced scan]. split; [exact Ht|]. split; [exact Hs | exact Hr].
      * rewrite bind_throw_now. simpl. repeat split. discriminate.
    + simpl. repeat split. now intros _.
Qed.

(** A round of the other redraw loop takes one await. *)
Lemma doc_redraw_soon i endTime tail cur : forall n w,
  (inject_Z (now w) < endTime + ms L)%Q ->
  let x := AppDoc.redraw env n i endTime w in
  paced 300 (ms L) tail cur (trace x)
  /\ scan 300 cur (trace x) = cur
  /\ (result x = Ok tt -> (inject_Z (now (final x)) < endTime + ms L)%Q).
Proof.
  cbv zeta. induction n as [|n IH]; intros w Hw.
  - simpl. repeat split. discriminate.
  - rewrite doc_redraw_S, bind_dateNow.
    destruct (Qlt_bool (inject_Z (now w)) endTime) eqn:Hlt.
    + unfold AppDoc.drawFrame. rewrite bind_emit, nextFrame_run. cbv zeta.
      cbn [result final trace fst snd].
      apply Qlt_bool_true in Hlt.
      pose proof (ms_latency (awaits w)) as [Ha1 Ha2].
      match goal with |- context [AppDoc.redraw _ _ _ _ ?w'] =>
        specialize (IH w') end.
      destruct IH as (Ht & Hs & Hr).
      { cbn [now setClock]. rewrite !inject_Z_plus.
        unfold ms in *. change (inject_Z 0) with 0%Q. lra. }
      cbn [paced scan]. split; [exact Ht|]. split; [exact Hs | exact Hr].
    + simpl. repeat split. now intros _.
Qed.

Variable ok : nat -> Q -> Prop.
Hypothesis ok_nonneg : forall i d, ok i d -> (0 <= d)%Q.

(** The playback loop of the PDF-only application is paced from any slide
    whose deadline is less than the slack ago, and comes back less than
    the slack after the deadline of its last slide. *)
Lemma pdf_playSlides_paced preloaded tail : forall todo i w cur,
  soon (100 + 2 * ms L) cur w -> ready ok i todo ->
  let x := AppPdf.playSlides env fuel preloaded todo i w in
  paced 600 (100 + 2 * ms L) tail cur (trace x)
  /\ (result x = Ok tt ->
      soon (100 + 2 * ms L) (scan 600 cur (trace x)) (final x)).
Proof.
  cbv zeta. induction todo as [|slide rest IH]; intros i w cur Hsoon Hready.
  - simpl. split; [exact I | now intros _].
  - destruct (Hready 0%nat slide eq_refl) as (buffer & Hb & Hok).
    rewrite Nat.add_0_r in Hok. apply ok_nonneg in Hok.
    cbn [AppPdf.playSlides]. rewrite Hb, bind_dateNow, bind_emit.
    cbn [trace result final fst snd paced scan].
    set (dl := deadline 600 (now w) (duration buffer)).
    change (inject_Z (now w) + duration buffer * 1000 + 600)%Q with dl.
    pose proof (ms_nonneg L) as HL.
    destruct (pdf_redraw_soon preloaded i (now w) (duration buffer) dl tail
                (Some (i, dl)) fuel w) as (Ht & Hs & Hr).
    { unfold dl, deadline. lra. }
    set (loop := AppPdf.redraw env fuel preloaded i (now w)
                   (duration buffer) dl) in *.
    assert (Hhead : match cur with
                    | Some (_, dl0) =>
                        (inject_Z (now w) < dl0 + (100 + 2 * ms L))%Q
                    | None => True
                    end)
      by (destruct cur as [[i0 dl0]|]; [exact Hsoon | exact I]).
    destruct (result (loop w)) as [[]| e |] eqn:Hres.
    + rewrite (bind_ok _ _ w tt Hres). cbn [trace result final fst snd].
      destruct (IH (S i) (final (loop w)) (Some (i, dl)))
        as [Ht2 Hr2];
        [apply Hr; reflexivity | now apply ready_tail in Hready |].
      rewrite paced_app, scan_app, Hs. tauto.
    + rewrite (bind_throw _ _ w e Hres). cbn [trace result final fst snd].
      split; [tauto | discriminate].
    + rewrite (bind_hang _ _ w Hres). cbn [trace result final fst snd].
      split; [tauto | discriminate].
Qed.

Lemma doc_playSlides_paced tail : forall todo i w cur,
  soon (ms L) cur w -> ready ok i todo ->
  let x := AppDoc.playSlides env fuel todo i w in
  paced 300 (ms L) tail cur (trace x)
  /\ (result x = Ok tt -> soon (ms L) (scan 300 cur (trace x)) (final x)).
Proof.
  cbv zeta. induction todo as [|slide rest IH]; intros i w cur Hsoon Hready.
  - simpl. split; [exact I | now intros _].
  - destruct (Hready 0%nat slide eq_refl) as (buffer & Hb & Hok).
    rewrite Nat.add_0_r in Hok. apply ok_nonneg in Hok.
    cbn [AppDoc.playSlides]. rewrite Hb, bind_dateNow, bind_emit.
    cbn [trace result final fst snd paced scan].
    set (dl := deadline 300 (now w) (duration buffer)).
    change (inject_Z (now w) + duration buffer * 1000 + 300)%Q with dl.
    pose proof (ms_nonneg L) as HL.
    destruct (doc_redraw_soon i dl tail (Some (i, dl)) fuel w)
      as (Ht & Hs & Hr).
    { unfold dl, deadline. lra. }
    set (loop := AppDoc.redraw env fuel i dl) in *.
    assert (Hhead : match cur with
                    | Some (_, dl0) => (inject_Z (now w) < dl0 + ms L)%Q
                    | None => True
                    end)
      by (destruct cur as [[i0 dl0]|]; [exact Hsoon | exact I]).
    destruct (result (loop w)) as [[]| e |] eqn:Hres.
    + rewrite (bind_ok _ _ w tt Hres). cbn [trace result final fst snd].
      destruct (IH (S i) (final (loop w)) (Some (i, dl)))
        as [Ht2 Hr2];
        [apply Hr; reflexivity | now apply ready_tail in Hready |].
      rewrite paced_app, scan_app, Hs. tauto.
    + rewrite (bind_throw _ _ w e Hres). cbn [trace result final fst snd].
      split; [tauto | discriminate].
    + rewrite (bind_hang _ _ w Hres). cbn [trace result final fst snd].
      split; [tauto | discriminate].
Qed.

(** The end of the recording comes at once. *)
Lemma finish_paced pad slack tail DAILY_LIMIT cur w :
  match cur with
  | Some (_, dl) => (inject_Z (now w) < dl + slack + tail)%Q
  | None => True
  end ->
  paced pad slack tail cur
    (trace ((recorderStop env ;; complete env DAILY_LIMIT)%js w)).
Proof.
  intros Hsoon.
  unfold recorderStop, complete, useQuota, closeAudioContext.
  unfold bind, trace, emit, update, await, throw.
  destruct (recorderStops env); simpl; [|exact I].
  destruct cur as [[i dl]|]; simpl in *; tauto.
Qed.

End PacedPlayback.

Section PacedRuns.

Import Browser Session.

Variable env : Env.
Variable fuel : nat.
Variable L : nat.
Hypothesis latency_bound : forall k, (latency env k <= L)%nat.

Lemma pace_prefix pad slack tail w0 w1 t1 x :
  Quiet notStartOrStop w0 w1 t1 -> keepsPace pad slack tail w1 x ->
  keepsPace pad slack tail w0 (result x, final x, t1 ++ trace x).
Proof.
  intros (_ & _ & _ & Hq) Hx. unfold keepsPace, trace at 1. simpl.
  destruct (silent_paced pad slack tail t1 None Hq) as [Ht Hs].
  apply paced_app. rewrite Hs. now split.
Qed.

Lemma pace_throw pad slack tail w0 w1 t1 e :
  Quiet notStartOrStop w0 w1 t1 ->
  keepsPace pad slack tail w0 (Throw e, w1, t1).
Proof.
  intros (_ & _ & _ & Hq). apply (silent_paced pad slack tail t1 None Hq).
Qed.

Lemma pace_hang pad slack tail w0 w1 t1 :
  Quiet notStartOrStop w0 w1 t1 ->
  keepsPace pad slack tail w0 (Hang, w1, t1).
Proof.
  intros (_ & _ & _ & Hq). apply (silent_paced pad slack tail t1 None Hq).
Qed.

Lemma pdf_playback_paced slidesWithAudio w :
  narrated env slidesWithAudio ->
  keepsPace 600 (100 + 2 * ms L) (500 + ms L) w
    ((AppPdf.playSlides env fuel slidesWithAudio slidesWithAudio 0 ;;
      sleep env 500 ;;
      recorderStop env ;;
      complete env AppPdf.DAILY_LIMIT)%js w).
Proof.
  intros Hn. unfold keepsPace.
  destruct (pdf_playSlides_paced env fuel L latency_bound (narration env)
              (narration_nonneg env) slidesWithAudio (500 + ms L)
              slidesWithAudio 0 w None I Hn) as [Ht Hr].
  set (play := AppPdf.playSlides env fuel slidesWithAudio slidesWithAudio 0)
    in *.
  destruct (result (play w)) as [[]| e |] eqn:Hres.
  - rewrite (bind_ok _ _ w tt Hres). cbn [trace snd].
    apply paced_app. split; [exact Ht|].
    rewrite sleep_run. cbv zeta. cbn [trace snd paced].
    apply (finish_paced env). specialize (Hr eq_refl).
    destruct (scan 600 None (trace (play w))) as [[i dl]|]; [|exact I].
    cbn [soon] in Hr. cbn [now setClock].
    pose proof (ms_latency env L latency_bound (awaits (final (play w))))
      as [Ha1 Ha2].
    rewrite !inject_Z_plus. unfold ms in *.
    change (inject_Z 500) with 500%Q. lra.
  - now rewrite (bind_throw _ _ w e Hres).
  - now rewrite (bind_hang _ _ w Hres).
Qed.

Lemma doc_playback_paced slidesWithAudio w :
  narrated env slidesWithAudio ->
  keepsPace 300 (ms L) 0 w
    ((AppDoc.playSlides env fuel slidesWithAudio 0 ;;
      recorderStop env ;;
      complete env AppDoc.DAILY_LIMIT)%js w).
Proof.
  intros Hn. unfold keepsPace.
  destruct (doc_playSlides_paced env fuel L latency_bound (narration env)
              (narration_nonneg env) 0 slidesWithAudio 0 w None I Hn)
    as [Ht Hr].
  set (play := AppDoc.playSlides env fuel slidesWithAudio 0) in *.
  destruct (result (play w)) as [[]| e |] eqn:Hres.
  - rewrite (bind_ok _ _ w tt Hres). cbn [trace snd].
    apply paced_app. split; [exact Ht|].
    apply (finish_paced env). specialize (Hr eq_refl).
    destruct (scan 300 None (trace (play w))) as [[i dl]|]; [|exact I].
    cbn [soon] in Hr. lra.
  - now rewrite (bind_throw _ _ w e Hres).
  - now rewrite (bind_hang _ _ w Hres).
Qed.

Ltac pace_step lemma :=
  apply (bind_prefix (Quiet notStartOrStop) (keepsPace _ _ _)
           (pace_prefix _ _ _) (pace_throw _ _ _) (pace_hang _ _ _));
  [ lemma | intros _ ].

Lemma pdf_record_paced slides w :
  keepsPace 600 (100 + 2 * ms L) (500 + ms L) w
    (AppPdf.record env fuel slides w).
Proof.
  unfold AppPdf.record. revert w.
  pace_step ltac:(apply quiet_setAppState).
  apply (bind_prefix_yields (Quiet notStartOrStop) (narrated env)
           (keepsPace _ _ _)
           (pace_prefix _ _ _) (pace_throw _ _ _) (pace_hang _ _ _)).
  { apply quiet_preload, prep_notStartOrStop. }
  { apply (pdf_preload_narrated env slides (List.length slides) []).
    apply narrated_nil. }
  intros slidesWithAudio w Hn. revert w.
  pace_step ltac:(apply quiet_prepareRecorder, prep_notStartOrStop).
  pace_step ltac:(now apply quiet_pdf_drawFrame).
  pace_step ltac:(now apply quiet_recorderStart).
  pace_step ltac:(now apply quiet_sleep).
  pace_step ltac:(now apply quiet_pdf_drawFrame).
  intros w. now apply pdf_playback_paced.
Qed.

Lemma doc_record_paced slides w :
  keepsPace 300 (ms L) 0 w (AppDoc.record env fuel slides w).
Proof.
  unfold AppDoc.record. revert w.
  pace_step ltac:(apply quiet_setAppState).
  apply (bind_prefix_yields (Quiet notStartOrStop) (narrated env)
           (keepsPace _ _ _)
           (pace_prefix _ _ _) (pace_throw _ _ _) (pace_hang _ _ _)).
  { apply quiet_synthesize, prep_notStartOrStop. }
  { apply (doc_synthesize_narrated env slides (List.length slides) []).
    apply narrated_nil. }
  intros slidesWithAudio w Hn. revert w.
  pace_step ltac:(apply quiet_prepareRecorder, prep_notStartOrStop).
  pace_step ltac:(now apply quiet_recorderStart).
  intros w. now apply doc_playback_paced.
Qed.

(** [new AudioContext()], the [try] block and its [catch]. *)
Lemma video_paced pad slack tail (body : M unit) :
  (forall w, keepsPace pad slack tail w (body w)) ->
  forall w,
    paced pad slack tail None
      (trace ((newAudioContext ;; tryCatch body onError)%js w)).
Proof.
  intros Hbody w. unfold newAudioContext, bind at 1 2. simpl.
  set (w1 := setContexts (S (openContexts w)) w).
  specialize (Hbody w1). unfold keepsPace, tryCatch, trace in *.
  destruct (body w1) as [[[[]| e |] w2] t2]; simpl in *; try exact Hbody.
  apply paced_app. split; [exact Hbody|].
  simpl. exact I.
Qed.

End PacedRuns.

(** ** Runs that get to the end *)

Section Completing.

Import Browser Session.

Variable env : Env.
Variable fuel : nat.

Lemma bind_result {A B} (m : M A) (k : A -> M B) w a :
  result (m w) = Ok a -> result (bind m k w) = result (k a (final (m w))).
Proof. intros H. now rewrite (bind_ok m k w a H). Qed.

Lemma generateSpeechForText_returns i audioBytes buffer w :
  speech env i = SpeechBytes audioBytes ->
  Audio.decodeSpeech audioBytes = Some buffer ->
  result (generateSpeechForText env i w) = Ok buffer.
Proof.
  intros Hsp Hdec. unfold generateSpeechForText, await.
  rewrite bind_emit, bind_update. cbn [result fst].
  now rewrite Hsp, Hdec.
Qed.

Lemma sleep_returns ms w : result (sleep env ms w) = Ok tt.
Proof. reflexivity. Qed.

Lemma prepareRecorder_returns w :
  canvasMounted env = true -> recorderSupported env = true ->
  result (prepareRecorder env w) = Ok tt.
Proof.
  intros Hc Hr. unfold prepareRecorder. now rewrite Hc, Hr.
Qed.

Lemma recorderStart_returns w :
  recorderStarts env = true -> result (recorderStart env w) = Ok tt.
Proof. intros H. unfold recorderStart. now rewrite H. Qed.

Lemma finish_returns DAILY_LIMIT w :
  recorderStops env = true ->
  result ((recorderStop env ;; complete env DAILY_LIMIT)%js w) = Ok tt.
Proof.
  intros H. unfold recorderStop, complete, useQuota, closeAudioContext.
  unfold bind, result, emit, update, await. now rewrite H.
Qed.

Lemma pdf_drawFrame_returns preloaded i w :
  nth_error preloaded i <> None ->
  result (AppPdf.drawFrame preloaded i w) = Ok tt.
Proof.
  intros H. unfold AppPdf.drawFrame.
  destruct (nth_error preloaded i); [reflexivity | congruence].
Qed.

(** The preload loop returns when every speech request is answered with
    speech that decodes and every image loads. *)
Lemma pdf_preload_returns : forall todo i total done w,
  (forall k, (k < List.length todo)%nat ->
     (exists audioBytes buffer,
        speech env (i + k) = SpeechBytes audioBytes
        /\ Audio.decodeSpeech audioBytes = Some buffer)
     /\ imageLoads env (i + k) = true) ->
  exists l, result (AppPdf.preload env todo i total done w) = Ok l.
Proof.
  induction todo as [|slide rest IH]; intros i total done w H.
  - now exists done.
  - destruct (H 0%nat) as ((b & buffer & Hsp & Hdec) & Himg);
      [simpl; lia|].
    rewrite Nat.add_0_r in Hsp, Himg.
    cbn [AppPdf.preload].
    rewrite (bind_result _ _ w buffer
               (generateSpeechForText_returns i b buffer w Hsp Hdec)).
    rewrite bind_emit. cbn [result fst].
    unfold await at 1. rewrite bind_update, Himg, bind_ret.
    unfold setProgress. rewrite bind_update.
    apply IH. intros k Hk.
    replace (S i + k)%nat with (i + S k)%nat by lia.
    apply H. simpl. lia.
Qed.

Lemma doc_synthesize_returns : forall todo i total done w,
  (forall k, (k < List.length todo)%nat ->
     exists audioBytes buffer,
       speech env (i + k) = SpeechBytes audioBytes
       /\ Audio.decodeSpeech audioBytes = Some buffer) ->
  exists l, result (AppDoc.synthesize env todo i total done w) = Ok l.
Proof.
  induction todo as [|slide rest IH]; intros i total done w H.
  - now exists done.
  - destruct (H 0%nat) as (b & buffer & Hsp & Hdec); [simpl; lia|].
    rewrite Nat.add_0_r in Hsp.
    cbn [AppDoc.synthesize].
    rewrite (bind_result _ _ w buffer
               (generateSpeechForText_returns i b buffer w Hsp Hdec)).
    unfold setProgress. rewrite bind_update, sleep_run. cbv zeta.
    cbn [result fst].
    apply IH. intros k Hk.
    replace (S i + k)%nat with (i + S k)%nat by lia.
    apply H. simpl. lia.
Qed.

(** The redraw loop of the PDF-only application returns within [n]
    rounds and one more test when the window left is of [100 n] ms. *)
Lemma pdf_redraw_completes preloaded i startTime seconds endTime :
  nth_error preloaded i <> None ->
  forall n w,
    (endTime - inject_Z (now w) <= 100 * ms n)%Q ->
    result (AppPdf.redraw env (S n) preloaded i startTime seconds endTime w)
    = Ok tt.
Proof.
  intros Himg.
  induction n as [|n IH]; intros w Hw; rewrite pdf_redraw_S, bind_dateNow;
    destruct (Qlt_bool (inject_Z (now w)) endTime) eqn:Hlt;
    try reflexivity.
  - apply Qlt_bool_true in Hlt. unfold ms in Hw.
    change (inject_Z (Z.of_nat 0)) with 0%Q in Hw. lra.
  - unfold AppPdf.drawFrame.
    destruct (nth_error preloaded i) as [s|]; [|congruence].
    rewrite bind_emit, nextFrame_run. cbv zeta.
    rewrite sleep_run. cbv zeta. rewrite bind_dateNow.
    cbn [result final trace fst snd now setClock].
    match goal with |- context [if ?c then _ else _] => destruct c end;
      [reflexivity|].
    apply IH. cbn [now awaits setClock].
    unfold ms in *. rewrite inject_Z_succ in Hw. rewrite !inject_Z_plus.
    assert (0 <= inject_Z (Z.of_nat (latency env (awaits w))))%Q
      by (change 0%Q with (inject_Z 0); rewrite <- Zle_Qle; lia).
    assert (0 <= inject_Z (Z.of_nat (latency env (S (awaits w)))))%Q
      by (change 0%Q with (inject_Z 0); rewrite <- Zle_Qle; lia).
    change (inject_Z 100) with 100%Q. change (inject_Z 0) with 0%Q. lra.
Qed.

(** The redraw loop of the other application returns within [n] rounds
    and one more test when the window left is of [lmin n] ms and every
    await takes [lmin] ms or more. *)
Lemma doc_redraw_completes lmin i endTime :
  (forall k, (lmin <= latency env k)%nat) ->
  forall n w,
    (endTime - inject_Z (now w) <= ms lmin * ms n)%Q ->
    result (AppDoc.redraw env (S n) i endTime w) = Ok tt.
Proof.
  intros Hlat.
  induction n as [|n IH]; intros w Hw; rewrite doc_redraw_S, bind_dateNow;
    destruct (Qlt_bool (inject_Z (now w)) endTime) eqn:Hlt;
    try reflexivity.
  - apply Qlt_bool_true in Hlt. unfold ms in Hw.
    change (inject_Z (Z.of_nat 0)) with 0%Q in Hw. lra.
  - unfold AppDoc.drawFrame. rewrite bind_emit, nextFrame_run. cbv zeta.
    cbn [result final trace fst snd].
    apply IH. cbn [now setClock].
    unfold ms in *. rewrite inject_Z_succ in Hw. rewrite !inject_Z_plus.
    assert (inject_Z (Z.of_nat lmin)
            <= inject_Z (Z.of_nat (latency env (awaits w))))%Q.
    { rewrite <- Zle_Qle. specialize (Hlat (awaits w)). lia. }
    change (inject_Z 0) with 0%Q. lra.
Qed.

(** The playback loop of the PDF-only application returns when every
    slide has its image and an audio whose window [pred fuel] rounds
    cover. *)
Lemma pdf_playSlides_returns preloaded : forall todo i w,
  (forall k s, nth_error todo k = Some s ->
     nth_error preloaded (i + k) <> None) ->
  ready (fun _ d => (0 <= d)%Q
                    /\ (d * 1000 + 600 <= 100 * ms (pred fuel))%Q) i todo ->
  result (AppPdf.playSlides env fuel preloaded todo i w) = Ok tt.
Proof.
  induction todo as [|slide rest IH]; intros i w Himg Hready;
    [reflexivity|].
  destruct (Hready 0%nat slide eq_refl) as (buffer & Hb & Hd & Hcov).
  specialize (Himg 0%nat slide eq_refl) as Hi. rewrite Nat.add_0_r in Hi.
  cbn [AppPdf.playSlides]. rewrite Hb, bind_dateNow, bind_emit.
  cbn [result fst].
  destruct fuel as [|rounds] eqn:Hfuel.
  { simpl in Hcov. unfold ms in Hcov. simpl in Hcov.
    change (inject_Z 0) with 0%Q in Hcov. lra. }
  rewrite (bind_result _ _ w tt).
  - apply IH.
    + intros k s Hk. replace (S i + k)%nat with (i + S k)%nat by lia.
      now apply (Himg (S k) s).
    + now apply ready_tail in Hready.
  - apply pdf_redraw_completes; [exact Hi|].
    simpl in Hcov. lra.
Qed.

Lemma doc_playSlides_returns lmin :
  (forall k, (lmin <= latency env k)%nat) ->
  forall todo i w,
    ready (fun _ d => (0 <= d)%Q
                      /\ (d * 1000 + 300 <= ms lmin * ms (pred fuel))%Q)
          i todo ->
    result (AppDoc.playSlides env fuel todo i w) = Ok tt.
Proof.
  intros Hlat.
  induction todo as [|slide rest IH]; intros i w Hready; [reflexivity|].
  destruct (Hready 0%nat slide eq_refl) as (buffer & Hb & Hd & Hcov).
  cbn [AppDoc.playSlides]. rewrite Hb, bind_dateNow, bind_emit.
  cbn [result fst].
  destruct fuel as [|rounds] eqn:Hfuel.
  { simpl in Hcov. unfold ms in Hcov. simpl in Hcov.
    change (inject_Z 0) with 0%Q in Hcov. lra. }
  rewrite (bind_result _ _ w tt).
  - apply IH. now apply ready_tail in Hready.
  - apply (doc_redraw_completes lmin); [exact Hlat|].
    simpl in Hcov. lra.
Qed.

End Completing.

Section CompletedRuns.

Import Browser Session.

Variable env : Env.
Variable fuel : nat.

Lemma covered_ready pad step rounds l :
  narrated env l -> Covers env pad step (List.length l) rounds ->
  ready (fun _ d => (0 <= d)%Q /\ (d * 1000 + pad <= step * ms rounds)%Q)
        0 l.
Proof.
  intros Hn Hcov k s Hk. destruct (Hn k s Hk) as (buffer & Hb & Hnar).
  exists buffer. split; [exact Hb|]. simpl in *.
  split; [now apply (narration_nonneg env k)|].
  apply (Hcov k); [|exact Hnar].
  apply nth_error_Some. congruence.
Qed.

(** With a cooperative environment and enough rounds for every window,
    the body of the [try] block of the PDF-only application returns. *)
Lemma pdf_record_returns slides w :
  (0 < List.length slides)%nat ->
  Cooperative env (List.length slides) ->
  (forall i, (i < List.length slides)%nat -> imageLoads env i = true) ->
  Covers env 600 100 (List.length slides) (pred fuel) ->
  result (AppPdf.record env fuel slides w) = Ok tt.
Proof.
  intros Hpos (Hsp & Hcanvas & Hsup & Hstart & Hstop) Himg Hcov.
  unfold AppPdf.record, setAppState. rewrite bind_update.
  match goal with |- result (_ ?w') = _ => set (w1 := w') end.
  destruct (pdf_preload_returns env slides 0 (List.length slides) [] w1)
    as [l Hl].
  { intros k Hk. simpl. split; [now apply Hsp | now apply Himg]. }
  pose proof (pdf_preload_narrated env slides (List.length slides) []
                (narrated_nil env) w1 l Hl) as Hn.
  pose proof (pdf_preload_length env slides 0 (List.length slides) []
                w1 l Hl) as Hlen.
  simpl in Hlen.
  assert (H0 : nth_error l 0 <> None).
  { destruct l; simpl in *; [lia | discriminate]. }
  rewrite (bind_result _ _ w1 l Hl).
  erewrite bind_result; [|now apply prepareRecorder_returns].
  erewrite bind_result; [|now apply pdf_drawFrame_returns].
  erewrite bind_result; [|now apply recorderStart_returns].
  erewrite bind_result; [|apply sleep_returns].
  erewrite bind_result; [|now apply pdf_drawFrame_returns].
  erewrite bind_result.
  2: { apply pdf_playSlides_returns.
       - intros k s Hk. simpl. congruence.
       - apply covered_ready; [exact Hn | now rewrite Hlen]. }
  erewrite bind_result; [|apply sleep_returns].
  now apply finish_returns.
Qed.

(** The same for the other application, where every round of the redraw
    loop is one await of [lmin] ms or more. *)
Lemma doc_record_returns lmin slides w :
  (forall k, (lmin <= latency env k)%nat) ->
  Cooperative env (List.length slides) ->
  Covers env 300 (ms lmin) (List.length slides) (pred fuel) ->
  result (AppDoc.record env fuel slides w) = Ok tt.
Proof.
  intros Hlat (Hsp & Hcanvas & Hsup & Hstart & Hstop) Hcov.
  unfold AppDoc.record, setAppState. rewrite bind_update.
  match goal with |- result (_ ?w') = _ => set (w1 := w') end.
  destruct (doc_synthesize_returns env slides 0 (List.length slides) [] w1)
    as [l Hl].
  { intros k Hk. simpl. now apply Hsp. }
  pose proof (doc_synthesize_narrated env slides (List.length slides) []
                (narrated_nil env) w1 l Hl) as Hn.
  pose proof (doc_synthesize_length env slides 0 (List.length slides) []
                w1 l Hl) as Hlen.
  simpl in Hlen.
  rewrite (bind_result _ _ w1 l Hl).
  erewrite bind_result; [|now apply prepareRecorder_returns].
  erewrite bind_result; [|now apply recorderStart_returns].
  erewrite bind_result.
  2: { apply (doc_playSlides_returns env fuel lmin Hlat).
       apply covered_ready; [exact Hn | now rewrite Hlen]. }
  now apply finish_returns.
Qed.

(** [new AudioContext()], the [try] block and its [catch]: a body that
    returns has assembled the blob. *)
Lemma video_assembled (body : M unit) :
  (forall w, Settled env w (body w)) ->
  forall w,
    result (body (setContexts (S (openContexts w)) w)) = Ok tt ->
    assembled ((newAudioContext ;; tryCatch body onError)%js w).
Proof.
  intros Hset w. unfold newAudioContext, bind at 1 2. simpl.
  set (w1 := setContexts (S (openContexts w)) w).
  specialize (Hset w1).
  unfold Settled, assembled, closed, result, final, trace in Hset.
  unfold tryCatch, assembled, trace, result.
  destruct (body w1) as [[[[]| e |] w2] t2]; simpl in *; try discriminate.
  intros _. right. apply Hset.
Qed.

End CompletedRuns.

(** ** A frame for every slide *)

Section Showing.

Import Browser Session.

Lemma shown_app : forall t1 t2, shown t1 -> shown t2 -> shown (t1 ++ t2).
Proof.
  induction t1 as [|[t e] r IH]; intros t2 H1 H2; [exact H2|].
  simpl in *. destruct e; try (now apply IH).
  destruct H1 as [Hr H1]. split; [|now apply IH].
  destruct r as [|[t' e'] r']; [contradiction|]. exact Hr.
Qed.

(** A trace without audio starts. *)
Lemma silent_shown t1 : startedSlides t1 = [] -> shown t1.
Proof.
  induction t1 as [|[t e] r IH]; intros H; [exact I|].
  simpl. destruct e; try (apply IH; exact H). discriminate H.
Qed.

Lemma shown_drawsAtStart tr : shown tr -> DrawsAtStart tr.
Proof.
  intros H a. revert tr H.
  induction a as [|[t0 e0] a IH]; intros tr H c t i d ->; simpl in H.
  - destruct H as [H _]. destruct c as [|[t' e'] c']; [contradiction|].
    destruct e'; try contradiction. destruct H as [-> ->]. now eexists.
  - assert (H' : shown (a ++ (t, SourceStart i d) :: c))
      by (destruct e0; try exact H; apply H).
    exact (IH _ H' c t i d eq_refl).
Qed.

Variable env : Env.
Variable fuel : nat.
Hypothesis fuel_pos : (0 < fuel)%nat.

Variable ok : nat -> Q -> Prop.
Hypothesis ok_nonneg : forall i d, ok i d -> (0 <= d)%Q.

Lemma pdf_playSlides_shown preloaded : forall todo i w,
  (forall k s, nth_error todo k = Some s ->
     nth_error preloaded (i + k) <> None) ->
  ready ok i todo ->
  shown (trace (AppPdf.playSlides env fuel preloaded todo i w)).
Proof.
  induction todo as [|slide rest IH]; intros i w Himg Hready; [exact I|].
  destruct (Hready 0%nat slide eq_refl) as (buffer & Hb & Hok).
  rewrite Nat.add_0_r in Hok. apply ok_nonneg in Hok.
  specialize (Himg 0%nat slide eq_refl) as Hi. rewrite Nat.add_0_r in Hi.
  cbn [AppPdf.playSlides]. rewrite Hb, bind_dateNow, bind_emit.
  cbn [trace snd].
  set (endTime := (inject_Z (now w) + duration buffer * 1000 + 600)%Q).
  set (loop := AppPdf.redraw env fuel preloaded i (now w) (duration buffer)
                 endTime).
  assert (Hrest : shown (trace (bind loop
            (fun _ => AppPdf.playSlides env fuel preloaded rest (S i)) w))).
  { pose proof (pdf_redraw_starts env preloaded i (now w) (duration buffer)
                  endTime fuel w) as Hloop.
    fold loop in Hloop. apply silent_shown in Hloop.
    destruct (result (loop w)) as [[]| e |] eqn:Hres.
    - rewrite (bind_ok _ _ w tt Hres). cbn [trace snd].
      apply shown_app; [exact Hloop|]. apply IH.
      + intros k s Hk. replace (S i + k)%nat with (i + S k)%nat by lia.
        now apply (Himg (S k) s).
      + now apply ready_tail in Hready.
    - now rewrite (bind_throw _ _ w e Hres).
    - now rewrite (bind_hang _ _ w Hres). }
  cbn [shown]. split; [|exact Hrest].
  assert (Hhead : exists r,
            trace (loop w) = (now w, DrawFrame i) :: r).
  { unfold loop. destruct fuel as [|n]; [lia|].
    rewrite pdf_redraw_S, bind_dateNow.
    assert (Hlt : Qlt_bool (inject_Z (now w)) endTime = true).
    { unfold Qlt_bool. apply negb_true_iff.
      destruct (Qle_bool endTime (inject_Z (now w))) eqn:Hle; [|reflexivity].
      apply Qle_bool_iff in Hle. unfold endTime in Hle. lra. }
    rewrite Hlt. unfold AppPdf.drawFrame.
    destruct (nth_error preloaded i) as [s|]; [|congruence].
    rewrite bind_emit. cbn [trace snd]. now eexists. }
  destruct Hhead as [r Hr].
  destruct (result (loop w)) as [[]| e |] eqn:Hres.
  - rewrite (bind_ok _ _ w tt Hres). cbn [trace snd]. rewrite Hr.
    simpl. now split.
  - rewrite (bind_throw _ _ w e Hres). cbn [trace snd]. rewrite Hr.
    now split.
  - rewrite (bind_hang _ _ w Hres). cbn [trace snd]. rewrite Hr.
    now split.
Qed.

Lemma doc_playSlides_shown : forall todo i w,
  ready ok i todo ->
  shown (trace (AppDoc.playSlides env fuel todo i w)).
Proof.
  induction todo as [|slide rest IH]; intros i w Hready; [exact I|].
  destruct (Hready 0%nat slide eq_refl) as (buffer & Hb & Hok).
  rewrite Nat.add_0_r in Hok. apply ok_nonneg in Hok.
  cbn [AppDoc.playSlides]. rewrite Hb, bind_dateNow, bind_emit.
  cbn [trace snd].
  set (endTime := (inject_Z (now w) + duration buffer * 1000 + 300)%Q).
  set (loop := AppDoc.redraw env fuel i endTime).
  assert (Hrest : shown (trace (bind loop
            (fun _ => AppDoc.playSlides env fuel rest (S i)) w))).
  { pose proof (doc_redraw_starts env i endTime fuel w) as Hloop.
    fold loop in Hloop. apply silent_shown in Hloop.
    destruct (result (loop w)) as [[]| e |] eqn:Hres.
    - rewrite (bind_ok _ _ w tt Hres). cbn [trace snd].
      apply shown_app; [exact Hloop|]. apply IH.
      now apply ready_tail in Hready.
    - now rewrite (bind_throw _ _ w e Hres).
    - now rewrite (bind_hang _ _ w Hres). }
  cbn [shown]. split; [|exact Hrest].
  assert (Hhead : exists r,
            trace (loop w) = (now w, DrawFrame i) :: r).
  { unfold loop. destruct fuel as [|n]; [lia|].
    rewrite doc_redraw_S, bind_dateNow.
    assert (Hlt : Qlt_bool (inject_Z (now w)) endTime = true).
    { unfold Qlt_bool. apply negb_true_iff.
      destruct (Qle_bool endTime (inject_Z (now w))) eqn:Hle; [|reflexivity].
      apply Qle_bool_iff in Hle. unfold endTime in Hle. lra. }
    rewrite Hlt. unfold AppDoc.drawFrame.
    rewrite bind_emit. cbn [trace snd]. now eexists. }
  destruct Hhead as [r Hr].
  destruct (result (loop w)) as [[]| e |] eqn:Hres.
  - rewrite (bind_ok _ _ w tt Hres). cbn [trace snd]. rewrite Hr.
    simpl. now split.
  - rewrite (bind_throw _ _ w e Hres). cbn [trace snd]. rewrite Hr.
    now split.
  - rewrite (bind_hang _ _ w Hres). cbn [trace snd]. rewrite Hr.
    now split.
Qed.

End Showing.

Section ShownRuns.

Import Browser Session.

Variable env : Env.
Variable fuel : nat.
Hypothesis fuel_pos : (0 < fuel)%nat.

Lemma show_prefix w0 w1 t1 x :
  Quiet notStartOrStop w0 w1 t1 -> showsSlides w1 x ->
  showsSlides w0 (result x, final x, t1 ++ trace x).
Proof.
  intros (_ & _ & _ & Hq) Hx. unfold showsSlides, trace at 1. simpl.
  apply shown_app; [|exact Hx]. apply silent_shown, silent_starts, Hq.
Qed.

Lemma show_throw w0 w1 t1 e :
  Quiet notStartOrStop w0 w1 t1 -> showsSlides w0 (Throw e, w1, t1).
Proof.
  intros (_ & _ & _ & Hq). apply silent_shown, silent_starts, Hq.
Qed.

Lemma show_hang w0 w1 t1 :
  Quiet notStartOrStop w0 w1 t1 -> showsSlides w0 (Hang, w1, t1).
Proof.
  intros (_ & _ & _ & Hq). apply silent_shown, silent_starts, Hq.
Qed.

Lemma pdf_playback_shown slidesWithAudio w :
  narrated env slidesWithAudio ->
  showsSlides w
    ((AppPdf.playSlides env fuel slidesWithAudio slidesWithAudio 0 ;;
      sleep env 500 ;;
      recorderStop env ;;
      complete env AppPdf.DAILY_LIMIT)%js w).
Proof.
  intros Hn. unfold showsSlides.
  pose proof (pdf_playSlides_shown env fuel fuel_pos (narration env)
                (narration_nonneg env) slidesWithAudio slidesWithAudio 0 w)
    as Ht.
  set (play := AppPdf.playSlides env fuel slidesWithAudio slidesWithAudio 0)
    in *.
  assert (Hplay : shown (trace (play w))).
  { apply Ht; [|exact Hn]. intros k s Hk. simpl. congruence. }
  destruct (result (play w)) as [[]| e |] eqn:Hres.
  - rewrite (bind_ok _ _ w tt Hres). cbn [trace snd].
    apply shown_app; [exact Hplay|].
    rewrite sleep_run. cbv zeta. cbn [trace snd shown].
    apply silent_shown, finish_starts.
  - now rewrite (bind_throw _ _ w e Hres).
  - now rewrite (bind_hang _ _ w Hres).
Qed.

Lemma doc_playback_shown slidesWithAudio w :
  narrated env slidesWithAudio ->
  showsSlides w
    ((AppDoc.playSlides env fuel slidesWithAudio 0 ;;
      recorderStop env ;;
      complete env AppDoc.DAILY_LIMIT)%js w).
Proof.
  intros Hn. unfold showsSlides.
  pose proof (doc_playSlides_shown env fuel fuel_pos (narration env)
                (narration_nonneg env) slidesWithAudio 0 w Hn) as Hplay.
  set (play := AppDoc.playSlides env fuel slidesWithAudio 0) in *.
  destruct (result (play w)) as [[]| e |] eqn:Hres.
  - rewrite (bind_ok _ _ w tt Hres). cbn [trace snd].
    apply shown_app; [exact Hplay|]. apply silent_shown, finish_starts.
  - now rewrite (bind_throw _ _ w e Hres).
  - now rewrite (bind_hang _ _ w Hres).
Qed.

Ltac show_step lemma :=
  apply (bind_prefix (Quiet notStartOrStop) showsSlides
           show_prefix show_throw show_hang);
  [ lemma | intros _ ].

Lemma pdf_record_shown slides w :
  showsSlides w (AppPdf.record env fuel slides w).
Proof.
  unfold AppPdf.record. revert w.
  show_step ltac:(apply quiet_setAppState).
  apply (bind_prefix_yields (Quiet notStartOrStop) (narrated env)
           showsSlides show_prefix show_throw show_hang).
  { apply quiet_preload, prep_notStartOrStop. }
  { apply (pdf_preload_narrated env slides (List.length slides) []).
    apply narrated_nil. }
  intros slidesWithAudio w Hn. revert w.
  show_step ltac:(apply quiet_prepareRecorder, prep_notStartOrStop).
  show_step ltac:(now apply quiet_pdf_drawFrame).
  show_step ltac:(now apply quiet_recorderStart).
  show_step ltac:(now apply quiet_sleep).
  show_step ltac:(now apply quiet_pdf_drawFrame).
  intros w. now apply pdf_playback_shown.
Qed.

Lemma doc_record_shown slides w :
  showsSlides w (AppDoc.record env fuel slides w).
Proof.
  unfold AppDoc.record. revert w.
  show_step ltac:(apply quiet_setAppState).
  apply (bind_prefix_yields (Quiet notStartOrStop) (narrated env)
           showsSlides show_prefix show_throw show_hang).
  { apply quiet_synthesize, prep_notStartOrStop. }
  { apply (doc_synthesize_narrated env slides (List.length slides) []).
    apply narrated_nil. }
  intros slidesWithAudio w Hn. revert w.
  show_step ltac:(apply quiet_prepareRecorder, prep_notStartOrStop).
  show_step ltac:(now apply quiet_recorderStart).
  intros w. now apply doc_playback_shown.
Qed.

End ShownRuns.

(** [new AudioContext()], the [try] block and its [catch]. *)
Lemma video_shown (body : Browser.M unit) :
  (forall w, showsSlides w (body w)) ->
  forall w,
    shown (Browser.trace
             ((Session.newAudioContext ;;
               Browser.tryCatch body Session.onError)%js w)).
Proof.
  intros Hbody w. unfold Session.newAudioContext, Browser.bind at 1 2. simpl.
  set (w1 := Browser.setContexts (S (Browser.openContexts w)) w).
  specialize (Hbody w1). unfold showsSlides, Browser.tryCatch, Browser.trace in *.
  destruct (body w1) as [[[[]| e |] w2] t2]; simpl in *; try exact Hbody.
  apply shown_app; [exact Hbody|]. simpl. exact I.
Qed.

(** C6. In every run of either [createVideo], each audio source that
    starts plays the narration decoded for its slide; from its start on,
    no other source starts and the recording does not end before the
    slide's deadline, which is the start plus the narration's duration
    plus the padding (600 ms in the PDF-only application, 300 ms in the
    other); and every frame drawn before the next source starts is a
    frame of that slide, drawn before the deadline.  The sources start
    for slides 0, 1, 2, ... in this order, and for every slide in a run
    that assembles the blob; and when the loop bound is not zero, every
    start is followed at once by a frame of its slide.  When no await
    takes more than [L] ms longer than it has to, the window of a slide
    is over less than a round of the redraw loop after its deadline: the
    next source starts less than [100 + 2 L] ms after it in the PDF-only
    application and less than [L] ms after it in the other, and the
    recording ends less than [500 + L] ms later than that in the former
    and at once in the latter.  And the run does assemble the blob when
    the environment cooperates and the loop bound covers every window:
    [pred fuel] rounds of 100 ms in the PDF-only application, and of
    [lmin] ms in the other when every await takes [lmin] ms or more. *)
Theorem slide_windows_do_not_overlap env fuel a w :
  let n := List.length (slides a) in
  (let x := AppPdf.createVideo env fuel (Some a) w in
   let tr := Browser.trace x in
   NarrationWindows env tr /\ NonOverlapping 600 tr /\ DrawsInWindow 600 tr
   /\ PlaysInOrder n x
   /\ ((0 < fuel)%nat -> DrawsAtStart tr)
   /\ (forall L, (forall k, (Browser.latency env k <= L)%nat) ->
         Prompt 600 (100 + 2 * ms L) (500 + ms L) tr)
   /\ ((0 < n)%nat -> Cooperative env n ->
       (forall i, (i < n)%nat -> Browser.imageLoads env i = true) ->
       Covers env 600 100 n (pred fuel) ->
       assembled x))
  /\
  (let x := AppDoc.createVideo env fuel (Some a) w in
   let tr := Browser.trace x in
   NarrationWindows env tr /\ NonOverlapping 300 tr /\ DrawsInWindow 300 tr
   /\ PlaysInOrder n x
   /\ ((0 < fuel)%nat -> DrawsAtStart tr)
   /\ (forall L, (forall k, (Browser.latency env k <= L)%nat) ->
         Prompt 300 (ms L) 0 tr)
   /\ (forall lmin, (forall k, (lmin <= Browser.latency env k)%nat) ->
       Cooperative env n ->
       Covers env 300 (ms lmin) n (pred fuel) ->
       assembled x)).
Proof.
  cbv zeta. split.
  - pose proof (video_reads env 600 _ (pdf_record_reads env fuel (slides a)) w)
      as H.
    split; [|split; [|split; [|split; [|split; [|split]]]]].
    + intros t i d Hin. eapply timed_starts_ok; eassumption.
    + eapply timed_nonOverlapping; [|exact H]. discriminate.
    + eapply timed_drawsInWindow; exact H.
    + apply (video_order env (List.length (slides a))
               (AppPdf.record env fuel (slides a))).
      * intros w1. apply pdf_record_order.
      * intros w1. apply pdf_record_settled.
    + intros Hfuel. apply shown_drawsAtStart.
      apply (video_shown (AppPdf.record env fuel (slides a))).
      intros w1. now apply pdf_record_shown.
    + intros L HL. eapply paced_prompt.
      apply (video_paced _ _ _ (AppPdf.record env fuel (slides a))).
      intros w1. now apply pdf_record_paced.
    + intros Hpos Hcoop Himg Hcov.
      apply (video_assembled env (AppPdf.record env fuel (slides a))).
      * intros w1. apply pdf_record_settled.
      * now apply pdf_record_returns.
  - pose proof (video_reads env 300 _ (doc_record_reads env fuel (slides a)) w)
      as H.
    split; [|split; [|split; [|split; [|split; [|split]]]]].
    + intros t i d Hin. eapply timed_starts_ok; eassumption.
    + eapply timed_nonOverlapping; [|exact H]. discriminate.
    + eapply timed_drawsInWindow; exact H.
    + apply (video_order env (List.length (slides a))
               (AppDoc.record env fuel (slides a))).
      * intros w1. apply doc_record_order.
      * intros w1. apply doc_record_settled.
    + intros Hfuel. apply shown_drawsAtStart.
      apply (video_shown (AppDoc.record env fuel (slides a))).
      intros w1. now apply doc_record_shown.
    + intros L HL. eapply paced_prompt.
      apply (video_paced _ _ _ (AppDoc.record env fuel (slides a))).
      intros w1. now apply doc_record_paced.
    + intros lmin Hlat Hcoop Hcov.
      apply (video_assembled env (AppDoc.record env fuel (slides a))).
      * intros w1. apply doc_record_settled.
      * now apply (doc_record_returns env fuel lmin).
Qed.

Lemma slide_windows_do_not_overlap_witness :
  let x := AppPdf.createVideo smoothEnv 9 (Some twoSlides) freshWorld in
  let y := AppDoc.createVideo smoothEnv 9 (Some twoSlides) freshWorld in
  (assembled x
   /\ startedSlides (Browser.trace x) = [0; 1]%nat
   /\ starts (Browser.trace x)
      = [(900%Z, 0%nat, 1 # 24000); (1800%Z, 1%nat, 1 # 24000)]
   /\ NonOverlapping 600 (Browser.trace x)
   /\ DrawsAtStart (Browser.trace x)
   /\ Prompt 600 (100 + 2 * ms 100) (500 + ms 100) (Browser.trace x))
  /\ (assembled y
      /\ startedSlides (Browser.trace y) = [0; 1]%nat
      /\ starts (Browser.trace y)
         = [(4400%Z, 0%nat, 1 # 24000); (4800%Z, 1%nat, 1 # 24000)]
      /\ NonOverlapping 300 (Browser.trace y)
      /\ DrawsAtStart (Browser.trace y)
      /\ Prompt 300 (ms 100) 0 (Browser.trace y)).
Proof.
  cbv zeta.
  assert (Hcoop : Cooperative smoothEnv 2).
  { split; [|repeat split].
    intros i _. exists shortSpeech. eexists. split; reflexivity. }
  assert (Hcov : forall pad,
            ((1 # 24) + pad <= 800)%Q -> Covers smoothEnv pad 100 2 8).
  { intros pad Hpad i d _ (b & buffer & Hsp & Hdec & ->).
    simpl in Hsp. injection Hsp as <-.
    vm_compute in Hdec. injection Hdec as <-.
    unfold duration, ms. simpl.
    change (inject_Z 8) with 8%Q.
    setoid_replace (inject_Z 1 / inject_Z 24000 * 1000)%Q with (1 # 24)%Q
      by reflexivity.
    lra. }
  destruct (slide_windows_do_not_overlap smoothEnv 9 twoSlides freshWorld)
    as [(_ & Hno & _ & (k & _ & Hk & Hall) & Hdraw & Hprompt & Hlive)
        (_ & Hno' & _ & (k' & _ & Hk' & Hall') & Hdraw' & Hprompt'
           & Hlive')].
  cbv zeta in *.
  assert (Ha : assembled
                 (AppPdf.createVideo smoothEnv 9 (Some twoSlides) freshWorld)).
  { apply Hlive; [simpl; lia | exact Hcoop | reflexivity |].
    apply Hcov. lra. }
  assert (Ha' : assembled
                  (AppDoc.createVideo smoothEnv 9 (Some twoSlides) freshWorld)).
  { apply (Hlive' 100%nat); [intros j; simpl; lia | exact Hcoop |].
    apply Hcov. lra. }
  split.
  - split; [exact Ha|]. split; [now rewrite Hk, (Hall Ha)|].
    split; [vm_compute; reflexivity|].
    split; [exact Hno|]. split; [apply Hdraw; lia|].
    apply Hprompt. intros j. simpl. lia.
  - split; [exact Ha'|]. split; [now rewrite Hk', (Hall' Ha')|].
    split; [vm_compute; reflexivity|].
    split; [exact Hno'|]. split; [apply Hdraw'; lia|].
    apply Hprompt'. intros j. simpl. lia.
Defined.

(** ** Sample runs *)

(** With two slides and nothing failing, both applications complete; the
    second audio starts 900 ms after the first in the PDF-only
    application (deadline after 600 ms and a bit) and 400 ms after it in
    the other (deadline after 300 ms and a bit). *)
Lemma sample_runs_complete :
  let x := AppPdf.createVideo smoothEnv 9 (Some twoSlides) freshWorld in
  let y := AppDoc.createVideo smoothEnv 9 (Some twoSlides) freshWorld in
  Browser.result x = Browser.Ok tt
  /\ starts (Browser.trace x)
     = [(900%Z, 0%nat, 1 # 24000); (1800%Z, 1%nat, 1 # 24000)]
  /\ Browser.result y = Browser.Ok tt
  /\ starts (Browser.trace y)
     = [(4400%Z, 0%nat, 1 # 24000); (4800%Z, 1%nat, 1 # 24000)].
Proof. cbv zeta. repeat split; vm_compute; reflexivity. Qed.

(** The progress shown after slide 29 of 50 is 28 per cent: the quotient
    29/50 is rounded down and the product with 50 stays below 29.  After
    the last slide it is 50. *)
Lemma progressAt_rounds :
  Session.progressAt 28 50 = 28%Z /\ Session.progressAt 49 50 = 50%Z.
Proof. split; vm_compute; reflexivity. Qed.

(** Once the application has mounted, the storage holds a counter. *)
Lemma checkQuota_stores env DAILY_LIMIT w :
  exists date count,
    Browser.localStorage
      (Browser.final (Session.checkQuota env DAILY_LIMIT w))
    = Some (date, count).
Proof.
  unfold Session.checkQuota, Browser.update, Browser.final. simpl.
  destruct (Browser.localStorage w) as [[date count]|] eqn:Hs.
  - destruct (String.eqb date (Browser.today env)); simpl;
      rewrite ?Hs; eauto.
  - simpl. eauto.
Qed.
